(** * ElectricityPriceCalculator: the analytics core, embedded and verified

    A shallow embedding of [services/mockData.ts] (the price-generation
    engine [generatePriceFromWeather] and its helpers) and of
    [services/mlUtils.ts] ([computeFoldMetrics], [performTimeSeriesCV],
    [computeAggregateMetrics], [predictHorizon]).

    - A JavaScript [number] is a binary64 float: Rocq's primitive [float],
      whose operations are specified by [SpecFloat] through [FloatAxioms].
    - A [Date] is its time value, [option Z] in milliseconds, [None] being
      the invalid date (time value NaN).
    - A call that can raise lives in the [result] monad.
    - [Map] and plain-object tables are [gmap]s. *)

From Stdlib Require Import ZArith List Bool Ascii Floats Lia Permutation Sorted.
From stdpp Require Import gmap strings.
Import ListNotations.

Set Warnings "-inexact-float".
Local Open Scope Z_scope.

(** ** JavaScript numbers *)

Module Js.

(** [Number.isFinite]. *)
Definition Number_isFinite (x : float) : bool := is_finite x.

(** ToBoolean on a number: [0], [-0] and [NaN] are falsy. *)
Definition truthy (x : float) : bool := negb (is_nan x || is_zero x).

(** [x || y] on numbers. *)
Definition or (x y : float) : float := if truthy x then x else y.

(** [Math.max(a, b)]: NaN if either is NaN, and [+0] is larger than [-0]. *)
Definition Math_max (a b : float) : float :=
  if is_nan a || is_nan b then nan
  else if (a <? b)%float then b
  else if (b <? a)%float then a
  else if get_sign a then b else a.

(** [Math.min(a, b)]: NaN if either is NaN, and [-0] is smaller than [+0]. *)
Definition Math_min (a b : float) : float :=
  if is_nan a || is_nan b then nan
  else if (a <? b)%float then a
  else if (b <? a)%float then b
  else if get_sign a then a else b.

(** The integer nearest to [100 * m * 2^e], the larger one on a tie: the
    [n] that [Number.prototype.toFixed(2)] picks for [x = m * 2^e]. *)
Definition toFixed_n (m : positive) (e : Z) : Z :=
  if 0 <=? e then 100 * Z.pos m * 2 ^ e
  else (2 * (100 * Z.pos m) + 2 ^ (- e)) / 2 ^ (- e + 1).

(** [m * 2^e >= 10^21], where [toFixed] falls back to [ToString]. *)
Definition ge_1e21 (m : positive) (e : Z) : bool :=
  if 0 <=? e then 10 ^ 21 <=? Z.pos m * 2 ^ e
  else 10 ^ 21 * 2 ^ (- e) <=? Z.pos m.

(** The double nearest to the decimal [n / 100], which is what
    [parseFloat] reads back from the digits [toFixed(2)] wrote. *)
Definition decimal2 (s : bool) (n : positive) : float :=
  SF2Prim (SF64div (S754_finite s n 0) (S754_finite false 100 0)).

(** [parseFloat(x.toFixed(2))]. [toFixed] writes "NaN", "Infinity" and
    "-Infinity" for the non-finite numbers, "0.00" for both zeros, the
    shortest round-tripping digits from [10^21] on, and otherwise the
    sign of [x] followed by the digits of [n / 100]. *)
Definition toFixed2 (x : float) : float :=
  match Prim2SF x with
  | S754_nan => nan
  | S754_infinity _ => x
  | S754_zero _ => zero
  | S754_finite s m e =>
      if ge_1e21 m e then x
      else match toFixed_n m e with
           | Z.pos n => decimal2 s n
           | _ => if s then neg_zero else zero
           end
  end.

(** An array length as a number. *)
Definition of_nat (n : nat) : float :=
  SF2Prim (binary_normalize prec emax (Z.of_nat n) 0 false).

End Js.


(** ** Exceptions *)

Inductive exn := RangeError | TypeError.

Inductive result (A : Type) : Type :=
| Ok (a : A)
| Throw (e : exn).
Arguments Ok {A} a.
Arguments Throw {A} e.

Global Instance result_ret : MRet result := fun A a => Ok a.
Global Instance result_bind : MBind result := fun A B f c =>
  match c with
  | Ok a => f a
  | Throw e => Throw e
  end.

Global Instance result_fmap : FMap result := fun A B f c =>
  match c with
  | Ok a => Ok (f a)
  | Throw e => Throw e
  end.

(** [arr.forEach] / a [for] loop whose body can raise, threading the
    state the body updates. *)
Fixpoint foldM {S A : Type} (f : S -> A -> result S) (s : S) (l : list A)
  : result S :=
  match l with
  | [] => Ok s
  | a :: l' => s' ← f s a; foldM f s' l'
  end.

(** [arr.map(cb)] for a callback that can raise. *)
Fixpoint mapM {A B : Type} (f : A -> result B) (l : list A)
  : result (list B) :=
  match l with
  | [] => Ok []
  | a :: l' => b ← f a; bs ← mapM f l'; mret (b :: bs)
  end.

(** [arr.map(cb)] for a callback that can raise and that updates
    variables captured from the enclosing scope. *)
Fixpoint mapM_state {S A B : Type} (f : S -> A -> result (S * B)) (s : S)
  (l : list A) : result (list B) :=
  match l with
  | [] => Ok []
  | a :: l' => sb ← f s a; bs ← mapM_state f sb.1 l'; mret (sb.2 :: bs)
  end.

(** ** Strings that carry a timestamp

    [Date.prototype.toISOString] is one-to-one between valid time values
    and the strings it writes, and [Date.parse] reads each of them back
    to its time value, so such a string is kept as the time value it
    spells: [IsoString t].  Any other string the engine passes along (the
    empty string of [toHourIso], an unparsable [obs.time]) is a
    [RawString]. *)

Inductive jsstring :=
| IsoString (t : Z)
| RawString (s : string).

Global Instance jsstring_eq_dec : EqDecision jsstring.
Proof. solve_decision. Defined.

Global Instance jsstring_countable : Countable jsstring.
Proof.
  refine (inj_countable'
            (fun k => match k with IsoString t => inl t | RawString s => inr s end)
            (fun x => match x with inl t => IsoString t | inr s => RawString s end)
            _).
  by intros [].
Defined.

(** ToBoolean on a string: only the empty string is falsy. *)
Definition string_truthy (k : jsstring) : bool :=
  match k with
  | RawString EmptyString => false
  | _ => true
  end.

(** ** Dates *)

Definition msPerHour : Z := 60 * 60 * 1000.
Definition maxTimeValue : Z := 8640000000000000.

(** A Date object, by its time value; [None] is the invalid date. *)
Definition Date := option Z.

(** ECMAScript [TimeClip]. *)
Definition TimeClip (t : Z) : Date :=
  if Z.abs t <=? maxTimeValue then Some t else None.

(** [date.getTime()], [None] for NaN. *)
Definition getTime (d : Date) : option Z := d.

(** [new Date(t)] for a number [t]. *)
Definition Date_of_time (t : option Z) : Date := t ≫= TimeClip.

(** [date.getUTCHours()], [None] for NaN. *)
Definition getUTCHours (d : Date) : option Z :=
  (fun t => (t `div` msPerHour) `mod` 24) <$> d.

(** [date.setUTCMinutes(0, 0, 0)]. *)
Definition setUTCMinutes000 (d : Date) : Date :=
  d ≫= fun t => TimeClip (msPerHour * (t `div` msPerHour)).

(** [date.toISOString()], which raises on the invalid date. *)
Definition toISOString (d : Date) : result jsstring :=
  match d with
  | Some t => Ok (IsoString t)
  | None => Throw RangeError
  end.

(** ** Records of [types.ts], [fmiService.ts] and [priceService.ts] *)

Record FmiDataPoint := {
  time : string;
  fmi_temperature : float;
  isForecast : bool
}.

Record SpotPricePoint := {
  spot_timestamp : string;
  price : float;
  spot_isFuture : bool
}.

Record PriceData := {
  timestamp : jsstring;
  actualPrice : option float;
  predictedPrice : float;
  temperature : float;
  isFuture : bool
}.

Record CrossValidationResult := {
  fold : nat;
  trainSize : nat;
  testSize : nat;
  cv_mae : float;
  cv_rmse : float
}.

Record AggregateMetrics := {
  mae : float;
  rmse : float;
  r2 : float
}.

(** An entry of [historicalPairs]. *)
Record HistoricalPair := {
  hp_timestamp : jsstring;
  hp_temperature : float;
  hp_price : float
}.

(** A row of [modelWeights]. *)
Record Weights := {
  w_lag1 : float;
  w_lag24 : float;
  w_hour : float;
  w_mean : float;
  w_temp : float
}.

(** ** [Array.prototype.sort]

    A stable sort, as ECMAScript requires.  The comparator's number is
    read by its sign, and NaN counts as [0]. *)

Section Sort.
Context {A : Type} (cmp : A -> A -> comparison).

Fixpoint sort_insert (x : A) (l : list A) : list A :=
  match l with
  | [] => [x]
  | y :: l' =>
      match cmp x y with
      | Gt => y :: sort_insert x l'
      | _ => x :: l
      end
  end.

Definition Array_sort (l : list A) : list A := fold_right sort_insert [] l.
End Sort.

(** ** mockData.ts *)

(** [mean]. *)
Definition sum (values : list float) : float :=
  fold_left (fun acc value => acc + value)%float values 0%float.

Definition mean (values : list float) : float :=
  match values with
  | [] => 0%float
  | _ => (sum values / Js.of_nat (length values))%float
  end.

(** The own properties of the [modelWeights] literal. *)
Definition LinearRegression : Weights :=
  {| w_lag1 := 0.45; w_lag24 := 0.00; w_hour := 0.35; w_mean := 0.20; w_temp := 0.9 |}.
Definition RandomForest : Weights :=
  {| w_lag1 := 0.54; w_lag24 := 0.06; w_hour := 0.30; w_mean := 0.10; w_temp := 1.05 |}.
Definition GradientBoosting : Weights :=
  {| w_lag1 := 0.60; w_lag24 := 0.05; w_hour := 0.28; w_mean := 0.07; w_temp := 1.15 |}.

(** [modelWeights] is an object literal, so a property read also finds what
    it inherits from [Object.prototype]: a function or an object, hence
    truthy, on which [lag1], [lag24], [hour], [mean] and [temp] are all
    [undefined]. *)
Definition Object_prototype_keys : list string :=
  ["constructor"; "hasOwnProperty"; "isPrototypeOf"; "propertyIsEnumerable";
   "toLocaleString"; "toString"; "valueOf"; "__proto__";
   "__defineGetter__"; "__defineSetter__";
   "__lookupGetter__"; "__lookupSetter__"]%string.

Inductive WeightsRef :=
| OwnWeights (w : Weights)
| Inherited.

(** [modelWeights[key]], [None] for [undefined]. *)
Definition modelWeights (key : string) : option WeightsRef :=
  if decide (key = "Linear Regression"%string) then Some (OwnWeights LinearRegression)
  else if decide (key = "Random Forest"%string) then Some (OwnWeights RandomForest)
  else if decide (key = "Gradient Boosting"%string) then Some (OwnWeights GradientBoosting)
  else if decide (key ∈ Object_prototype_keys) then Some Inherited
  else None.

(** The weight fields as the products of [predictedRaw] read them:
    [undefined] is NaN there. *)
Definition weights_fields (r : WeightsRef) : Weights :=
  match r with
  | OwnWeights w => w
  | Inherited =>
      {| w_lag1 := nan; w_lag24 := nan; w_hour := nan; w_mean := nan; w_temp := nan |}
  end.

(** [modelWeights[modelType] || modelWeights['Gradient Boosting']]. *)
Definition selectWeights (modelType : string) : Weights :=
  weights_fields (default (OwnWeights GradientBoosting) (modelWeights modelType)).

Definition comfortTemp : float := 15.

(** [Math.max(0, comfortTemp - temperature)]. *)
Definition heatingDemand (comfort temp : float) : float :=
  Js.Math_max 0 (comfort - temp).

(** The loop of [estimateTemperatureBeta]. *)
Definition betaStep (demandMean priceMean : float) (acc : float * float)
  (dp : float * float) : float * float :=
  let demandCentered := (dp.1 - demandMean)%float in
  ((acc.1 + demandCentered * (dp.2 - priceMean))%float,
   (acc.2 + demandCentered * demandCentered)%float).

Definition estimateTemperatureBeta (pairs : list HistoricalPair) (comfort : float)
  : float :=
  if (length pairs <? 2)%nat then 0%float
  else
    let demand := map (fun point => heatingDemand comfort (hp_temperature point)) pairs in
    let prices := map hp_price pairs in
    let demandMean := mean demand in
    let priceMean := mean prices in
    let '(covariance, variance) :=
      fold_left (betaStep demandMean priceMean) (combine demand prices)
        (0%float, 0%float) in
    if (variance =? 0)%float then 0%float
    else
      let beta := (covariance / variance)%float in
      Js.Math_max (-2.5) (Js.Math_min 6 beta).

Section Engine.

(** [Date.parse]: the time value a string spells, [None] for NaN.  Which
    strings it reads beyond the ISO format is left to the host, as is the
    time zone of a string without an offset. *)
Variable Date_parse : string -> option Z.

(** [new Date(s)] for a string [s]. *)
Definition Date_of_string (s : string) : Date := Date_parse s ≫= TimeClip.

(** [new Date(k)] for a string the engine made. *)
Definition Date_of_jsstring (k : jsstring) : Date :=
  match k with
  | IsoString t => TimeClip t
  | RawString s => Date_of_string s
  end.

(** [toHourIso]. *)
Definition toHourIso (dateInput : string) : result jsstring :=
  let date := Date_of_string dateInput in
  match getTime date with
  | None => Ok (RawString "")
  | Some _ => toISOString (setUTCMinutes000 date)
  end.

(** The comparator of the sort in [generatePriceFromWeather], by the sign
    of [new Date(a.time).getTime() - new Date(b.time).getTime()]. *)
Definition byTime (a b : FmiDataPoint) : comparison :=
  match getTime (Date_of_string (time a)), getTime (Date_of_string (time b)) with
  | Some x, Some y => x ?= y
  | _, _ => Eq
  end.

(** The [forEach] that fills [marketPriceMap]. *)
Definition marketPriceStep (m : gmap jsstring float) (point : SpotPricePoint)
  : result (gmap jsstring float) :=
  hourIso ← toHourIso (spot_timestamp point);
  mret (if string_truthy hourIso && Js.Number_isFinite (price point)
        then <[hourIso := price point]> m
        else m).

Definition buildMarketPriceMap (spotPrices : list SpotPricePoint)
  : result (gmap jsstring float) :=
  foldM marketPriceStep ∅ spotPrices.

(** [historicalPairs]: [null] entries are [None] until the last filter. *)
Definition historicalEntry (marketPriceMap : gmap jsstring float)
  (obs : FmiDataPoint) : result (option HistoricalPair) :=
  ts ← toHourIso (time obs);
  mret (match marketPriceMap !! ts with
        | None => None
        | Some actual =>
            Some {| hp_timestamp := ts;
                    hp_temperature := fmi_temperature obs;
                    hp_price := actual |}
        end).

Definition buildHistoricalPairs (sortedWeather : list FmiDataPoint)
  (marketPriceMap : gmap jsstring float) : result (list HistoricalPair) :=
  entries ← mapM (historicalEntry marketPriceMap)
              (List.filter (fun obs => negb (isForecast obs)) sortedWeather);
  mret (omap (M:=list) id entries).

(** [buildHourlyProfile]; a property key is the hour, NaN included. *)
Definition groupStep (grouped : gmap (option Z) (list float))
  (point : HistoricalPair) : gmap (option Z) (list float) :=
  let hour := getUTCHours (Date_of_jsstring (hp_timestamp point)) in
  <[hour := default [] (grouped !! hour) ++ [hp_price point]]> grouped.

Definition buildHourlyProfile (pairs : list HistoricalPair) : gmap Z float :=
  let grouped := fold_left groupStep pairs ∅ in
  fold_left
    (fun profile hour =>
       <[hour := mean (default [] (grouped !! Some hour))]> profile)
    (map Z.of_nat (seq 0 24)) ∅.

(** [globalMean]. *)
Definition globalMeanOf (historicalPairs : list HistoricalPair) : float :=
  Js.or (mean (map hp_price historicalPairs)) 30.

(** What the [map] callback of [generatePriceFromWeather] closes over. *)
Record Fitted := {
  marketPriceMap : gmap jsstring float;
  globalMean : float;
  hourlyProfile : gmap Z float;
  avgDemand : float;
  tempBeta : float;
  weights : Weights
}.

(** [lagHistory] and [prevPrice], which the callback updates. *)
Record LagState := {
  lagHistory : gmap jsstring float;
  prevPrice : float
}.

(** [hourlyProfile[hour]] when it is finite and positive, else
    [globalMean]. *)
Definition hourMeanOf (env : Fitted) (hour : option Z) : float :=
  match hour ≫= fun h => hourlyProfile env !! h with
  | Some v =>
      if Js.Number_isFinite v && (0 <? v)%float then v else globalMean env
  | None => globalMean env
  end.

Definition predictedRawOf (env : Fitted) (lag1 lag24 hourMean centeredDemand : float)
  : float :=
  let w := weights env in
  (w_lag1 w * lag1 + w_lag24 w * lag24 + w_hour w * hourMean
   + w_mean w * globalMean env + w_temp w * tempBeta env * centeredDemand)%float.

(** [Math.max(-20, Math.min(450, predictedRaw))], then two decimals. *)
Definition clampPrice (predictedRaw : float) : float :=
  Js.toFixed2 (Js.Math_max (-20) (Js.Math_min 450 predictedRaw)).

(** The callback of [sortedWeather.map]. *)
Definition predictPoint (env : Fitted) (st : LagState) (obs : FmiDataPoint)
  : result (LagState * PriceData) :=
  hourIso ← toHourIso (time obs);
  let ts := if string_truthy hourIso then hourIso else RawString (time obs) in
  let date := Date_of_jsstring ts in
  let hour := getUTCHours date in
  let demand := heatingDemand comfortTemp (fmi_temperature obs) in
  let centeredDemand := (demand - avgDemand env)%float in
  prevHour ← toISOString (Date_of_time ((fun t => t - msPerHour) <$> getTime date));
  prev24Hour ← toISOString (Date_of_time ((fun t => t - 24 * msPerHour) <$> getTime date));
  let lag1 := default (prevPrice st) (lagHistory st !! prevHour) in
  let lag24 := default (globalMean env) (lagHistory st !! prev24Hour) in
  let hourMean := hourMeanOf env hour in
  let predictedRaw := predictedRawOf env lag1 lag24 hourMean centeredDemand in
  let predicted := clampPrice predictedRaw in
  let marketPrice := marketPriceMap env !! ts in
  let actual :=
    if negb (isForecast obs) then Js.toFixed2 <$> marketPrice else None in
  let realizedForLag := default predicted actual in
  mret ({| lagHistory := <[ts := realizedForLag]> (lagHistory st);
           prevPrice := realizedForLag |},
        {| timestamp := ts;
           actualPrice := actual;
           predictedPrice := predicted;
           temperature := fmi_temperature obs;
           isFuture := isForecast obs |}).

Definition sortedWeatherOf (weatherData : list FmiDataPoint) : list FmiDataPoint :=
  Array_sort byTime weatherData.

(** Everything [generatePriceFromWeather] computes before its final
    [map]. *)
Definition fit (weatherData : list FmiDataPoint)
  (spotPrices : list SpotPricePoint) (modelType : string) : result Fitted :=
  let sortedWeather := sortedWeatherOf weatherData in
  mpm ← buildMarketPriceMap spotPrices;
  historicalPairs ← buildHistoricalPairs sortedWeather mpm;
  mret {| marketPriceMap := mpm;
          globalMean := globalMeanOf historicalPairs;
          hourlyProfile := buildHourlyProfile historicalPairs;
          avgDemand :=
            mean (map (fun point => heatingDemand comfortTemp (hp_temperature point))
                    historicalPairs);
          tempBeta := estimateTemperatureBeta historicalPairs comfortTemp;
          weights := selectWeights modelType |}.

(** [generatePriceFromWeather]. *)
Definition generatePriceFromWeather (weatherData : list FmiDataPoint)
  (spotPrices : list SpotPricePoint) (modelType : string)
  : result (list PriceData) :=
  env ← fit weatherData spotPrices modelType;
  mapM_state (predictPoint env)
    {| lagHistory := ∅; prevPrice := globalMean env |}
    (sortedWeatherOf weatherData).

End Engine.

(** ** mlUtils.ts *)

(** [point.actualPrice !== undefined]. *)
Definition hasActual (point : PriceData) : bool :=
  match actualPrice point with
  | Some _ => true
  | None => false
  end.

(** [point.actualPrice as number]; [undefined] would be NaN in the sums,
    and the filter before it leaves none. *)
Definition actualOf (point : PriceData) : float := default nan (actualPrice point).

(** The three accumulators of [computeFoldMetrics]. *)
Record ErrorSums := {
  absoluteError : float;
  squaredError : float;
  totalVariance : float
}.

Definition errorStep (meanActual : float) (acc : ErrorSums) (pa : float * float)
  : ErrorSums :=
  let error := (pa.1 - pa.2)%float in
  let centered := (pa.2 - meanActual)%float in
  {| absoluteError := (absoluteError acc + abs error)%float;
     squaredError := (squaredError acc + error * error)%float;
     totalVariance := (totalVariance acc + centered * centered)%float |}.

Definition errorSums (valid : list PriceData) : ErrorSums :=
  let actuals := map actualOf valid in
  let predictions := map predictedPrice valid in
  let meanActual := (sum actuals / Js.of_nat (length actuals))%float in
  fold_left (errorStep meanActual) (combine predictions actuals)
    {| absoluteError := 0; squaredError := 0; totalVariance := 0 |}.

(** [computeFoldMetrics]. *)
Definition computeFoldMetrics (slice : list PriceData) : AggregateMetrics :=
  let valid := List.filter hasActual slice in
  match valid with
  | [] => {| mae := 0; rmse := 0; r2 := 0 |}
  | _ =>
      let s := errorSums valid in
      let n := Js.of_nat (length valid) in
      {| mae := (absoluteError s / n)%float;
         rmse := sqrt (squaredError s / n);
         r2 := if (totalVariance s =? 0)%float then 0%float
               else (1 - squaredError s / totalVariance s)%float |}
  end.

(** [arr.slice(start, end)] for indices that are natural numbers. *)
Definition slice {A : Type} (l : list A) (start stop : nat) : list A :=
  firstn (stop - start) (skipn start l).

(** [point.actualPrice !== undefined && !point.isFuture]. *)
Definition isHistorical (point : PriceData) : bool :=
  hasActual point && negb (isFuture point).

(** The body of the [for] loop of [performTimeSeriesCV]. *)
Definition cvFold (historical : list PriceData) (foldSize i : nat)
  : CrossValidationResult :=
  let totalSize := length historical in
  let trainEnd := (i * foldSize)%nat in
  let testEnd := Nat.min totalSize ((i + 1) * foldSize) in
  let testSlice := slice historical trainEnd testEnd in
  let m := computeFoldMetrics testSlice in
  {| fold := i;
     trainSize := trainEnd;
     testSize := length testSlice;
     cv_mae := Js.toFixed2 (mae m);
     cv_rmse := Js.toFixed2 (rmse m) |}.

(** [performTimeSeriesCV]. *)
Definition performTimeSeriesCV (data : list PriceData) : list CrossValidationResult :=
  let historical := List.filter isHistorical data in
  if (length historical <? 12)%nat then []
  else
    let folds := 4%nat in
    let totalSize := length historical in
    let foldSize := (totalSize / (folds + 1))%nat in
    if (foldSize <? 2)%nat then []
    else map (cvFold historical foldSize) (seq 1 folds).

(** [computeAggregateMetrics]. *)
Definition computeAggregateMetrics (data : list PriceData) : AggregateMetrics :=
  let historical := List.filter isHistorical data in
  let metrics := computeFoldMetrics historical in
  {| mae := Js.toFixed2 (mae metrics);
     rmse := Js.toFixed2 (rmse metrics);
     r2 := Js.toFixed2 (r2 metrics) |}.

(** [predictHorizon]. *)
Definition predictHorizon (currentPrice currentTemp : float) : float :=
  let heatingDemand := Js.Math_max 0 (15 - currentTemp) in
  Js.toFixed2 (currentPrice + heatingDemand * 0.35).

(** ** A [Date.parse] for the closed examples

    The two spellings [YYYY-MM-DDTHH:mm:ssZ] and [YYYY-MM-DDTHH:mm:ss.sssZ]
    of the ECMAScript date-time format, which every host reads alike; any
    other string is taken as unparsable. *)

Module IsoParse.

Definition digit (c : ascii) : option Z :=
  let n := Z.of_N (Ascii.N_of_ascii c) in
  if (48 <=? n) && (n <=? 57) then Some (n - 48) else None.

Fixpoint number (k : nat) (acc : Z) (l : list ascii) : option (Z * list ascii) :=
  match k with
  | O => Some (acc, l)
  | S k' =>
      match l with
      | c :: l' => d ← digit c; number k' (10 * acc + d) l'
      | [] => None
      end
  end.

Definition expect (c : ascii) (l : list ascii) : option (list ascii) :=
  match l with
  | c' :: l' => if decide (c = c') then Some l' else None
  | [] => None
  end.

Definition isLeap (y : Z) : bool :=
  ((y `mod` 4 =? 0) && negb (y `mod` 100 =? 0)) || (y `mod` 400 =? 0).

Definition daysInMonth (y m : Z) : Z :=
  if m =? 2 then (if isLeap y then 29 else 28)
  else if (m =? 4) || (m =? 6) || (m =? 9) || (m =? 11) then 30
  else 31.

(** Days from 1970-01-01 to the civil date [y-m-d]. *)
Definition daysFromCivil (y m d : Z) : Z :=
  let y' := if m <=? 2 then y - 1 else y in
  let era := y' `div` 400 in
  let yoe := y' - era * 400 in
  let mp := if 2 <? m then m - 3 else m + 9 in
  let doy := (153 * mp + 2) `div` 5 + d - 1 in
  let doe := yoe * 365 + yoe `div` 4 - yoe `div` 100 + doy in
  era * 146097 + doe - 719468.

Definition fraction (l : list ascii) : option (Z * list ascii) :=
  match l with
  | "."%char :: l' => number 3 0 l'
  | _ => Some (0, l)
  end.

Definition parse (s : string) : option Z :=
  '(y, l) ← number 4 0 (String.list_ascii_of_string s);
  l ← expect "-" l;
  '(mo, l) ← number 2 0 l;
  l ← expect "-" l;
  '(d, l) ← number 2 0 l;
  l ← expect "T" l;
  '(h, l) ← number 2 0 l;
  l ← expect ":" l;
  '(mi, l) ← number 2 0 l;
  l ← expect ":" l;
  '(sec, l) ← number 2 0 l;
  '(ms, l) ← fraction l;
  l ← expect "Z" l;
  match l with
  | [] =>
      if (1 <=? mo) && (mo <=? 12) && (1 <=? d) && (d <=? daysInMonth y mo)
         && (h <=? 23) && (mi <=? 59) && (sec <=? 59)
      then Some (daysFromCivil y mo d * 86400000
                 + h * 3600000 + mi * 60000 + sec * 1000 + ms)
      else None
  | _ => None
  end.

End IsoParse.

(** ** Definitions the statements use *)

(** The sums of the specification, each on its own. *)
Definition sumAbsoluteError (valid : list PriceData) : float :=
  sum (map (fun point => abs (predictedPrice point - actualOf point)) valid).

Definition sumSquaredError (valid : list PriceData) : float :=
  sum (map (fun point =>
              let error := (predictedPrice point - actualOf point)%float in
              (error * error)%float) valid).

Definition sumTotalVariance (valid : list PriceData) : float :=
  let meanActual := mean (map actualOf valid) in
  sum (map (fun point =>
              let centered := (actualOf point - meanActual)%float in
              (centered * centered)%float) valid).

(** [-20 <= d <= 450], as the engine's clamp compares. *)
Definition in_price_range (d : float) : bool := (-20 <=? d)%float && (d <=? 450)%float.

(** [f] holds on the [k] positives from [p] on. *)
Fixpoint all_from (f : positive -> bool) (k : nat) (p : positive) : bool :=
  match k with
  | O => true
  | S k' => f p && all_from f k' (Pos.succ p)
  end.

Section Keys.
Variable Date_parse : string -> option Z.

(** The time value of a sample, [None] when its [time] does not parse. *)
Definition timeValue (obs : FmiDataPoint) : option Z :=
  getTime (Date_of_string Date_parse (time obs)).

(** The start of the UTC hour a string falls in, [None] when it does not
    parse. *)
Definition hourOf (s : string) : option Z :=
  (fun t => msPerHour * (t `div` msPerHour)) <$> Date_of_string Date_parse s.

(** What [toHourIso] returns. *)
Definition hourKey (s : string) : jsstring :=
  match hourOf s with
  | Some h => IsoString h
  | None => RawString ""
  end.
(** [marketPriceMap], without the monad. *)
Definition marketPriceInsert (m : gmap jsstring float) (point : SpotPricePoint)
  : gmap jsstring float :=
  if string_truthy (hourKey (spot_timestamp point)) && Js.Number_isFinite (price point)
  then <[hourKey (spot_timestamp point) := price point]> m
  else m.

(** [historicalPairs], without the monad. *)
Definition historicalEntryOf (mpm : gmap jsstring float) (obs : FmiDataPoint)
  : option HistoricalPair :=
  (fun actual => {| hp_timestamp := hourKey (time obs);
                    hp_temperature := fmi_temperature obs;
                    hp_price := actual |}) <$> mpm !! hourKey (time obs).

(** The samples the [map] callback of the engine gets through: the time
    parses, and a day before the top of its hour is still a time value. *)
Definition predictable (obs : FmiDataPoint) : Prop :=
  match hourOf (time obs) with
  | Some h => - maxTimeValue <= h - 24 * msPerHour
  | None => False
  end.

End Keys.

(** ** Binary64 rounding, as a function of exact values

    What the proofs about [predictHorizon] and the metrics need of
    [SpecFloat]: the result of an operation is the binary64 number nearest
    to its exact value, and rounding keeps the order of the exact values. *)

(** Where [r / b] lies in the unit interval, for [0 <= r < b]. *)
Definition loc_of (r b : Z) : location :=
  if r =? 0 then loc_Exact else loc_Inexact (2 * r ?= b).

(** [m] and [l] are the integer part of [a / b] and the place of its
    fraction. *)
Definition represents (m : Z) (l : location) (a b : Z) : Prop :=
  0 < b /\ 0 <= a /\ m = a `div` b /\ l = loc_of (a `mod` b) b.

(** The integer nearest to [a / b], the even one on a tie. *)
Definition RNE (a b : Z) : Z :=
  match 2 * (a `mod` b) ?= b with
  | Lt => a `div` b
  | Eq => if Z.even (a `div` b) then a `div` b else a `div` b + 1
  | Gt => a `div` b + 1
  end.

(** Exact values are counted in units of [2^e0], below every exponent the
    operations meet. *)
Definition e0 : Z := -2200.

(** The end of [binary_round_aux], after [round_nearest_even]. *)
Definition finish (s : bool) (m E : Z) : spec_float :=
  let '(mrs, e) := shr_fexp prec emax m E loc_Exact in
  match shr_m mrs with
  | Z0 => S754_zero s
  | Z.pos p => if e <=? emax - prec then S754_finite s p e else S754_infinity s
  | Z.neg _ => S754_nan
  end.

(** What [finish] returns on a rounded mantissa [0 <= m <= 2^53] at the
    exponent [E] of its binade. *)
Definition pack (s : bool) (m E : Z) : spec_float :=
  match m with
  | Z0 => S754_zero s
  | Z.pos p =>
      if m =? 2 ^ 53
      then (if E + 1 <=? 971 then S754_finite s (2 ^ 52)%positive (E + 1)
            else S754_infinity s)
      else if E <=? 971 then S754_finite s p E else S754_infinity s
  | Z.neg _ => S754_nan
  end.

(** A rounded mantissa and its exponent: below [2^52] only at the least
    exponent. *)
Definition good (m E : Z) : Prop :=
  -1074 <= E /\ 0 <= m <= 2 ^ 53 /\ (m < 2 ^ 52 -> E = -1074).

(** The binary64 number nearest to [(A / B) * 2^e0], with sign [s]. *)
Definition RS (s : bool) (A B : Z) : spec_float :=
  let E := fexp prec emax (Zdigits2 (A `div` B) + e0) in
  pack s (RNE A (B * 2 ^ (E - e0))) E.

(** The rounded value of a signed integer count of units. *)
Definition RSZ (A B : Z) : spec_float :=
  match A with
  | Z0 => S754_zero false
  | Z.pos _ => RS false A B
  | Z.neg _ => RS true (- A) B
  end.

(** The results of [RS false] are not negative, those of [RS true] not
    positive. *)
Definition nonneg (f : spec_float) : bool :=
  match f with
  | S754_zero _ | S754_finite false _ _ | S754_infinity false => true
  | _ => false
  end.

(** The exact value of a finite number, in units of [2^e0]. *)
Definition Vz (f : spec_float) : Z :=
  match f with
  | S754_finite s m e => cond_Zopp s (Z.pos m * 2 ^ (e - e0))
  | _ => 0
  end.

(** [Number.isFinite], on the unpacked number. *)
Definition finite_or_zero (f : spec_float) : bool :=
  match f with
  | S754_zero _ | S754_finite _ _ _ => true
  | _ => false
  end.

(** A value above every finite one, for the infinities. *)
Definition top : Z := 2 ^ (1024 - e0).

(** The value of a number that is not NaN, the infinities beyond every
    finite value. *)
Definition Vx (f : spec_float) : Z :=
  match f with
  | S754_infinity false => top
  | S754_infinity true => - top
  | _ => Vz f
  end.

(** Not NaN, on the unpacked number. *)
Definition not_nan (f : spec_float) : bool :=
  match f with S754_nan => false | _ => true end.

(** The value of a JavaScript number. *)
Definition val (x : float) : Z := Vx (Prim2SF x).

(** The number [1], in units. *)
Definition units : Z := 2 ^ (- e0).

(** The value [V] rounded to two decimals, half away from zero, times
    [100]: what [toFixed(2)] writes, as a count of units. *)
Definition toFixed_units (V : Z) : Z :=
  Z.sgn V * ((200 * Z.abs V + units) `div` (2 * units)) * units.

(** ** What the statements about the engine name *)

Section Marks.
Variable Date_parse : string -> option Z.

(** A spot entry that [marketPriceMap] keeps under the hour [h]. *)
Definition spotInHour (h : Z) (point : SpotPricePoint) : bool :=
  bool_decide (hourOf Date_parse (spot_timestamp point) = Some h)
  && Js.Number_isFinite (price point).

(** A historical pair whose timestamp falls in the UTC hour [h] of the
    day. *)
Definition pairInHour (h : Z) (point : HistoricalPair) : bool :=
  bool_decide (getUTCHours (Date_of_jsstring Date_parse (hp_timestamp point)) = Some h).

(** The record of a sample when nothing is known of the market. *)
Definition flatRecord (obs : FmiDataPoint) : PriceData :=
  {| timestamp := hourKey Date_parse (time obs);
     actualPrice := None;
     predictedPrice := 30;
     temperature := fmi_temperature obs;
     isFuture := isForecast obs |}.

End Marks.

(** The largest finite number, [Number.MAX_VALUE]. *)
Definition MAX_VALUE : float := 0x1.fffffffffffffp+1023.

(** ** priceService.ts *)

(** A value as [response.json()] leaves it at [entry.price].  The
    interface declares a number; the service reads whatever is there
    through [Number].  An array or an object is first turned into a
    primitive by its own methods: [VObject r] stands for one on which
    [Number] comes to [r], a number or the exception raised. *)
Inductive JsValue :=
| VUndefined
| VNull
| VBoolean (b : bool)
| VNumber (x : float)
| VString (s : string)
| VObject (toNumber : result float).

(** An entry of [LatestPricesResponse.prices]; a missing [price] is
    [VUndefined]. *)
Record LatestPrice := {
  lp_price : JsValue;
  startDate : string;
  endDate : string
}.

(** What [fetch] and [response.json()] came to: a failure (a rejected
    request, a status that is not ok, a body that is no JSON), or the
    payload with its optional [prices]. *)
Inductive Fetched :=
| FetchFailed
| Payload (prices : option (list LatestPrice)).

Section PriceService.
Variable Date_parse : string -> option Z.

(** The text [Date.prototype.toISOString] writes for a time value. *)
Variable Date_text : Z -> string.

(** The number the host reads a string as ([StringToNumber]), NaN when
    it reads none. *)
Variable StringToNumber : string -> float.

(** A string the code made, as text. *)
Definition text_of (k : jsstring) : string :=
  match k with
  | IsoString t => Date_text t
  | RawString s => s
  end.

(** [new Date(timestamp).getTime() > now], false on NaN. *)
Definition isAfter (now : Z) (timestamp : string) : bool :=
  match getTime (Date_of_string Date_parse timestamp) with
  | Some t => bool_decide (now < t)
  | None => false
  end.

(** [Number(value)]: the host's [ToNumber], by the type of the value. *)
Definition Number (value : JsValue) : result float :=
  match value with
  | VUndefined => Ok nan
  | VNull => Ok 0%float
  | VBoolean b => Ok (if b then 1%float else 0%float)
  | VNumber x => Ok x
  | VString s => Ok (StringToNumber s)
  | VObject toNumber => toNumber
  end.

(** The callback of [prices.map]; [null] is [None]. *)
Definition spotPointOf (now : Z) (entry : LatestPrice)
  : result (option SpotPricePoint) :=
  timestamp ← toHourIso Date_parse (startDate entry);
  price ← Number (lp_price entry);
  mret (if negb (string_truthy timestamp) || negb (Js.Number_isFinite price) then None
        else Some {| spot_timestamp := text_of timestamp;
                     price := price;
                     spot_isFuture := isAfter now (text_of timestamp) |}).

(** The comparator of the sort, by the sign of
    [new Date(a.timestamp).getTime() - new Date(b.timestamp).getTime()]. *)
Definition byTimestamp (a b : SpotPricePoint) : comparison :=
  match getTime (Date_of_string Date_parse (spot_timestamp a)),
        getTime (Date_of_string Date_parse (spot_timestamp b)) with
  | Some x, Some y => x ?= y
  | _, _ => Eq
  end.

(** [fetchFinlandSpotPriceTimeline], as a function of what was fetched
    and of [Date.now()]; the [catch] turns every failure into [[]]. *)
Definition fetchFinlandSpotPriceTimeline (fetched : Fetched) (now : Z)
  : list SpotPricePoint :=
  match fetched with
  | FetchFailed => []
  | Payload prices =>
      match
        entries ← mapM (spotPointOf now) (default [] prices);
        mret (Array_sort byTimestamp (omap (M:=list) id entries))
      with
      | Ok points => points
      | Throw _ => []
      end
  end.

(** The entry as the engine would read it, had it been passed on with
    its [startDate] and with its price as a number. *)
Definition rawSpot (entry : LatestPrice) : result SpotPricePoint :=
  price ← Number (lp_price entry);
  mret {| spot_timestamp := startDate entry; price := price; spot_isFuture := false |}.

(** [Date.parse] reads the text of [t] back. *)
Definition reads_back (t : Z) : Prop := Date_parse (Date_text t) = Some t.

End PriceService.

(** [StringToNumber] on the strings of the examples: the empty string is
    [0], and one to fifteen decimal digits are the integer they write,
    which binary64 holds exactly.  The host reads more strings as
    numbers (a sign, a fraction, an exponent, blanks around them); they
    are NaN here, and none occurs in an example. *)
Module NumberText.

Fixpoint digits (acc : Z) (l : list ascii) : option Z :=
  match l with
  | [] => Some acc
  | c :: l' => d ← IsoParse.digit c; digits (10 * acc + d) l'
  end.

Definition parse (s : string) : float :=
  let l := String.list_ascii_of_string s in
  if (length l <=? 15)%nat
  then match digits 0 l with
       | Some n => Js.of_nat (Z.to_nat n)
       | None => nan
       end
  else nan.

End NumberText.


(** ** A [toISOString] for the closed examples

    The text ECMAScript prescribes for a time value:
    [YYYY-MM-DDTHH:mm:ss.sssZ], and the year as a sign and six digits
    outside of 0..9999. *)

Module IsoText.

(** The [k] decimal digits of [n], most significant first. *)
Fixpoint digits (k : nat) (n : Z) (acc : string) : string :=
  match k with
  | O => acc
  | S k' =>
      digits k' (n `div` 10)
        (String (Ascii.ascii_of_N (Z.to_N (48 + n `mod` 10))) acc)
  end.

(** The civil date of a day number, days counted from 1970-01-01. *)
Definition civilFromDays (z : Z) : Z * Z * Z :=
  let z := z + 719468 in
  let era := z `div` 146097 in
  let doe := z - era * 146097 in
  let yoe := (doe - doe `div` 1460 + doe `div` 36524 - doe `div` 146096) `div` 365 in
  let doy := doe - (365 * yoe + yoe `div` 4 - yoe `div` 100) in
  let mp := (5 * doy + 2) `div` 153 in
  let d := doy - (153 * mp + 2) `div` 5 + 1 in
  let m := if mp <? 10 then mp + 3 else mp - 9 in
  let y := yoe + era * 400 in
  (if m <=? 2 then y + 1 else y, m, d).

Definition year (y : Z) : string :=
  if ((0 <=? y)%Z && (y <=? 9999)%Z)%bool then digits 4 y ""
  else ((if (y <? 0)%Z then "-" else "+") +:+ digits 6 (Z.abs y) "")%string.

Definition text (t : Z) : string :=
  let '(y, m, d) := civilFromDays (t `div` 86400000) in
  let ms := t `mod` 86400000 in
  (year y +:+ "-" +:+ digits 2 m "" +:+ "-" +:+ digits 2 d ""
   +:+ "T" +:+ digits 2 (ms `div` 3600000) ""
   +:+ ":" +:+ digits 2 ((ms `div` 60000) `mod` 60) ""
   +:+ ":" +:+ digits 2 ((ms `div` 1000) `mod` 60) ""
   +:+ "." +:+ digits 3 (ms `mod` 1000) "" +:+ "Z")%string.

End IsoText.

(** ** fmiService.ts *)

(** [s.split('.')[0]]: what comes before the first dot. *)
Fixpoint beforeDot (s : string) : string :=
  match s with
  | EmptyString => EmptyString
  | String c s' => if decide (c = "."%char) then EmptyString else String c (beforeDot s')
  end.

Section FmiService.

(** The text [Date.prototype.toISOString] writes for a time value. *)
Variable Date_text : Z -> string.

(** [date.toISOString()], as text; it raises on the invalid date. *)
Definition toISOString_text (d : Date) : result string :=
  match d with
  | Some t => Ok (Date_text t)
  | None => Throw RangeError
  end.

(** [formatFmiDate]. *)
Definition formatFmiDate (date : Date) : result string :=
  iso ← toISOString_text date;
  mret (beforeDot iso +:+ "Z")%string.

End FmiService.

(** The first and the last millisecond of the years 0000 to 9999, whose
    ISO text has a year of four digits. *)
Definition year0 : Z := -62167219200000.
Definition year9999 : Z := 253402300799999.

(** The calendar of a day of the 400 years from 0000-03-01 on, checked:
    the civil date is a date of the Gregorian calendar, it counts back to
    the day, and its year is 400 from 0400-01-01 on. *)
Definition day_ok (z : Z) : bool :=
  let '(y, m, d) := IsoText.civilFromDays z in
  (IsoParse.daysFromCivil y m d =? z) && (1 <=? m) && (m <=? 12)
  && (1 <=? d) && (d <=? IsoParse.daysInMonth y m) && (0 <=? y) && (y <=? 400)
  && (if z <=? -573432 then y <=? 399 else y =? 400).

(** [f] holds on the [n] days from [z] on. *)
Fixpoint days_from (f : Z -> bool) (n : nat) (z : Z) : bool :=
  match n with
  | O => true
  | S n' => f z && days_from f n' (z + 1)
  end.

(** ** Dashboard.tsx *)

(** The width, in percent, of the bar of a fold in the cross-validation
    card: [Math.max(30, 100 - fold.mae * 5)]. *)
Definition foldBarWidth (fold : CrossValidationResult) : float :=
  Js.Math_max 30 (100 - cv_mae fold * 5).

Section Fallback.

(** The text [Date.prototype.toISOString] writes for a time value. *)
Variable Date_text : Z -> string.

(** [Math.random()], one draw for each index. *)
Variable random : nat -> float.

(** The weather the dashboard makes up when FMI returns nothing: sample
    [i] of 48, an hour apart, from 24 hours before [Date.now()] on.  The
    clock is read anew for each sample: [now i] is its reading for sample
    [i]. *)
Definition fallbackSample (now : nat -> Z) (i : nat) : result FmiDataPoint :=
  iso ← toISOString_text Date_text
          (Date_of_time (Some (now i - (24 - Z.of_nat i) * 3600000)));
  mret {| time := iso;
          fmi_temperature := 2 + random i * 8;
          isForecast := bool_decide (24 <= i)%nat |}.

Definition fallbackWeather (now : nat -> Z) : result (list FmiDataPoint) :=
  mapM (fallbackSample now) (seq 0 48).

End Fallback.

(** ** Inputs of the closed examples *)

(** A scored historical point at hour [i] of 2024-01-01. *)
Definition scoredPoint (actual predicted : float) (i : nat) : PriceData :=
  {| timestamp := IsoString (1704067200000 + Z.of_nat i * msPerHour);
     actualPrice := Some actual;
     predictedPrice := predicted;
     temperature := 5;
     isFuture := false |}.

(** Twelve scored historical points. *)
Definition series12 : list PriceData :=
  map (fun i => scoredPoint (Js.of_nat i) 10 i) (seq 0 12).

Definition sampleAt (t : string) (temp : float) (forecast : bool) : FmiDataPoint :=
  {| time := t; fmi_temperature := temp; isForecast := forecast |}.

Definition spotAt (t : string) (p : float) : SpotPricePoint :=
  {| spot_timestamp := t; price := p; spot_isFuture := false |}.

(** Two observed hours and a forecast hour, given out of order, with the
    spot prices of the two observed hours. *)
Definition demoWeather : list FmiDataPoint :=
  [sampleAt "2024-01-01T02:00:00Z" 1 true;
   sampleAt "2024-01-01T00:00:00Z" 5 false;
   sampleAt "2024-01-01T01:00:00Z" 3 false].

Definition demoSpots : list SpotPricePoint :=
  [spotAt "2024-01-01T00:00:00.000Z" 42.123;
   spotAt "2024-01-01T01:00:00.000Z" 50].

Definition demoOutput : list PriceData :=
  [{| timestamp := IsoString 1704067200000; actualPrice := Some 42.12%float;
      predictedPrice := 40.43; temperature := 5; isFuture := false |};
   {| timestamp := IsoString 1704070800000; actualPrice := Some 50%float;
      predictedPrice := 49.33; temperature := 3; isFuture := false |};
   {| timestamp := IsoString 1704074400000; actualPrice := None;
      predictedPrice := 62.01; temperature := 1; isFuture := true |}].

(** One observed hour whose spot price is zero. *)
Definition zeroPriceWeather : list FmiDataPoint :=
  [sampleAt "2024-01-01T00:00:00Z" 5 false].


(** Two samples with the same time and different temperatures. *)
Definition tiedWeather : list FmiDataPoint :=
  [sampleAt "2024-01-01T00:00:00Z" 5 false;
   sampleAt "2024-01-01T00:00:00Z" 7 false].
Definition tiedWeatherSwapped : list FmiDataPoint :=
  [sampleAt "2024-01-01T00:00:00Z" 7 false;
   sampleAt "2024-01-01T00:00:00Z" 5 false].

(** [demoWeather] in another order. *)
Definition demoWeatherShuffled : list FmiDataPoint :=
  [sampleAt "2024-01-01T00:00:00Z" 5 false;
   sampleAt "2024-01-01T01:00:00Z" 3 false;
   sampleAt "2024-01-01T02:00:00Z" 1 true].

(** One observed hour whose temperature is NaN. *)
Definition nanWeather : list FmiDataPoint :=
  [sampleAt "2024-01-01T00:00:00Z" nan false].

(** Two observed hours, finite temperatures, and spot prices whose sum
    overflows. *)
Definition hugeSpots : list SpotPricePoint :=
  [spotAt "2024-01-01T00:00:00Z" 1.7e308;
   spotAt "2024-01-01T01:00:00Z" 1.7e308].

(** Two scored points that are predicted exactly, and a forecast. *)
Definition exactSeries : list PriceData :=
  [scoredPoint 10 10 0; scoredPoint 20 20 1;
   {| timestamp := IsoString 1704074400000; actualPrice := None;
      predictedPrice := 62.01; temperature := 1; isFuture := true |}].

(** Two spot entries in the hour of [zeroPriceWeather]. *)
Definition repeatedSpots : list SpotPricePoint :=
  [spotAt "2024-01-01T00:15:00Z" 40; spotAt "2024-01-01T00:45:00Z" 44].

(** Six entries of the API, out of order: two hours with a number, an
    hour whose price is [null], an hour whose price is a string, an entry
    without a price and one without a date. *)
Definition latestPrices : list LatestPrice :=
  [{| lp_price := VNumber 50; startDate := "2024-01-01T01:00:00.000Z";
      endDate := "2024-01-01T02:00:00.000Z" |};
   {| lp_price := VNumber 42.123; startDate := "2024-01-01T00:30:00.000Z";
      endDate := "2024-01-01T01:00:00.000Z" |};
   {| lp_price := VNull; startDate := "2024-01-01T03:00:00.000Z";
      endDate := "2024-01-01T04:00:00.000Z" |};
   {| lp_price := VString "7"; startDate := "2024-01-01T04:00:00.000Z";
      endDate := "2024-01-01T05:00:00.000Z" |};
   {| lp_price := VUndefined; startDate := "2024-01-01T02:00:00.000Z";
      endDate := "2024-01-01T03:00:00.000Z" |};
   {| lp_price := VNumber 7; startDate := "soon"; endDate := "later" |}].

(** [latestPrices] and an entry whose price is an object that [Number]
    cannot turn into a primitive. *)
Definition brokenPrices : list LatestPrice :=
  latestPrices
  ++ [{| lp_price := VObject (Throw TypeError); startDate := "2024-01-01T05:00:00.000Z";
         endDate := "2024-01-01T06:00:00.000Z" |}].

(** The entries of [latestPrices] as the engine would read them. *)
Definition latestSpots : list SpotPricePoint :=
  [spotAt "2024-01-01T01:00:00.000Z" 50;
   spotAt "2024-01-01T00:30:00.000Z" 42.123;
   spotAt "2024-01-01T03:00:00.000Z" 0;
   spotAt "2024-01-01T04:00:00.000Z" 7;
   spotAt "2024-01-01T02:00:00.000Z" nan;
   spotAt "soon" 7].

(** Three scored points whose R² has more than two decimals. *)
Definition roundedSeries : list PriceData :=
  [scoredPoint 10 11 0; scoredPoint 20 19 1; scoredPoint 30 33 2].

(** Two scored points that are predicted exactly, one of them at an
    infinite price. *)
Definition infiniteSeries : list PriceData :=
  [scoredPoint infinity infinity 0; scoredPoint 20 20 1].

(** * Properties *)

(** ** Sanity checks of the number and date models *)

Example toFixed2_tie : Js.toFixed2 0.125%float = 0.13%float.
Proof. reflexivity. Qed.
Example toFixed2_1005 : Js.toFixed2 1.005%float = 1%float.
Proof. reflexivity. Qed.
Example toFixed2_neg : Js.toFixed2 (-0.001)%float = neg_zero.
Proof. reflexivity. Qed.
Example toFixed2_big : Js.toFixed2 1e22%float = 1e22%float.
Proof. reflexivity. Qed.
Example toFixed2_third : Js.toFixed2 (1 / 3)%float = 0.33%float.
Proof. reflexivity. Qed.
Example of_nat_5 : Js.of_nat 5 = 5%float.
Proof. reflexivity. Qed.
Example parse_2024 : IsoParse.parse "2024-01-01T00:00:00.000Z" = Some 1704067200000.
Proof. reflexivity. Qed.
Example parse_epoch : IsoParse.parse "1970-01-01T00:00:00Z" = Some 0.
Proof. reflexivity. Qed.
Example parse_leap : IsoParse.parse "2024-02-29T13:45:10.250Z" = Some 1709214310250.
Proof. reflexivity. Qed.
Example parse_garbage : IsoParse.parse "not-a-date" = None.
Proof. reflexivity. Qed.

(** ** The [result] monad *)

Lemma bind_Ok {A B : Type} (f : A -> result B) (a : A) : (Ok a ≫= f) = f a.
Proof. reflexivity. Qed.

Lemma bind_Throw {A B : Type} (f : A -> result B) (e : exn) :
  (Throw e ≫= f) = Throw e.
Proof. reflexivity. Qed.

Lemma bind_Ok_inv {A B : Type} (f : A -> result B) (c : result A) (b : B) :
  (c ≫= f) = Ok b -> exists a, c = Ok a /\ f a = Ok b.
Proof. destruct c as [a|e]; [eauto | discriminate]. Qed.

(** ** Cross-validation folds *)

Lemma length_slice {A : Type} (l : list A) (a b : nat) :
  length (slice l a b) = Nat.min (b - a) (length l - a).
Proof. unfold slice. by rewrite length_firstn, length_skipn. Qed.

Lemma performTimeSeriesCV_short (data : list PriceData) :
  (length (List.filter isHistorical data) < 12)%nat ->
  performTimeSeriesCV data = [].
Proof.
  intros H. unfold performTimeSeriesCV.
  by apply Nat.ltb_lt in H as ->.
Qed.

Lemma performTimeSeriesCV_long (data : list PriceData) :
  (12 <= length (List.filter isHistorical data))%nat ->
  performTimeSeriesCV data =
  map (cvFold (List.filter isHistorical data)
         (length (List.filter isHistorical data) / 5)) [1; 2; 3; 4]%nat.
Proof.
  intros H. unfold performTimeSeriesCV.
  apply Nat.ltb_ge in H as Hlt. rewrite Hlt.
  change (4 + 1)%nat with 5%nat.
  assert (2 <= length (List.filter isHistorical data) / 5)%nat as Hfs
    by (apply (Nat.div_le_lower_bound _ 5 2); lia).
  apply Nat.ltb_ge in Hfs as ->. reflexivity.
Qed.

Lemma cvFold_sizes (historical : list PriceData) (i : nat) :
  (1 <= i <= 4)%nat ->
  let total := length historical in
  let foldSize := (total / 5)%nat in
  trainSize (cvFold historical foldSize i) = (i * foldSize)%nat /\
  testSize (cvFold historical foldSize i)
  = (Nat.min total ((i + 1) * foldSize) - i * foldSize)%nat /\
  testSize (cvFold historical foldSize i) = foldSize.
Proof.
  intros Hi total foldSize. unfold cvFold; cbn [trainSize testSize].
  rewrite length_slice. fold total.
  assert (5 * foldSize <= total)%nat by (apply Nat.Div0.mul_div_le).
  repeat split; nia.
Qed.

(** C9. [performTimeSeriesCV] returns no fold at all, or exactly the four
    folds numbered 1, 2, 3, 4 in that order; it never returns one, two or
    three folds. *)
Theorem performTimeSeriesCV_none_or_four (data : list PriceData) :
  performTimeSeriesCV data = [] \/
  (length (performTimeSeriesCV data) = 4%nat /\
   map fold (performTimeSeriesCV data) = [1; 2; 3; 4]%nat).
Proof.
  destruct (Nat.lt_ge_cases (length (List.filter isHistorical data)) 12) as [H|H].
  - left. by apply performTimeSeriesCV_short.
  - right. rewrite (performTimeSeriesCV_long data H). by split.
Qed.

(** C6, as the code has it.  With [total] the number of historical points
    with a defined [actualPrice] and [foldSize = floor(total / 5)]: fewer
    than 12 such points give no fold; otherwise fold [i] of 1..4 has
    [trainSize = i * foldSize] and
    [testSize = min(total, (i+1) * foldSize) - i * foldSize], which is
    [foldSize] for every fold, the last one included, because
    [5 * foldSize <= total]; so the train sizes grow, the test windows do
    not overlap, and the [total mod 5] points after the last window are in
    no fold. *)
Theorem performTimeSeriesCV_windows (data : list PriceData) :
  let total := length (List.filter isHistorical data) in
  let foldSize := (total / 5)%nat in
  ((total < 12)%nat -> performTimeSeriesCV data = []) /\
  ((12 <= total)%nat ->
   map (fun r => (fold r, trainSize r, testSize r)) (performTimeSeriesCV data)
   = map (fun i => (i, i * foldSize, Nat.min total ((i + 1) * foldSize) - i * foldSize)%nat)
       [1; 2; 3; 4]%nat /\
   Forall (fun r => testSize r = foldSize) (performTimeSeriesCV data) /\
   (forall r r', r ∈ performTimeSeriesCV data -> r' ∈ performTimeSeriesCV data ->
                 (fold r < fold r')%nat ->
                 (trainSize r <= trainSize r' /\
                  trainSize r + testSize r <= trainSize r')%nat) /\
   (forall r, r ∈ performTimeSeriesCV data ->
              (trainSize r + testSize r <= 5 * foldSize)%nat) /\
   (5 * foldSize <= total < 5 * foldSize + 5)%nat).
Proof.
  intros total foldSize. split; [apply performTimeSeriesCV_short|].
  intros Htotal. rewrite (performTimeSeriesCV_long data Htotal).
  fold total foldSize.
  assert (forall i, (1 <= i <= 4)%nat ->
            fold (cvFold (List.filter isHistorical data) foldSize i) = i /\
            trainSize (cvFold (List.filter isHistorical data) foldSize i)
            = (i * foldSize)%nat /\
            testSize (cvFold (List.filter isHistorical data) foldSize i)
            = (Nat.min total ((i + 1) * foldSize) - i * foldSize)%nat /\
            testSize (cvFold (List.filter isHistorical data) foldSize i) = foldSize)
    as Hfold.
  { intros i Hi. split; [reflexivity|].
    apply (cvFold_sizes (List.filter isHistorical data) i Hi). }
  pose proof (Hfold 1%nat ltac:(lia)) as (F1 & T1 & S1 & E1).
  pose proof (Hfold 2%nat ltac:(lia)) as (F2 & T2 & S2 & E2).
  pose proof (Hfold 3%nat ltac:(lia)) as (F3 & T3 & S3 & E3).
  pose proof (Hfold 4%nat ltac:(lia)) as (F4 & T4 & S4 & E4).
  assert (5 * foldSize <= total)%nat as Hle by apply Nat.Div0.mul_div_le.
  assert (total < 5 * foldSize + 5)%nat as Hlt.
  { pose proof (Nat.div_mod_eq total 5). pose proof (Nat.mod_upper_bound total 5).
    fold foldSize in H. lia. }
  repeat split.
  - cbn [map]. rewrite T1, T2, T3, T4. rewrite <- S1, <- S2, <- S3, <- S4.
    by rewrite F1, F2, F3, F4.
  - cbn [map]. by repeat constructor.
  - cbn [map] in *.
    repeat match goal with
           | H : _ ∈ _ :: _ |- _ => apply elem_of_cons in H as [-> | H]
           | H : _ ∈ [] |- _ => by apply elem_of_nil in H
           end; lia.
  - cbn [map] in *.
    repeat match goal with
           | H : _ ∈ _ :: _ |- _ => apply elem_of_cons in H as [-> | H]
           | H : _ ∈ [] |- _ => by apply elem_of_nil in H
           end; lia.
  - cbn [map]. intros r Hr.
    repeat match goal with
           | H : _ ∈ _ :: _ |- _ => apply elem_of_cons in H as [-> | H]
           | H : _ ∈ [] |- _ => by apply elem_of_nil in H
           end; lia.
  - exact Hle.
  - exact Hlt.
Qed.

(** C6 as stated fails on twelve scored points: the fourth fold trains on
    8 points and tests 2, so its window ends at point 10 and the last two
    points are left out instead of being absorbed. *)
Lemma performTimeSeriesCV_drops_remainder :
  length (List.filter isHistorical series12) = 12%nat /\
  map (fun r => (fold r, trainSize r, testSize r)) (performTimeSeriesCV series12)
  = [(1, 2, 2); (2, 4, 2); (3, 6, 2); (4, 8, 2)]%nat /\
  ~ (exists r, last (performTimeSeriesCV series12) = Some r /\
               (trainSize r + testSize r)%nat
               = length (List.filter isHistorical series12)).
Proof.
  split; [reflexivity|]. split; [reflexivity|].
  intros (r & Hlast & Hsum).
  rewrite (performTimeSeriesCV_long series12) in Hlast by (vm_compute; lia).
  cbn [map last] in Hlast. injection Hlast as <-.
  vm_compute in Hsum. discriminate.
Qed.

(** ** Binary64 facts, read off [SpecFloat] through [FloatAxioms] *)

Lemma Prim2SF_eq (x : float) (v : spec_float) :
  valid_binary v = true -> Prim2SF x = v -> x = SF2Prim v.
Proof. intros _ <-. by rewrite SF2Prim_Prim2SF. Qed.

Lemma is_nan_spec (x : float) :
  is_nan x = match Prim2SF x with S754_nan => true | _ => false end.
Proof.
  unfold is_nan. rewrite FloatAxioms.eqb_spec. unfold SFeqb.
  pose proof (Prim2SF_valid x) as Hv.
  destruct (Prim2SF x) as [[]|[]| |[] m e]; cbn; try reflexivity.
  - by rewrite Z.compare_refl, Pos.compare_cont_refl.
  - by rewrite Z.compare_refl, Pos.compare_cont_refl.
Qed.

Lemma is_infinity_spec (x : float) :
  is_infinity x = match Prim2SF x with S754_infinity _ => true | _ => false end.
Proof.
  unfold is_infinity. rewrite FloatAxioms.eqb_spec, abs_spec.
  change (Prim2SF infinity) with (S754_infinity false).
  by destruct (Prim2SF x) as [[]|[]| |[] m e].
Qed.

Lemma is_finite_spec (x : float) :
  is_finite x = match Prim2SF x with
                | S754_zero _ | S754_finite _ _ _ => true
                | _ => false
                end.
Proof.
  unfold is_finite. rewrite is_nan_spec, is_infinity_spec.
  by destruct (Prim2SF x).
Qed.

(** [x - x] is [+0] for a finite [x]. *)
Lemma sub_diag_finite (x : float) : is_finite x = true -> (x - x)%float = 0%float.
Proof.
  intros Hfin. apply Prim2SF_inj. rewrite sub_spec.
  rewrite is_finite_spec in Hfin.
  change (Prim2SF 0) with (S754_zero false).
  destruct (Prim2SF x) as [[]|[]| |s m e]; try discriminate; try reflexivity.
  unfold SF64sub, SFsub. by rewrite Z.sub_diag.
Qed.

(** [0 / v] is [+0] for a positive [v], infinite or not. *)
Lemma zero_div_pos (v : float) : (0 <? v)%float = true -> (0 / v)%float = 0%float.
Proof.
  intros Hpos. apply Prim2SF_inj. rewrite div_spec.
  rewrite FloatAxioms.ltb_spec in Hpos. revert Hpos.
  change (Prim2SF 0) with (S754_zero false).
  by destruct (Prim2SF v) as [[]|[]| |[] m e].
Qed.

Lemma pos_neq_zero (v : float) : (0 <? v)%float = true -> (v =? 0)%float = false.
Proof.
  rewrite FloatAxioms.ltb_spec, FloatAxioms.eqb_spec.
  change (Prim2SF 0) with (S754_zero false).
  by destruct (Prim2SF v) as [[]|[]| |[] m e].
Qed.

(** ** Fold metrics *)

Lemma errorStep_fold (meanActual : float) (valid : list PriceData) (acc : ErrorSums) :
  fold_left (errorStep meanActual)
    (combine (map predictedPrice valid) (map actualOf valid)) acc
  = {| absoluteError :=
         fold_left (fun a v => a + v)%float
           (map (fun point => abs (predictedPrice point - actualOf point)) valid)
           (absoluteError acc);
       squaredError :=
         fold_left (fun a v => a + v)%float
           (map (fun point =>
                   let error := (predictedPrice point - actualOf point)%float in
                   (error * error)%float) valid)
           (squaredError acc);
       totalVariance :=
         fold_left (fun a v => a + v)%float
           (map (fun point =>
                   let centered := (actualOf point - meanActual)%float in
                   (centered * centered)%float) valid)
           (totalVariance acc) |}.
Proof.
  revert acc. induction valid as [|point valid IH]; intros acc.
  - by destruct acc.
  - cbn [map combine fold_left]. by rewrite IH.
Qed.

(** The loop of [computeFoldMetrics] computes the three sums. *)
Lemma errorSums_sums (valid : list PriceData) :
  valid <> [] ->
  errorSums valid = {| absoluteError := sumAbsoluteError valid;
                       squaredError := sumSquaredError valid;
                       totalVariance := sumTotalVariance valid |}.
Proof.
  intros Hne. unfold errorSums. rewrite errorStep_fold.
  unfold sumAbsoluteError, sumSquaredError, sumTotalVariance, sum, mean.
  destruct valid as [|p valid]; [done|]. by rewrite length_map.
Qed.

Lemma sum_zeros_from (l : list float) (acc : float) :
  acc = 0%float -> Forall (fun v => v = 0%float) l ->
  fold_left (fun a v => a + v)%float l acc = 0%float.
Proof.
  intros -> H. induction H as [|v l -> _ IH]; [reflexivity|]. exact IH.
Qed.

(** With every prediction equal to a finite actual price, no squared
    error is left. *)
Lemma sumSquaredError_exact (valid : list PriceData) :
  Forall (fun point => is_finite (actualOf point) = true /\
                       predictedPrice point = actualOf point) valid ->
  sumSquaredError valid = 0%float.
Proof.
  intros H. unfold sumSquaredError, sum. apply sum_zeros_from; [reflexivity|].
  apply Forall_map. eapply Forall_impl; [exact H|].
  intros point [Hfin ->]. cbn. by rewrite sub_diag_finite.
Qed.


(** ** The engine: what can raise and what cannot *)

Section EngineFacts.
Variable Date_parse : string -> option Z.

Local Abbreviation toHourIso := (toHourIso Date_parse).
Local Abbreviation hourKey := (hourKey Date_parse).
Local Abbreviation hourOf := (hourOf Date_parse).
Local Abbreviation timeValue := (timeValue Date_parse).
Local Abbreviation marketPriceInsert := (marketPriceInsert Date_parse).
Local Abbreviation historicalEntryOf := (historicalEntryOf Date_parse).

Lemma TimeClip_Some (t u : Z) : TimeClip t = Some u -> u = t /\ Z.abs t <= maxTimeValue.
Proof.
  unfold TimeClip. destruct (Z.leb_spec (Z.abs t) maxTimeValue); [|done].
  intros [= <-]. done.
Qed.

Lemma TimeClip_in_range (t : Z) : Z.abs t <= maxTimeValue -> TimeClip t = Some t.
Proof. unfold TimeClip. by intros ->%Z.leb_le. Qed.

(** The top of the hour of a time value in range is in range:
    [-maxTimeValue] is itself the top of an hour. *)
Lemma hour_floor_in_range (t : Z) :
  Z.abs t <= maxTimeValue ->
  Z.abs (msPerHour * (t `div` msPerHour)) <= maxTimeValue.
Proof.
  unfold msPerHour, maxTimeValue. intros H.
  change (60 * 60 * 1000) with 3600000.
  pose proof (Z.div_mod t 3600000 ltac:(lia)).
  pose proof (Z.mod_pos_bound t 3600000 ltac:(lia)).
  assert (-2400000000 <= t `div` 3600000) by (apply Z.div_le_lower_bound; lia).
  lia.
Qed.

Lemma Date_of_string_Some (s : string) (t : Z) :
  Date_of_string Date_parse s = Some t -> Z.abs t <= maxTimeValue.
Proof.
  unfold Date_of_string. destruct (Date_parse s) as [u|]; [|done]. cbn.
  by intros [-> ?]%TimeClip_Some.
Qed.

(** [toHourIso] never raises. *)
Lemma toHourIso_Ok (s : string) : toHourIso s = Ok (hourKey s).
Proof.
  unfold toHourIso, hourKey, hourOf, getTime, setUTCMinutes000.
  destruct (Date_of_string Date_parse s) as [t|] eqn:Hd; [|done]. cbn.
  apply Date_of_string_Some in Hd.
  by rewrite (TimeClip_in_range _ (hour_floor_in_range t Hd)).
Qed.

Lemma hourKey_truthy (s : string) :
  string_truthy (hourKey s) = match hourOf s with Some _ => true | None => false end.
Proof. unfold hourKey. by destruct (hourOf s). Qed.

Lemma hourOf_timeValue (obs : FmiDataPoint) :
  hourOf (time obs) = (fun t => msPerHour * (t `div` msPerHour)) <$> timeValue obs.
Proof. reflexivity. Qed.

Lemma hourOf_in_range (s : string) (h : Z) :
  hourOf s = Some h -> TimeClip h = Some h.
Proof.
  unfold hourOf. destruct (Date_of_string Date_parse s) as [t|] eqn:Hd; [|done].
  intros [= <-]. apply TimeClip_in_range, hour_floor_in_range.
  by apply Date_of_string_Some in Hd.
Qed.

(** [foldM], [mapM] with steps that never raise. *)
Lemma foldM_Ok {S A : Type} (f : S -> A -> result S) (g : S -> A -> S)
  (s : S) (l : list A) :
  (forall s a, f s a = Ok (g s a)) -> foldM f s l = Ok (fold_left g l s).
Proof.
  intros Hf. revert s. induction l as [|a l IH]; intros s; [done|].
  cbn. rewrite Hf. cbn. apply IH.
Qed.

Lemma mapM_Ok {A B : Type} (f : A -> result B) (g : A -> B) (l : list A) :
  (forall a, f a = Ok (g a)) -> mapM f l = Ok (map g l).
Proof.
  intros Hf. induction l as [|a l IH]; [done|].
  cbn. rewrite Hf, IH. done.
Qed.

Lemma buildMarketPriceMap_Ok (spotPrices : list SpotPricePoint) :
  buildMarketPriceMap Date_parse spotPrices
  = Ok (fold_left marketPriceInsert spotPrices ∅).
Proof.
  apply foldM_Ok. intros m point. unfold marketPriceStep.
  by rewrite toHourIso_Ok.
Qed.

Lemma buildHistoricalPairs_Ok (sortedWeather : list FmiDataPoint)
  (mpm : gmap jsstring float) :
  buildHistoricalPairs Date_parse sortedWeather mpm
  = Ok (omap (historicalEntryOf mpm)
          (List.filter (fun obs => negb (isForecast obs)) sortedWeather)).
Proof.
  unfold buildHistoricalPairs.
  rewrite (mapM_Ok _ (historicalEntryOf mpm)).
  - cbn. f_equal.
    induction (List.filter _ sortedWeather) as [|a l IH]; [done|].
    cbn. rewrite IH. done.
  - intros obs. unfold historicalEntry, historicalEntryOf.
    rewrite toHourIso_Ok. cbn. by destruct (mpm !! _).
Qed.

(** The part of [generatePriceFromWeather] before its [map] never
    raises. *)
Lemma fit_Ok (weatherData : list FmiDataPoint) (spotPrices : list SpotPricePoint)
  (modelType : string) :
  exists env, fit Date_parse weatherData spotPrices modelType = Ok env /\
    marketPriceMap env = fold_left marketPriceInsert spotPrices ∅ /\
    globalMean env
    = globalMeanOf
        (omap (historicalEntryOf (fold_left marketPriceInsert spotPrices ∅))
           (List.filter (fun obs => negb (isForecast obs))
              (sortedWeatherOf Date_parse weatherData))) /\
    weights env = selectWeights modelType.
Proof.
  unfold fit. rewrite buildMarketPriceMap_Ok. cbn.
  rewrite buildHistoricalPairs_Ok. cbn. eexists. split; [reflexivity|]. done.
Qed.

End EngineFacts.

Section EngineLoop.
Variable Date_parse : string -> option Z.


Lemma mapM_state_Forall2 {S A B : Type} (f : S -> A -> result (S * B))
  (P : A -> B -> Prop) (l : list A) :
  (forall s a s' b, f s a = Ok (s', b) -> P a b) ->
  forall s out, mapM_state f s l = Ok out -> Forall2 P l out.
Proof.
  intros Hf. induction l as [|a l IH]; intros s out.
  - intros [= <-]. constructor.
  - cbn. destruct (f s a) as [[s' b]|e] eqn:Hstep; [|done]. cbn.
    destruct (mapM_state f s' l) as [bs|e] eqn:Hrest; [|done]. cbn.
    intros [= <-]. constructor; eauto.
Qed.

Lemma mapM_state_Throw {S A B : Type} (f : S -> A -> result (S * B))
  (l : list A) (a : A) :
  a ∈ l -> (forall s, f s a = Throw RangeError) ->
  (forall s x e, f s x = Throw e -> e = RangeError) ->
  forall s, mapM_state f s l = Throw RangeError.
Proof.
  intros Hin Hthrow Honly. induction l as [|x l IH]; intros s.
  - by apply elem_of_nil in Hin.
  - cbn. apply elem_of_cons in Hin as [<- | Hin].
    + by rewrite Hthrow.
    + destruct (f s x) as [[s' b]|e] eqn:Hx.
      * cbn. by rewrite IH.
      * by rewrite (Honly _ _ _ Hx).
Qed.

Lemma mapM_state_Ok {S A B : Type} (f : S -> A -> result (S * B)) (l : list A) :
  Forall (fun a => forall s, exists sb, f s a = Ok sb) l ->
  forall s, exists out, mapM_state f s l = Ok out.
Proof.
  induction 1 as [|a l Ha _ IH]; intros s; [by eexists|].
  cbn. destruct (Ha s) as [[s' b] ->]. cbn.
  destruct (IH s') as [bs ->]. by eexists.
Qed.

(** What one pass of the callback returns when it returns. *)
Lemma predictPoint_Ok (env : Fitted) (st st' : LagState) (obs : FmiDataPoint)
  (r : PriceData) :
  predictPoint Date_parse env st obs = Ok (st', r) ->
  exists h raw,
    hourOf Date_parse (time obs) = Some h /\
    timestamp r = IsoString h /\
    actualPrice r
    = (if isForecast obs then None
       else Js.toFixed2 <$> marketPriceMap env !! IsoString h) /\
    predictedPrice r = clampPrice raw /\
    temperature r = fmi_temperature obs /\
    isFuture r = isForecast obs.
Proof.
  unfold predictPoint. rewrite toHourIso_Ok. cbn.
  unfold hourKey. destruct (hourOf Date_parse (time obs)) as [h|] eqn:Hh.
  - cbn. rewrite (hourOf_in_range _ _ _ Hh). cbn.
    destruct (TimeClip (h - msPerHour)) as [h1|]; [|done]. cbn.
    destruct (TimeClip (h - 24 * msPerHour)) as [h24|]; [|done]. cbn.
    intros [= <- <-]. cbn. eexists h, _. repeat split.
    by destruct (isForecast obs).
  - cbn. unfold hourOf in Hh.
    destruct (Date_of_string Date_parse (time obs)); [done|]. done.
Qed.

(** The callback raises exactly on the samples that are not
    [predictable]. *)
Lemma predictPoint_predictable (env : Fitted) (st : LagState) (obs : FmiDataPoint) :
  predictable Date_parse obs -> exists sb, predictPoint Date_parse env st obs = Ok sb.
Proof.
  unfold predictable, predictPoint. rewrite toHourIso_Ok. cbn.
  unfold hourKey. destruct (hourOf Date_parse (time obs)) as [h|] eqn:Hh; [|done].
  intros Hlow. cbn. pose proof (hourOf_in_range _ _ _ Hh) as Hclip.
  rewrite Hclip. cbn. apply TimeClip_Some in Hclip as [_ Habs].
  assert (0 < msPerHour) by done.
  rewrite !TimeClip_in_range by lia. cbn. by eexists.
Qed.

Lemma predictPoint_Throw (env : Fitted) (st : LagState) (obs : FmiDataPoint) :
  ~ predictable Date_parse obs -> predictPoint Date_parse env st obs = Throw RangeError.
Proof.
  unfold predictable, predictPoint. rewrite toHourIso_Ok. cbn.
  unfold hourKey. destruct (hourOf Date_parse (time obs)) as [h|] eqn:Hh.
  - intros Hlow. cbn. pose proof (hourOf_in_range _ _ _ Hh) as Hclip.
    rewrite Hclip. cbn.
    destruct (TimeClip (h - msPerHour)) as [h1|] eqn:H1; [|done]. cbn.
    destruct (TimeClip (h - 24 * msPerHour)) as [h24|] eqn:H24; [|done].
    apply TimeClip_Some in H24 as [_ ?]. lia.
  - intros _. cbn. unfold hourOf in Hh.
    destruct (Date_of_string Date_parse (time obs)); [done|]. done.
Qed.

Lemma predictable_dec (obs : FmiDataPoint) : Decision (predictable Date_parse obs).
Proof.
  unfold predictable. destruct (hourOf Date_parse (time obs)); apply _.
Defined.

(** The callback raises nothing but a [RangeError]. *)
Lemma predictPoint_RangeError (env : Fitted) (st : LagState) (obs : FmiDataPoint)
  (e : exn) :
  predictPoint Date_parse env st obs = Throw e -> e = RangeError.
Proof.
  intros He. destruct (predictable_dec obs) as [Hobs|Hno].
  - destruct (predictPoint_predictable env st obs Hobs) as [sb Hsb]. congruence.
  - rewrite (predictPoint_Throw env st obs Hno) in He. congruence.
Qed.

(** The engine returns exactly when every sample is [predictable], and
    raises a [RangeError] otherwise. *)
Lemma generatePriceFromWeather_Ok_iff (weatherData : list FmiDataPoint)
  (spotPrices : list SpotPricePoint) (modelType : string) :
  (exists out, generatePriceFromWeather Date_parse weatherData spotPrices modelType
               = Ok out)
  <-> Forall (predictable Date_parse) (sortedWeatherOf Date_parse weatherData).
Proof.
  unfold generatePriceFromWeather.
  destruct (fit_Ok Date_parse weatherData spotPrices modelType) as (env & -> & _).
  cbn. split.
  - intros [out Hout]. apply Forall_forall. intros obs Hin.
    destruct (predictable_dec obs) as [|Hno]; [done|].
    rewrite (mapM_state_Throw _ _ obs) in Hout; [done|done| |].
    + intros s. by apply predictPoint_Throw.
    + intros s x e. apply predictPoint_RangeError.
  - intros Hall. apply mapM_state_Ok.
    eapply Forall_impl; [exact Hall|]. intros obs Hobs s.
    by apply predictPoint_predictable.
Qed.

Lemma generatePriceFromWeather_Throw (weatherData : list FmiDataPoint)
  (spotPrices : list SpotPricePoint) (modelType : string) (obs : FmiDataPoint) :
  obs ∈ sortedWeatherOf Date_parse weatherData -> ~ predictable Date_parse obs ->
  generatePriceFromWeather Date_parse weatherData spotPrices modelType
  = Throw RangeError.
Proof.
  intros Hin Hno. unfold generatePriceFromWeather.
  destruct (fit_Ok Date_parse weatherData spotPrices modelType) as (env & -> & _).
  cbn. apply (mapM_state_Throw _ _ obs); [done| |].
  - intros s. by apply predictPoint_Throw.
  - intros s x e. apply predictPoint_RangeError.
Qed.

(** One output record per sample of the sorted input, each with the
    shape [predictPoint_Ok] gives. *)
Lemma generatePriceFromWeather_records (weatherData : list FmiDataPoint)
  (spotPrices : list SpotPricePoint) (modelType : string) (out : list PriceData) :
  generatePriceFromWeather Date_parse weatherData spotPrices modelType = Ok out ->
  Forall2
    (fun obs r =>
       exists h raw,
         hourOf Date_parse (time obs) = Some h /\
         timestamp r = IsoString h /\
         actualPrice r
         = (if isForecast obs then None
            else Js.toFixed2 <$>
                   fold_left (marketPriceInsert Date_parse) spotPrices ∅ !! IsoString h) /\
         predictedPrice r = clampPrice raw /\
         temperature r = fmi_temperature obs /\
         isFuture r = isForecast obs)
    (sortedWeatherOf Date_parse weatherData) out.
Proof.
  unfold generatePriceFromWeather.
  destruct (fit_Ok Date_parse weatherData spotPrices modelType)
    as (env & -> & Hmpm & _).
  cbn. rewrite <- Hmpm. apply mapM_state_Forall2.
  intros s a s' b. apply predictPoint_Ok.
Qed.

End EngineLoop.

(** ** The engine at concrete inputs *)

Example generatePriceFromWeather_demo :
  generatePriceFromWeather IsoParse.parse demoWeather demoSpots "Gradient Boosting"
  = Ok demoOutput.
Proof. reflexivity. Qed.

Example generatePriceFromWeather_empty :
  generatePriceFromWeather IsoParse.parse [] demoSpots "Random Forest" = Ok [].
Proof. reflexivity. Qed.

(** C1 fails on the code.  A sample whose [time] does not parse makes
    the engine raise a RangeError ([toISOString] of an invalid date, when it
    computes [prevHour]) where the claim promises a degenerate result and
    no exception. *)
Theorem generatePriceFromWeather_unparsable_time :
  generatePriceFromWeather IsoParse.parse [sampleAt "not-a-date" 5 false] []
    "Gradient Boosting"
  = Throw RangeError.
Proof. reflexivity. Qed.

(** The same on a time that parses but has no valid date a day before it:
    the first hour of the time-value range. *)
Example generatePriceFromWeather_first_hour :
  generatePriceFromWeather (fun _ => Some (- maxTimeValue))
    [sampleAt "-271821-04-20T00:00:00.000Z" 5 false] [] "Gradient Boosting"
  = Throw RangeError.
Proof. reflexivity. Qed.

(** C4 fails on the code.  ["toString"] is none of the three model names,
    yet [modelWeights["toString"]] is the function inherited from
    [Object.prototype]: it is truthy, so the fallback to Gradient Boosting is
    not taken, its weight fields are [undefined], and every predicted price
    is NaN, where the Gradient Boosting output has 30. *)
Theorem generatePriceFromWeather_inherited_key :
  generatePriceFromWeather IsoParse.parse
    [sampleAt "2024-01-01T00:00:00Z" 5 false] [] "toString"
  = Ok [{| timestamp := IsoString 1704067200000; actualPrice := None;
           predictedPrice := nan; temperature := 5; isFuture := false |}] /\
  generatePriceFromWeather IsoParse.parse
    [sampleAt "2024-01-01T00:00:00Z" 5 false] [] "Gradient Boosting"
  = Ok [{| timestamp := IsoString 1704067200000; actualPrice := None;
           predictedPrice := 30; temperature := 5; isFuture := false |}] /\
  generatePriceFromWeather IsoParse.parse
    [sampleAt "2024-01-01T00:00:00Z" 5 false] [] "toString"
  <> generatePriceFromWeather IsoParse.parse
       [sampleAt "2024-01-01T00:00:00Z" 5 false] [] "Gradient Boosting".
Proof.
  split; [reflexivity|]. split; [reflexivity|].
  intros H.
  apply (f_equal (fun o => match o with
                           | Ok [r] => is_nan (predictedPrice r)
                           | _ => false
                           end)) in H.
  vm_compute in H. discriminate H.
Qed.

(** A model name that is neither an own nor an inherited property of
    [modelWeights] does fall back to Gradient Boosting. *)
Lemma selectWeights_fallback (modelType : string) :
  modelWeights modelType = None -> selectWeights modelType = GradientBoosting.
Proof. unfold selectWeights. by intros ->. Qed.

Lemma generatePriceFromWeather_fallback (Date_parse : string -> option Z)
  (weatherData : list FmiDataPoint) (spotPrices : list SpotPricePoint)
  (modelType : string) :
  modelWeights modelType = None ->
  generatePriceFromWeather Date_parse weatherData spotPrices modelType
  = generatePriceFromWeather Date_parse weatherData spotPrices "Gradient Boosting".
Proof.
  intros H. unfold generatePriceFromWeather, fit.
  by rewrite (selectWeights_fallback _ H).
Qed.

Lemma modelWeights_None (modelType : string) :
  modelType ∉ ["Linear Regression"; "Random Forest"; "Gradient Boosting"]%string ->
  modelType ∉ Object_prototype_keys ->
  modelWeights modelType = None.
Proof.
  rewrite !not_elem_of_cons. intros (? & ? & ? & _) Hproto.
  unfold modelWeights. by rewrite !decide_False.
Qed.

(** ** [globalMean] *)

Lemma truthy_false (x : float) :
  Js.truthy x = false <->
  match Prim2SF x with S754_nan | S754_zero _ => True | _ => False end.
Proof.
  unfold Js.truthy, is_zero. rewrite is_nan_spec, FloatAxioms.eqb_spec.
  change (Prim2SF zero) with (S754_zero false).
  by destruct (Prim2SF x) as [[]|[]| |[] m e].
Qed.



(** ** [actualPrice] *)

Section ActualPrice.
Variable Date_parse : string -> option Z.

Local Abbreviation insertAll spotPrices :=
  (fold_left (marketPriceInsert Date_parse) spotPrices ∅).




End ActualPrice.



(** ** The sort and the order of the input *)

Section SortFacts.
Context {A : Type} (cmp : A -> A -> comparison).

Lemma sort_insert_Permutation (x : A) (l : list A) :
  Permutation (sort_insert cmp x l) (x :: l).
Proof.
  induction l as [|y l IH]; [done|]. cbn.
  destruct (cmp x y); try done.
  rewrite IH. apply perm_swap.
Qed.

Lemma Array_sort_cons (x : A) (l : list A) :
  Array_sort cmp (x :: l) = sort_insert cmp x (Array_sort cmp l).
Proof. reflexivity. Qed.

Lemma Array_sort_Permutation (l : list A) : Permutation (Array_sort cmp l) l.
Proof.
  induction l as [|x l IH]; [done|]. rewrite Array_sort_cons.
  rewrite sort_insert_Permutation. by constructor.
Qed.

End SortFacts.

Section Order.
Variable Date_parse : string -> option Z.

Lemma byTime_valid (a b : FmiDataPoint) (x y : Z) :
  timeValue Date_parse a = Some x -> timeValue Date_parse b = Some y ->
  byTime Date_parse a b = (x ?= y).
Proof. unfold timeValue, byTime. by intros -> ->. Qed.

(** Two insertions commute when all the times are valid and the two
    inserted ones differ. *)
Lemma sort_insert_comm (a b : FmiDataPoint) (l : list FmiDataPoint) (x y : Z) :
  timeValue Date_parse a = Some x -> timeValue Date_parse b = Some y -> x <> y ->
  Forall (fun obs => is_Some (timeValue Date_parse obs)) l ->
  sort_insert (byTime Date_parse) a (sort_insert (byTime Date_parse) b l)
  = sort_insert (byTime Date_parse) b (sort_insert (byTime Date_parse) a l).
Proof.
  intros Ha Hb Hxy Hl. induction Hl as [|c l [z Hc] _ IH]; cbn.
  - rewrite (byTime_valid a b x y), (byTime_valid b a y x) by done.
    destruct (Z.compare_spec x y), (Z.compare_spec y x); try lia; done.
  - rewrite (byTime_valid b c y z), (byTime_valid a c x z) by done.
    destruct (Z.compare_spec y z), (Z.compare_spec x z); cbn;
      rewrite ?(byTime_valid a b x y), ?(byTime_valid b a y x),
        ?(byTime_valid b c y z), ?(byTime_valid a c x z) by done;
      repeat match goal with
             | |- context [?u ?= ?v] => destruct (Z.compare_spec u v); try lia
             end;
      try done.
    by rewrite IH.
Qed.

(** On valid and pairwise distinct times the sorted list does not depend
    on the order of the input. *)
Lemma sortedWeatherOf_Permutation (l l' : list FmiDataPoint) :
  Permutation l l' ->
  Forall (fun obs => is_Some (timeValue Date_parse obs)) l ->
  NoDup (map (timeValue Date_parse) l) ->
  sortedWeatherOf Date_parse l = sortedWeatherOf Date_parse l'.
Proof.
  unfold sortedWeatherOf.
  induction 1 as [|a l l' Hperm IH|a b l|l l' l'' Hperm IH Hperm' IH'];
    intros Hvalid Hnodup.
  - done.
  - rewrite !Array_sort_cons. apply Forall_cons in Hvalid as [_ Hvalid].
    cbn in Hnodup. apply NoDup_cons in Hnodup as [_ Hnodup].
    by rewrite IH.
  - rewrite !Array_sort_cons.
    apply Forall_cons in Hvalid as [[y Hb] [[x Ha] Hvalid]%Forall_cons].
    cbn in Hnodup. rewrite Hb, Ha in Hnodup.
    apply NoDup_cons in Hnodup as [Hne _].
    apply sort_insert_comm with (x := y) (y := x); try done.
    + intros ->. apply Hne. by left.
    + eapply Permutation_Forall; [|exact Hvalid].
      symmetry. apply Array_sort_Permutation.
  - rewrite IH by done. apply IH'.
    + by eapply Permutation_Forall.
    + by rewrite <- Hperm.
Qed.

(** C8, as the code has it.  For a weather list whose samples have
    pairwise distinct time values, the engine gives the same result on
    every permutation of the list. *)
Theorem generatePriceFromWeather_permutation (weatherData weatherData' : list FmiDataPoint)
  (spotPrices : list SpotPricePoint) (modelType : string) :
  Permutation weatherData weatherData' ->
  NoDup (map (timeValue Date_parse) weatherData) ->
  generatePriceFromWeather Date_parse weatherData' spotPrices modelType
  = generatePriceFromWeather Date_parse weatherData spotPrices modelType.
Proof.
  intros Hperm Hnodup.
  destruct (decide (Forall (fun obs => is_Some (timeValue Date_parse obs)) weatherData))
    as [Hvalid|Hinvalid].
  - unfold generatePriceFromWeather, fit.
    by rewrite (sortedWeatherOf_Permutation _ _ Hperm Hvalid Hnodup).
  - apply not_Forall_Exists in Hinvalid; [|apply _].
    apply Exists_exists in Hinvalid as (obs & Hin & Hnone).
    assert (~ predictable Date_parse obs) as Hno.
    { unfold predictable, hourOf. unfold compose, timeValue, getTime in Hnone.
      destruct (Date_of_string Date_parse (time obs)); [|by intros []].
      exfalso. apply Hnone. by eexists. }
    rewrite (generatePriceFromWeather_Throw Date_parse weatherData _ _ obs);
      [|unfold sortedWeatherOf; by rewrite Array_sort_Permutation|done].
    apply (generatePriceFromWeather_Throw Date_parse weatherData' _ _ obs); [|done].
    unfold sortedWeatherOf. by rewrite Array_sort_Permutation, <- Hperm.
Qed.

End Order.

Lemma generatePriceFromWeather_permutation_demo :
  generatePriceFromWeather IsoParse.parse demoWeatherShuffled demoSpots "Random Forest"
  = generatePriceFromWeather IsoParse.parse demoWeather demoSpots "Random Forest".
Proof.
  apply (generatePriceFromWeather_permutation IsoParse.parse demoWeather
           demoWeatherShuffled demoSpots "Random Forest").
  - unfold demoWeather, demoWeatherShuffled. apply (Permutation_cons_append [_; _]).
  - apply (bool_decide_unpack _). vm_compute. exact I.
Defined.

(** C8 as stated fails on two samples with the same time: the sort is
    stable, so they stay in the order they came in, and so do their
    records. *)
Lemma generatePriceFromWeather_order_of_ties :
  Permutation tiedWeather tiedWeatherSwapped /\
  generatePriceFromWeather IsoParse.parse tiedWeather [] "Gradient Boosting"
  = Ok [{| timestamp := IsoString 1704067200000; actualPrice := None;
           predictedPrice := 30; temperature := 5; isFuture := false |};
        {| timestamp := IsoString 1704067200000; actualPrice := None;
           predictedPrice := 30; temperature := 7; isFuture := false |}] /\
  generatePriceFromWeather IsoParse.parse tiedWeatherSwapped [] "Gradient Boosting"
  = Ok [{| timestamp := IsoString 1704067200000; actualPrice := None;
           predictedPrice := 30; temperature := 7; isFuture := false |};
        {| timestamp := IsoString 1704067200000; actualPrice := None;
           predictedPrice := 30; temperature := 5; isFuture := false |}] /\
  generatePriceFromWeather IsoParse.parse tiedWeatherSwapped [] "Gradient Boosting"
  <> generatePriceFromWeather IsoParse.parse tiedWeather [] "Gradient Boosting".
Proof.
  split; [apply perm_swap|]. split; [reflexivity|]. split; [reflexivity|].
  intros H.
  apply (f_equal (fun o => match o with
                           | Ok (r :: _) => (temperature r =? 5)%float
                           | _ => false
                           end)) in H.
  vm_compute in H. discriminate H.
Qed.

(** ** Order facts on binary64 *)

Lemma compare_cont_antisym (p q : positive) :
  Pos.compare_cont Eq q p = CompOpp (Pos.compare_cont Eq p q).
Proof. apply (Pos.compare_antisym p q). Qed.

Lemma SFcompare_antisym (f1 f2 : spec_float) :
  SFcompare f2 f1 = CompOpp <$> SFcompare f1 f2.
Proof.
  destruct f1 as [[]|[]| |[] m1 e1], f2 as [[]|[]| |[] m2 e2]; cbn; try reflexivity;
    rewrite (Z.compare_antisym e1 e2), (compare_cont_antisym m1 m2);
    destruct (e1 ?= e2); cbn; try reflexivity;
    by destruct (Pos.compare_cont Eq m1 m2).
Qed.

Lemma ltb_leb (a b : float) : (a <? b)%float = true -> (a <=? b)%float = true.
Proof.
  rewrite FloatAxioms.ltb_spec, FloatAxioms.leb_spec. unfold SFltb, SFleb.
  by destruct (SFcompare _ _) as [[]|].
Qed.

Lemma not_ltb_leb (a b : float) :
  is_nan a = false -> is_nan b = false ->
  (a <? b)%float = false -> (b <? a)%float = false ->
  (a <=? b)%float = true /\ (b <=? a)%float = true.
Proof.
  rewrite !is_nan_spec, !FloatAxioms.ltb_spec, !FloatAxioms.leb_spec.
  unfold SFltb, SFleb. rewrite (SFcompare_antisym (Prim2SF a) (Prim2SF b)).
  destruct (Prim2SF a) as [[]|[]| |[] m1 e1], (Prim2SF b) as [[]|[]| |[] m2 e2];
    try done; cbn;
    destruct (e1 ?= e2); try done; destruct (Pos.compare_cont Eq m1 m2); done.
Qed.

(** ** The clamp *)

Lemma Math_min_450 (x : float) :
  is_nan x = false ->
  is_nan (Js.Math_min 450 x) = false /\ (Js.Math_min 450 x <=? 450)%float = true.
Proof.
  intros Hx. unfold Js.Math_min. rewrite Hx.
  change (is_nan 450 || false) with false. cbn match.
  destruct (450 <? x)%float eqn:H1; [done|].
  destruct (x <? 450)%float eqn:H2; [by split; [|apply ltb_leb]|].
  change (get_sign 450) with false. cbn match.
  split; [done|]. by apply (not_ltb_leb 450 x).
Qed.

Lemma Math_max_m20 (y : float) :
  is_nan y = false -> (y <=? 450)%float = true ->
  is_nan (Js.Math_max (-20) y) = false /\
  (-20 <=? Js.Math_max (-20) y)%float = true /\
  (Js.Math_max (-20) y <=? 450)%float = true.
Proof.
  intros Hy Hle. unfold Js.Math_max. rewrite Hy.
  change (is_nan (-20) || false) with false. cbn match.
  destruct (-20 <? y)%float eqn:H1; [by repeat split; [|apply ltb_leb|]|].
  destruct (y <? -20)%float eqn:H2; [done|].
  change (get_sign (-20)) with true. cbn match.
  repeat split; try done. by apply (not_ltb_leb (-20) y).
Qed.

Lemma Math_min_nan (a x : float) : is_nan x = true -> Js.Math_min a x = nan.
Proof. intros H. unfold Js.Math_min. rewrite H. by rewrite orb_true_r. Qed.

Lemma Math_max_nan (a x : float) : is_nan x = true -> Js.Math_max a x = nan.
Proof. intros H. unfold Js.Math_max. rewrite H. by rewrite orb_true_r. Qed.

(** ** Two decimals of a number in [-20, 450] *)

Lemma digits2_pos_bounds (m : positive) :
  2 ^ (Z.pos (digits2_pos m) - 1) <= Z.pos m < 2 ^ Z.pos (digits2_pos m).
Proof.
  induction m as [m IH|m IH|]; cbn [digits2_pos].
  - rewrite Pos2Z.inj_succ, Z.pow_succ_r by lia.
    replace (Z.succ (Z.pos (digits2_pos m)) - 1) with (Z.succ (Z.pos (digits2_pos m) - 1)) by lia.
    rewrite Z.pow_succ_r by lia. lia.
  - rewrite Pos2Z.inj_succ, Z.pow_succ_r by lia.
    replace (Z.succ (Z.pos (digits2_pos m)) - 1) with (Z.succ (Z.pos (digits2_pos m) - 1)) by lia.
    rewrite Z.pow_succ_r by lia. lia.
  - done.
Qed.

(** The mantissa of a binary64 number has at most 53 bits, and exactly 53
    above the smallest exponent. *)
Lemma valid_finite (s : bool) (m : positive) (e : Z) :
  valid_binary (S754_finite s m e) = true ->
  Z.pos m < 2 ^ 53 /\ -1074 <= e <= 971 /\ (-1074 < e -> 2 ^ 52 <= Z.pos m).
Proof.
  unfold SpecFloat.valid_binary, bounded, canonical_mantissa, fexp, FloatOps.emin,
    SpecFloat.emin, FloatOps.prec, FloatOps.emax.
  intros [He1%Z.eqb_eq He2%Z.leb_le]%andb_prop.
  pose proof (digits2_pos_bounds m) as [Hlo Hhi].
  assert (Z.pos (digits2_pos m) <= 53) as Hd by lia.
  split; [|split; [lia|]].
  - eapply Z.lt_le_trans; [exact Hhi|]. apply Z.pow_le_mono_r; lia.
  - intros Hnorm. assert (Z.pos (digits2_pos m) = 53) as Hd53 by lia.
    by rewrite Hd53 in Hlo.
Qed.

Lemma all_from_spec (f : positive -> bool) (k : nat) (p q : positive) :
  all_from f k p = true -> (p <= q)%positive -> Z.pos q < Z.pos p + Z.of_nat k ->
  f q = true.
Proof.
  revert p. induction k as [|k IH]; intros p; cbn [all_from]; [lia|].
  intros [Hp Hrest]%andb_prop Hle Hlt.
  destruct (decide (p = q)) as [<-|Hne]; [done|].
  apply (IH (Pos.succ p)); [done|lia|lia].
Qed.

Lemma decimal2_pos_in_range :
  all_from (fun n => in_price_range (Js.decimal2 false n)) (Z.to_nat 45000) 1 = true.
Proof. vm_compute. reflexivity. Qed.

Lemma decimal2_neg_in_range :
  all_from (fun n => in_price_range (Js.decimal2 true n)) (Z.to_nat 2000) 1 = true.
Proof. vm_compute. reflexivity. Qed.

Lemma decimal2_pos_range (n : positive) :
  Z.pos n <= 45000 -> in_price_range (Js.decimal2 false n) = true.
Proof.
  intros Hn.
  apply (all_from_spec (fun n => in_price_range (Js.decimal2 false n))
           (Z.to_nat 45000) 1 n decimal2_pos_in_range); lia.
Qed.

Lemma decimal2_neg_range (n : positive) :
  Z.pos n <= 2000 -> in_price_range (Js.decimal2 true n) = true.
Proof.
  intros Hn.
  apply (all_from_spec (fun n => in_price_range (Js.decimal2 true n))
           (Z.to_nat 2000) 1 n decimal2_neg_in_range); lia.
Qed.

(** [toFixed_n] of [m * 2^e <= N] is at most [100 * N]. *)
Lemma toFixed_n_le (m : positive) (e N : Z) :
  e < 0 -> 0 <= N -> 100 * Z.pos m <= N * 2 ^ (- e) -> Js.toFixed_n m e <= N.
Proof.
  intros He HN Hm. unfold Js.toFixed_n.
  destruct (Z.leb_spec 0 e) as [|_]; [lia|].
  assert (0 < 2 ^ (- e)) as Hp by (apply Z.pow_pos_nonneg; lia).
  replace (- e + 1) with (Z.succ (- e)) by lia. rewrite Z.pow_succ_r by lia.
  apply Z.lt_succ_r. apply Z.div_lt_upper_bound; lia.
Qed.

Lemma ge_1e21_small (m : positive) (e : Z) :
  e < 0 -> Z.pos m < 2 ^ 53 -> Js.ge_1e21 m e = false.
Proof.
  intros He Hm. unfold Js.ge_1e21.
  destruct (Z.leb_spec 0 e) as [|_]; [lia|].
  apply Z.leb_gt.
  assert (1 <= 2 ^ (- e)) by (apply (Z.pow_le_mono_r 2 0); lia).
  assert (2 ^ 53 < 10 ^ 21) by done. nia.
Qed.

Lemma compare_cont_Eq_le (p q : positive) :
  Pos.compare_cont Eq p q <> Gt -> Z.pos p <= Z.pos q.
Proof.
  change (Pos.compare_cont Eq p q) with (p ?= q)%positive.
  destruct (Pos.compare_spec p q); [lia|lia|done].
Qed.

(** Two decimals of a number of [-20, 450] are in [-20, 450]. *)
Lemma toFixed2_in_range (z : float) :
  in_price_range z = true -> in_price_range (Js.toFixed2 z) = true.
Proof.
  unfold in_price_range at 1. intros [Hlo Hhi]%andb_prop.
  rewrite FloatAxioms.leb_spec in Hlo, Hhi.
  change (Prim2SF (-20)) with (S754_finite true 5629499534213120 (-48)) in Hlo.
  change (Prim2SF 450) with (S754_finite false 7916483719987200 (-44)) in Hhi.
  pose proof (Prim2SF_valid z) as Hvalid.
  unfold Js.toFixed2.
  destruct (Prim2SF z) as [s|s| |s m e]; [done|by destruct s|done|].
  apply valid_finite in Hvalid as (Hm & He & _).
  unfold SFleb, SFcompare in Hlo, Hhi.
  destruct s.
  - (* z < 0: its magnitude is at most 20 *)
    assert (e < 0 /\ 100 * Z.pos m <= 2000 * 2 ^ (- e)) as [Hneg Hbound].
    { destruct (Z.compare_spec (-48) e) as [Heq|Hlt|Hgt]; [| done |].
      - subst e. split; [lia|].
        assert (Z.pos m <= 5629499534213120) as Hle.
        { apply compare_cont_Eq_le. intros Hc.
          rewrite (compare_cont_antisym m 5629499534213120), Hc in Hlo. done. }
        change (2 ^ (- -48)) with 281474976710656. lia.
      - split; [lia|].
        assert (2 ^ 49 <= 2 ^ (- e)) by (apply Z.pow_le_mono_r; lia).
        change (2 ^ 49) with 562949953421312 in *.
        change (2 ^ 53) with 9007199254740992 in *. lia. }
    rewrite (ge_1e21_small m e Hneg Hm).
    pose proof (toFixed_n_le m e 2000 Hneg ltac:(lia) Hbound) as Hn.
    destruct (Js.toFixed_n m e) as [|n|n]; [done| |done].
    by apply decimal2_neg_range.
  - (* z > 0: it is at most 450 *)
    assert (e < 0 /\ 100 * Z.pos m <= 45000 * 2 ^ (- e)) as [Hneg Hbound].
    { destruct (Z.compare_spec e (-44)) as [Heq|Hlt|Hgt]; [| | done].
      - subst e. split; [lia|].
        assert (Z.pos m <= 7916483719987200) as Hle.
        { apply compare_cont_Eq_le. intros Hc. by rewrite Hc in Hhi. }
        change (2 ^ (- -44)) with 17592186044416. lia.
      - split; [lia|].
        assert (2 ^ 45 <= 2 ^ (- e)) by (apply Z.pow_le_mono_r; lia).
        change (2 ^ 45) with 35184372088832 in *.
        change (2 ^ 53) with 9007199254740992 in *. lia. }
    rewrite (ge_1e21_small m e Hneg Hm).
    pose proof (toFixed_n_le m e 45000 Hneg ltac:(lia) Hbound) as Hn.
    destruct (Js.toFixed_n m e) as [|n|n]; [done| |done].
    by apply decimal2_pos_range.
Qed.

Lemma toFixed2_nan : Js.toFixed2 nan = nan.
Proof. reflexivity. Qed.

(** [clampPrice]: NaN stays NaN, any other number lands in [-20, 450]. *)
Lemma clampPrice_range (raw : float) :
  if is_nan raw then clampPrice raw = nan
  else in_price_range (clampPrice raw) = true.
Proof.
  unfold clampPrice. destruct (is_nan raw) eqn:Hnan.
  - by rewrite (Math_min_nan _ _ Hnan), (Math_max_nan _ nan).
  - destruct (Math_min_450 raw Hnan) as [Hnan' Hle].
    destruct (Math_max_m20 _ Hnan' Hle) as (_ & Hlo & Hhi).
    apply toFixed2_in_range. unfold in_price_range. by rewrite Hlo, Hhi.
Qed.

(** ** [predictedPrice] *)

(** C2, as the code has it.  Every [predictedPrice] the engine returns is
    either NaN or a number of [-20, 450]: the clamp and the rounding keep
    every number in that interval, and let NaN through. *)
Theorem predictedPrice_clamped (Date_parse : string -> option Z)
  (weatherData : list FmiDataPoint) (spotPrices : list SpotPricePoint)
  (modelType : string) (out : list PriceData) :
  generatePriceFromWeather Date_parse weatherData spotPrices modelType = Ok out ->
  Forall (fun r => is_nan (predictedPrice r) = true \/
                   in_price_range (predictedPrice r) = true) out.
Proof.
  intros Hout. apply generatePriceFromWeather_records in Hout.
  eapply Forall2_Forall_r; [exact Hout|].
  apply Forall_forall. intros obs _ r (h & raw & _ & _ & _ & -> & _).
  pose proof (clampPrice_range raw) as H.
  destruct (is_nan raw); [left; by rewrite H | by right].
Qed.

Lemma predictedPrice_clamped_demo :
  Forall (fun r => is_nan (predictedPrice r) = true \/
                   in_price_range (predictedPrice r) = true) demoOutput.
Proof.
  apply (predictedPrice_clamped IsoParse.parse demoWeather demoSpots
           "Gradient Boosting" demoOutput).
  reflexivity.
Defined.

(** C2 as stated fails on a sample whose temperature is NaN: the heating
    demand, the weighted sum and the predicted price are NaN. *)
Lemma predictedPrice_nan_temperature :
  exists r,
    generatePriceFromWeather IsoParse.parse nanWeather [] "Gradient Boosting" = Ok [r] /\
    is_nan (predictedPrice r) = true /\
    in_price_range (predictedPrice r) = false.
Proof. eexists. repeat split. Qed.

(** NaN also comes out of finite inputs, once the sum of the prices
    overflows. *)
Example predictedPrice_nan_overflow :
  map predictedPrice
    <$> generatePriceFromWeather IsoParse.parse demoWeather hugeSpots "Gradient Boosting"
  = Ok [nan; nan; nan].
Proof. reflexivity. Qed.

(** * Rounding keeps the order *)

Lemma loc_of_shr_record_of_loc (m : Z) (l : location) :
  loc_of_shr_record (shr_record_of_loc m l) = l /\
  shr_m (shr_record_of_loc m l) = m.
Proof. by destruct l as [|[]]. Qed.

Lemma round_nearest_even_RNE (m : Z) (l : location) (a b : Z) :
  represents m l a b -> round_nearest_even m l = RNE a b.
Proof.
  intros (Hb & Ha & -> & ->). unfold loc_of, RNE.
  pose proof (Z.mod_pos_bound a b Hb) as Hr.
  destruct (Z.eqb_spec (a `mod` b) 0) as [Hz|Hnz]; cbn.
  - rewrite Hz. by destruct (Z.compare_spec (2 * 0) b); [lia| |lia].
  - by destruct (2 * (a `mod` b) ?= b).
Qed.

Lemma div_mod_double (a b : Z) :
  0 < b -> 0 <= a ->
  a `div` (2 * b) = (a `div` b) `div` 2 /\
  a `mod` (2 * b) = ((a `div` b) `mod` 2) * b + a `mod` b.
Proof.
  intros Hb Ha.
  pose proof (Z.div_mod a b ltac:(lia)) as Hab.
  pose proof (Z.mod_pos_bound a b Hb) as Hr.
  pose proof (Z.div_mod (a `div` b) 2 ltac:(lia)) as Hq.
  pose proof (Z.mod_pos_bound (a `div` b) 2 ltac:(lia)) as Hbit.
  assert (a = 2 * b * ((a `div` b) `div` 2) + ((a `div` b) `mod` 2 * b + a `mod` b))
    as Heq by nia.
  assert (0 <= (a `div` b) `mod` 2 * b + a `mod` b < 2 * b) as Hrange by nia.
  split.
  - symmetry. eapply Z.div_unique_pos; [exact Hrange|exact Heq].
  - symmetry. eapply Z.mod_unique_pos; [exact Hrange|exact Heq].
Qed.

Lemma shr_1_nonneg (m : Z) (r s : bool) :
  0 <= m ->
  shr_1 {| shr_m := m; shr_r := r; shr_s := s |}
  = {| shr_m := m `div` 2; shr_r := Z.odd m; shr_s := r || s |}.
Proof.
  intros Hm. rewrite <- Z.div2_div.
  destruct m as [|[p|p|]|p]; try reflexivity. lia.
Qed.

(** One step of [shr] halves the unit: from [a / b] to [a / (2 b)]. *)
Lemma shr_1_represents (mrs : shr_record) (a b : Z) :
  represents (shr_m mrs) (loc_of_shr_record mrs) a b ->
  represents (shr_m (shr_1 mrs)) (loc_of_shr_record (shr_1 mrs)) a (2 * b).
Proof.
  intros (Hb & Ha & Hm & Hl).
  destruct (div_mod_double a b Hb Ha) as [Hdiv Hmod].
  pose proof (Z.mod_pos_bound a b Hb) as Hr.
  pose proof (Z.div_pos a b Ha Hb) as Hq.
  split; [lia|]. split; [done|].
  rewrite Hdiv, Hmod, <- Hm. clear Hdiv Hmod.
  unfold loc_of in *.
  destruct mrs as [m r s]. cbn [shr_m] in *.
  assert (orb r s = negb (a `mod` b =? 0)) as Hsticky.
  { destruct (Z.eqb_spec (a `mod` b) 0); destruct r, s; cbn in *; congruence. }
  clear Hl. rewrite <- Hm in Hq. clear Hm.
  rewrite (shr_1_nonneg m r s Hq), Hsticky. cbn [shr_m loc_of_shr_record].
  split; [done|]. rewrite Zmod_odd.
  destruct (Z.odd m), (Z.eqb_spec (a `mod` b) 0) as [Hz|Hnz]; cbn [negb].
  - rewrite Hz. destruct (Z.eqb_spec (1 * b + 0) 0); [lia|].
    by destruct (Z.compare_spec (2 * (1 * b + 0)) (2 * b)); [|lia|lia].
  - destruct (Z.eqb_spec (1 * b + a `mod` b) 0); [lia|].
    by destruct (Z.compare_spec (2 * (1 * b + a `mod` b)) (2 * b)); [lia|lia|].
  - by rewrite Hz.
  - destruct (Z.eqb_spec (0 * b + a `mod` b) 0); [lia|].
    by destruct (Z.compare_spec (2 * (0 * b + a `mod` b)) (2 * b)); [lia| |lia].
Qed.

Lemma pow2_xO (p : positive) : 2 ^ Z.pos p~0 = 2 ^ Z.pos p * 2 ^ Z.pos p.
Proof.
  change (Z.pos p~0) with (2 * Z.pos p).
  replace (2 * Z.pos p) with (Z.pos p + Z.pos p) by lia.
  by rewrite Z.pow_add_r by lia.
Qed.

Lemma pow2_xI (p : positive) : 2 ^ Z.pos p~1 = 2 * (2 ^ Z.pos p * 2 ^ Z.pos p).
Proof.
  change (Z.pos p~1) with (Z.succ (Z.pos p~0)).
  by rewrite Z.pow_succ_r, pow2_xO by lia.
Qed.

Lemma iter_pos_shr_1_represents (p : positive) (mrs : shr_record) (a b : Z) :
  represents (shr_m mrs) (loc_of_shr_record mrs) a b ->
  represents (shr_m (SpecFloat.iter_pos shr_1 p mrs))
    (loc_of_shr_record (SpecFloat.iter_pos shr_1 p mrs))
    a (b * 2 ^ Z.pos p).
Proof.
  revert mrs b. induction p as [p IH|p IH|]; intros mrs b H; cbn [SpecFloat.iter_pos].
  - apply shr_1_represents, IH, IH in H.
    replace (b * 2 ^ Z.pos p~1) with (2 * b * 2 ^ Z.pos p * 2 ^ Z.pos p); [done|].
    rewrite pow2_xI. ring.
  - apply IH, IH in H.
    replace (b * 2 ^ Z.pos p~0) with (b * 2 ^ Z.pos p * 2 ^ Z.pos p); [done|].
    rewrite pow2_xO. ring.
  - apply shr_1_represents in H. by replace (b * 2 ^ 1) with (2 * b) by lia.
Qed.

(** [shr] by [n >= 0] binary places. *)
Lemma shr_represents (m : Z) (l : location) (e n a b : Z) :
  0 <= n -> represents m l a b ->
  exists mrs, shr (shr_record_of_loc m l) e n = (mrs, e + n) /\
              represents (shr_m mrs) (loc_of_shr_record mrs) a (b * 2 ^ n).
Proof.
  intros Hn H.
  destruct (loc_of_shr_record_of_loc m l) as [Hl Hm].
  destruct n as [|p|p]; [| |lia].
  - eexists. split; [cbn; by rewrite Z.add_0_r|].
    rewrite Hl, Hm. by rewrite Z.mul_1_r.
  - eexists. split; [reflexivity|].
    apply iter_pos_shr_1_represents. by rewrite Hl, Hm.
Qed.

(** ** Binary digits *)

Lemma Zdigits2_bounds (m : Z) :
  0 < m -> 2 ^ (Zdigits2 m - 1) <= m < 2 ^ Zdigits2 m.
Proof.
  destruct m as [|p|p]; [lia| |lia]. intros _. cbn [Zdigits2].
  induction p as [p IH|p IH|]; cbn [digits2_pos].
  - rewrite Pos2Z.inj_succ.
    replace (Z.succ (Z.pos (digits2_pos p)) - 1) with (Z.succ (Z.pos (digits2_pos p) - 1)) by lia.
    rewrite !Z.pow_succ_r by lia. lia.
  - rewrite Pos2Z.inj_succ.
    replace (Z.succ (Z.pos (digits2_pos p)) - 1) with (Z.succ (Z.pos (digits2_pos p) - 1)) by lia.
    rewrite !Z.pow_succ_r by lia. lia.
  - done.
Qed.

Lemma Zdigits2_pos (m : Z) : 0 < m -> 0 < Zdigits2 m.
Proof. destruct m; cbn; lia. Qed.

Lemma Zdigits2_unique (m d : Z) :
  2 ^ (d - 1) <= m < 2 ^ d -> 0 < m -> Zdigits2 m = d.
Proof.
  intros [Hlo Hhi] Hm.
  pose proof (Zdigits2_bounds m Hm) as [Hlo' Hhi'].
  pose proof (Zdigits2_pos m Hm) as Hd.
  assert (0 < d).
  { destruct (Z.lt_trichotomy 0 d) as [?|[<-|Hneg]]; [done| |].
    - change (2 ^ 0) with 1 in Hhi. lia.
    - rewrite (Z.pow_neg_r 2 d) in Hhi by lia. lia. }
  destruct (Z.lt_trichotomy (Zdigits2 m) d) as [Hlt|[Heq|Hgt]]; [|done|].
  - assert (2 ^ Zdigits2 m <= 2 ^ (d - 1)) by (apply Z.pow_le_mono_r; lia). lia.
  - assert (2 ^ d <= 2 ^ (Zdigits2 m - 1)) by (apply Z.pow_le_mono_r; lia). lia.
Qed.

Lemma Zdigits2_le (m1 m2 : Z) : 0 < m1 -> m1 <= m2 -> Zdigits2 m1 <= Zdigits2 m2.
Proof.
  intros H1 H12.
  pose proof (Zdigits2_bounds m1 H1) as [Hlo1 _].
  pose proof (Zdigits2_bounds m2 ltac:(lia)) as [_ Hhi2].
  destruct (Z.le_gt_cases (Zdigits2 m1) (Zdigits2 m2)); [done|].
  assert (2 ^ Zdigits2 m2 <= 2 ^ (Zdigits2 m1 - 1)) by (apply Z.pow_le_mono_r; lia).
  lia.
Qed.

(** Scaling the numerator by [2^k] adds [k] digits to the quotient. *)
Lemma Zdigits2_div_shift (a b k : Z) :
  0 < b -> b <= a -> 0 <= k ->
  Zdigits2 ((a * 2 ^ k) `div` b) = Zdigits2 (a `div` b) + k.
Proof.
  intros Hb Hab Hk.
  assert (0 < a `div` b) as Hq by (apply Z.div_str_pos; lia).
  pose proof (Zdigits2_bounds _ Hq) as [Hlo Hhi].
  pose proof (Zdigits2_pos _ Hq) as Hd.
  assert (0 < 2 ^ k) as Hpk by (apply Z.pow_pos_nonneg; lia).
  pose proof (Z.mul_div_le a b Hb) as Hle.
  pose proof (Z.mul_succ_div_gt a b Hb) as Hgt.
  assert (b * 2 ^ (Zdigits2 (a `div` b) - 1) <= a) as Hlo' by nia.
  assert (a < b * 2 ^ Zdigits2 (a `div` b)) as Hhi' by nia.
  apply Zdigits2_unique.
  - replace (Zdigits2 (a `div` b) + k - 1) with (Zdigits2 (a `div` b) - 1 + k) by lia.
    rewrite !Z.pow_add_r by lia. split.
    + apply Z.div_le_lower_bound; [done|]. nia.
    + apply Z.div_lt_upper_bound; [done|]. nia.
  - apply Z.div_str_pos. nia.
Qed.

(** Dropping [n] binary places of a number of [d > n] digits leaves
    [d - n] digits. *)
Lemma Zdigits2_div_pow (m n : Z) :
  0 < m -> 0 <= n < Zdigits2 m -> Zdigits2 (m `div` 2 ^ n) = Zdigits2 m - n.
Proof.
  intros Hm Hn.
  pose proof (Zdigits2_bounds m Hm) as [Hlo Hhi].
  assert (0 < 2 ^ n) as Hpn by (apply Z.pow_pos_nonneg; lia).
  assert (2 ^ (Zdigits2 m - 1) = 2 ^ (Zdigits2 m - n - 1) * 2 ^ n) as E1
    by (rewrite <- Z.pow_add_r by lia; f_equal; lia).
  assert (2 ^ Zdigits2 m = 2 ^ (Zdigits2 m - n) * 2 ^ n) as E2
    by (rewrite <- Z.pow_add_r by lia; f_equal; lia).
  assert (0 < 2 ^ (Zdigits2 m - n - 1)) by (apply Z.pow_pos_nonneg; lia).
  assert (2 ^ (Zdigits2 m - n - 1) <= m `div` 2 ^ n)
    by (apply Z.div_le_lower_bound; lia).
  apply Zdigits2_unique; [|lia]. split; [done|].
  apply Z.div_lt_upper_bound; lia.
Qed.

(** ** Rounding to the nearest integer, ties to even *)

Lemma RNE_cases (a b : Z) :
  0 < b ->
  (2 * RNE a b - 1) * b <= 2 * a <= (2 * RNE a b + 1) * b /\
  (2 * a = (2 * RNE a b - 1) * b -> Z.even (RNE a b) = true) /\
  (2 * a = (2 * RNE a b + 1) * b -> Z.even (RNE a b) = true).
Proof.
  intros Hb. unfold RNE.
  pose proof (Z.div_mod a b ltac:(lia)) as Hab.
  pose proof (Z.mod_pos_bound a b Hb) as Hr.
  destruct (Z.compare_spec (2 * (a `mod` b)) b) as [Heq|Hlt|Hgt].
  - destruct (Z.even (a `div` b)) eqn:Heven.
    + repeat split; try nia. intros _. done.
    + repeat split; try nia. intros _.
      by rewrite Z.add_1_r, Z.even_succ, <- Z.negb_even, Heven.
  - repeat split; nia.
  - repeat split; nia.
Qed.

Lemma RNE_mono (a1 b1 a2 b2 : Z) :
  0 < b1 -> 0 < b2 -> a1 * b2 <= a2 * b1 -> RNE a1 b1 <= RNE a2 b2.
Proof.
  intros Hb1 Hb2 Hle.
  destruct (RNE_cases a1 b1 Hb1) as ([Hlo1 _] & Hev1 & _).
  destruct (RNE_cases a2 b2 Hb2) as ([_ Hhi2] & _ & Hev2).
  destruct (Z.le_gt_cases (RNE a1 b1) (RNE a2 b2)) as [|Hgt]; [done|exfalso].
  assert ((2 * RNE a2 b2 + 1) * (b1 * b2) <= (2 * RNE a1 b1 - 1) * (b1 * b2)) as H1 by nia.
  assert ((2 * RNE a1 b1 - 1) * (b1 * b2) <= 2 * a1 * b2) as H2 by nia.
  assert (2 * a2 * b1 <= (2 * RNE a2 b2 + 1) * (b1 * b2)) as H3 by nia.
  assert (RNE a1 b1 = RNE a2 b2 + 1) as Hm by nia.
  assert (2 * a1 = (2 * RNE a1 b1 - 1) * b1) as T1 by nia.
  assert (2 * a2 = (2 * RNE a2 b2 + 1) * b2) as T2 by nia.
  specialize (Hev1 T1). specialize (Hev2 T2).
  rewrite Hm, Z.add_1_r, Z.even_succ, <- Z.negb_even, Hev2 in Hev1. done.
Qed.

Lemma RNE_scale (a b c : Z) : 0 < b -> 0 < c -> RNE (a * c) (b * c) = RNE a b.
Proof.
  intros Hb Hc. unfold RNE.
  rewrite Z.div_mul_cancel_r, Z.mul_mod_distr_r by lia.
  destruct (Z.compare_spec (2 * (a `mod` b * c)) (b * c)),
    (Z.compare_spec (2 * (a `mod` b)) b); try nia; reflexivity.
Qed.

Lemma RNE_exact (m b : Z) : 0 < b -> RNE (m * b) b = m.
Proof.
  intros Hb. unfold RNE. rewrite Z.div_mul, Z.mod_mul by lia.
  by destruct (Z.compare_spec (2 * 0) b); [lia| |lia].
Qed.

Lemma RNE_div (a b : Z) : 0 < b -> a `div` b <= RNE a b <= a `div` b + 1.
Proof.
  intros Hb. unfold RNE.
  destruct (2 * (a `mod` b) ?= b); [destruct (Z.even (a `div` b))| |]; lia.
Qed.

(** [RNE] never leaves the integers that enclose [a / b]. *)
Lemma RNE_sandwich (a b lo hi : Z) :
  0 < b -> lo * b <= a -> a <= hi * b -> lo <= RNE a b <= hi.
Proof.
  intros Hb Hlo Hhi.
  rewrite <- (RNE_exact lo b Hb), <- (RNE_exact hi b Hb).
  split; apply RNE_mono; nia.
Qed.

(** ** [binary_round_aux] as a function of the exact value *)

Lemma binary_round_aux_finish (s : bool) (mx ex : Z) (lx : location) :
  binary_round_aux prec emax s mx ex lx
  = finish s (round_nearest_even (shr_m (shr_fexp prec emax mx ex lx).1)
                (loc_of_shr_record (shr_fexp prec emax mx ex lx).1))
      (shr_fexp prec emax mx ex lx).2.
Proof.
  unfold binary_round_aux, finish. by destruct (shr_fexp prec emax mx ex lx).
Qed.

Lemma fexp_eq (d : Z) : fexp prec emax d = Z.max (d - 53) (-1074).
Proof. reflexivity. Qed.

Lemma finish_pack (s : bool) (m E : Z) : good m E -> finish s m E = pack s m E.
Proof.
  intros (HE & [Hm0 Hm53] & Hsub). unfold finish, pack, shr_fexp.
  rewrite fexp_eq.
  destruct (Z.eqb_spec m (2 ^ 53)) as [->|Hne].
  - change (Zdigits2 (2 ^ 53)) with 54.
    replace (Z.max (54 + E - 53) (-1074) - E) with 1 by lia.
    cbn. by replace (emax - prec) with 971 by done.
  - destruct m as [|p|p]; [| |lia].
    + cbn [Zdigits2]. destruct (Z.max (0 + E - 53) (-1074) - E) as [|n|n] eqn:Hn; try done.
      cbn [shr shr_record_of_loc].
      destruct (iter_pos_shr_1_represents n {| shr_m := 0; shr_r := false; shr_s := false |} 0 1)
        as (_ & _ & -> & _); [by repeat split|].
      by rewrite Z.div_0_l by (apply Z.neq_mul_0; split; [lia|apply Z.pow_nonzero; lia]).
    + assert (Z.max (Zdigits2 (Z.pos p) + E - 53) (-1074) - E <= 0) as Hn.
      { pose proof (Zdigits2_bounds (Z.pos p) ltac:(lia)) as [Hlo Hhi].
        destruct (Z.le_gt_cases (Zdigits2 (Z.pos p)) 53) as [|Hd]; [|exfalso].
        - destruct (Z.lt_ge_cases (Z.pos p) (2 ^ 52)); [lia|]. lia.
        - assert (2 ^ 53 <= 2 ^ (Zdigits2 (Z.pos p) - 1)) by (apply Z.pow_le_mono_r; lia).
          lia. }
      destruct (Z.max (Zdigits2 (Z.pos p) + E - 53) (-1074) - E) as [|n|n]; [| lia |];
        cbn; by replace (emax - prec) with 971 by done.
Qed.

Lemma RS_good (A B : Z) :
  0 < B -> B <= A ->
  good (RNE A (B * 2 ^ (fexp prec emax (Zdigits2 (A `div` B) + e0) - e0)))
    (fexp prec emax (Zdigits2 (A `div` B) + e0)).
Proof.
  intros HB HA. rewrite fexp_eq. unfold e0.
  assert (0 < A `div` B) as Hq by (apply Z.div_str_pos; lia).
  pose proof (Zdigits2_bounds _ Hq) as [Hlo Hhi].
  pose proof (Zdigits2_pos _ Hq) as Hd.
  pose proof (Z.mul_div_le A B HB) as Hle.
  pose proof (Z.mul_succ_div_gt A B HB) as Hgt.
  set (d := Zdigits2 (A `div` B)) in *.
  set (E := Z.max (d + -2200 - 53) (-1074)).
  assert (0 < E - -2200) as Hn by lia.
  assert (0 < 2 ^ (E - -2200)) as Hpn by (apply Z.pow_pos_nonneg; lia).
  assert (B * 2 ^ (d - 1) <= A) as HloA by nia.
  assert (A < B * 2 ^ d) as HhiA by nia.
  split; [lia|]. split.
  - apply RNE_sandwich; [nia|nia|].
    assert (2 ^ d <= 2 ^ 53 * 2 ^ (E - -2200)) as Hpow.
    { rewrite <- Z.pow_add_r by lia. apply Z.pow_le_mono_r; lia. }
    nia.
  - intros Hsmall. destruct (Z.eq_dec E (-1074)) as [|Hnorm]; [done|exfalso].
    assert (E = d + -2200 - 53) as HE by lia.
    assert (2 ^ (d - 1) = 2 ^ 52 * 2 ^ (E - -2200)) as Hpow.
    { rewrite <- Z.pow_add_r by lia. f_equal. lia. }
    assert (2 ^ 52 <= RNE A (B * 2 ^ (E - -2200))); [|lia].
    apply (RNE_sandwich A (B * 2 ^ (E - -2200)) (2 ^ 52) (2 ^ 53)); [nia|nia|].
    assert (2 ^ d = 2 ^ 53 * 2 ^ (E - -2200)) as Hpow'.
    { rewrite <- Z.pow_add_r by lia. f_equal. lia. }
    nia.
Qed.

(** [binary_round_aux] rounds the value its arguments stand for. *)
Lemma binary_round_aux_RS (s : bool) (mx ex : Z) (lx : location) (a b : Z) :
  represents mx lx a b -> 0 < mx ->
  ex <= fexp prec emax (Zdigits2 mx + ex) -> e0 <= ex ->
  binary_round_aux prec emax s mx ex lx = RS s (a * 2 ^ (ex - e0)) b.
Proof.
  intros Hrep Hmx Hshift Hex.
  pose proof Hrep as (Hb & Ha & Hm & _).
  rewrite binary_round_aux_finish. unfold shr_fexp.
  set (n := fexp prec emax (Zdigits2 mx + ex) - ex).
  destruct (shr_represents mx lx ex n a b ltac:(lia) Hrep) as (mrs & -> & Hrep').
  cbn [fst snd]. rewrite (round_nearest_even_RNE _ _ _ _ Hrep').
  assert (b <= a) as Hab.
  { destruct (Z.le_gt_cases b a); [done|]. rewrite Z.div_small in Hm by lia. lia. }
  assert (0 < 2 ^ (ex - e0)) as Hpk by (apply Z.pow_pos_nonneg; lia).
  assert (0 < 2 ^ n) as Hpn by (apply Z.pow_pos_nonneg; lia).
  unfold RS.
  rewrite (Zdigits2_div_shift a b (ex - e0)) by lia. rewrite <- Hm.
  replace (Zdigits2 mx + (ex - e0) + e0) with (Zdigits2 mx + ex) by lia.
  replace (fexp prec emax (Zdigits2 mx + ex)) with (ex + n) by (unfold n; lia).
  replace (ex + n - e0) with (n + (ex - e0)) by lia.
  rewrite Z.pow_add_r by lia.
  replace (b * (2 ^ n * 2 ^ (ex - e0))) with (b * 2 ^ n * 2 ^ (ex - e0)) by ring.
  rewrite RNE_scale by nia.
  apply finish_pack.
  pose proof (RS_good (a * 2 ^ (ex - e0)) b Hb ltac:(nia)) as Hgood.
  rewrite (Zdigits2_div_shift a b (ex - e0)) in Hgood by lia. rewrite <- Hm in Hgood.
  replace (Zdigits2 mx + (ex - e0) + e0) with (Zdigits2 mx + ex) in Hgood by lia.
  replace (fexp prec emax (Zdigits2 mx + ex)) with (ex + n) in Hgood by (unfold n; lia).
  replace (ex + n - e0) with (n + (ex - e0)) in Hgood by lia.
  rewrite Z.pow_add_r in Hgood by lia.
  replace (b * (2 ^ n * 2 ^ (ex - e0))) with (b * 2 ^ n * 2 ^ (ex - e0)) in Hgood by ring.
  by rewrite RNE_scale in Hgood by nia.
Qed.

(** ** Order of the rounded results *)

Lemma pos_compare_cont_spec (p q : positive) :
  CompareSpec (p = q) (Z.pos p < Z.pos q) (Z.pos q < Z.pos p) (Pos.compare_cont Eq p q).
Proof.
  change (Pos.compare_cont Eq p q) with (p ?= q)%positive.
  destruct (Pos.compare_spec p q); constructor; lia.
Qed.

Ltac compare_cases :=
  repeat match goal with
         | |- context [Z.compare ?x ?y] => destruct (Z.compare_spec x y)
         | |- context [Pos.compare_cont Eq ?p ?q] =>
             destruct (pos_compare_cont_spec p q)
         | |- context [Z.eqb ?x ?y] => destruct (Z.eqb_spec x y)
         | |- context [Z.leb ?x ?y] => destruct (Z.leb_spec x y)
         end.

Lemma pack_le (m1 E1 m2 E2 : Z) :
  good m1 E1 -> good m2 E2 -> E1 < E2 \/ (E1 = E2 /\ m1 <= m2) ->
  SFleb (pack false m1 E1) (pack false m2 E2) = true.
Proof.
  intros (HE1 & [Hlo1 Hhi1] & Hs1) (HE2 & [Hlo2 Hhi2] & Hs2) Hle.
  assert (2 ^ 52 = Z.pos (2 ^ 52)%positive) as H52 by done.
  unfold pack, SFleb, SFcompare.
  destruct m1 as [|p1|p1], m2 as [|p2|p2]; try lia;
    compare_cases; try done; try lia.
Qed.

Lemma RS_mono (A1 B1 A2 B2 : Z) :
  0 < B1 -> 0 < B2 -> B1 <= A1 -> A1 * B2 <= A2 * B1 ->
  SFleb (RS false A1 B1) (RS false A2 B2) = true.
Proof.
  intros HB1 HB2 HA1 Hle.
  assert (B2 <= A2) as HA2 by nia.
  assert (0 < A1 `div` B1) as Hq1 by (apply Z.div_str_pos; lia).
  assert (A1 `div` B1 <= A2 `div` B2) as Hq.
  { apply Z.div_le_lower_bound; [done|].
    pose proof (Z.mul_div_le A1 B1 HB1). nia. }
  pose proof (Zdigits2_le _ _ Hq1 Hq) as Hd.
  unfold RS. apply pack_le; try by apply RS_good.
  rewrite !fexp_eq.
  destruct (Z.lt_trichotomy (Z.max (Zdigits2 (A1 `div` B1) + e0 - 53) (-1074))
              (Z.max (Zdigits2 (A2 `div` B2) + e0 - 53) (-1074))) as [Hlt|[Heq|Hgt]];
    [by left| |lia].
  right. split; [done|]. rewrite Heq.
  assert (0 < 2 ^ (Z.max (Zdigits2 (A2 `div` B2) + e0 - 53) (-1074) - e0))
    by (apply Z.pow_pos_nonneg; unfold e0; lia).
  apply RNE_mono; nia.
Qed.

(** ** Signs *)

Lemma SFcompare_opp (x y : spec_float) :
  SFcompare (SFopp x) (SFopp y) = SFcompare y x.
Proof.
  destruct x as [[]|[]| |[] m1 e1], y as [[]|[]| |[] m2 e2]; cbn; try reflexivity;
    rewrite (Z.compare_antisym e1 e2), (compare_cont_antisym m1 m2);
    destruct (e1 ?= e2); cbn; try reflexivity;
    by destruct (Pos.compare_cont Eq m1 m2).
Qed.

Lemma SFleb_opp (x y : spec_float) : SFleb (SFopp x) (SFopp y) = SFleb y x.
Proof. unfold SFleb. by rewrite SFcompare_opp. Qed.

Lemma pack_true (m E : Z) : pack true m E = SFopp (pack false m E).
Proof.
  unfold pack. destruct m as [|p|p]; try done.
  by destruct (Z.pos p =? 2 ^ 53), (E + 1 <=? 971), (E <=? 971).
Qed.

Lemma RS_true (A B : Z) : RS true A B = SFopp (RS false A B).
Proof. apply pack_true. Qed.

Lemma pack_nonneg (m E : Z) : 0 <= m -> nonneg (pack false m E) = true.
Proof.
  intros Hm. unfold pack. destruct m as [|p|p]; [done| |lia].
  by destruct (Z.pos p =? 2 ^ 53), (E + 1 <=? 971), (E <=? 971).
Qed.

Lemma RS_nonneg (A B : Z) : 0 < B -> B <= A -> nonneg (RS false A B) = true.
Proof.
  intros HB HA. apply pack_nonneg.
  by destruct (RS_good A B HB HA) as (_ & [? _] & _).
Qed.

Lemma nonneg_le (x y : spec_float) :
  nonneg x = true -> nonneg y = true -> SFleb (SFopp x) y = true.
Proof. by destruct x as [[]|[]| |[] m1 e1], y as [[]|[]| |[] m2 e2]. Qed.

Lemma zero_le_nonneg (s : bool) (y : spec_float) :
  nonneg y = true -> SFleb (S754_zero s) y = true.
Proof. by destruct y as [[]|[]| |[] m2 e2]. Qed.

Lemma RSZ_mono (A1 A2 B : Z) :
  0 < B -> (A1 = 0 \/ B <= Z.abs A1) -> (A2 = 0 \/ B <= Z.abs A2) -> A1 <= A2 ->
  SFleb (RSZ A1 B) (RSZ A2 B) = true.
Proof.
  intros HB H1 H2 Hle. unfold RSZ.
  destruct A1 as [|p1|p1], A2 as [|p2|p2]; try lia; try done.
  - apply zero_le_nonneg, RS_nonneg; lia.
  - apply RS_mono; nia.
  - rewrite RS_true. apply nonneg_le; [apply RS_nonneg; lia|done].
  - rewrite RS_true. apply nonneg_le; apply RS_nonneg; lia.
  - rewrite !RS_true, SFleb_opp. apply RS_mono; nia.
Qed.

(** ** Binary64 numbers as counts of units *)

Lemma RSZ_pos (A B : Z) : 0 < A -> RSZ A B = RS false A B.
Proof. by destruct A. Qed.

Lemma RSZ_neg (A B : Z) : A < 0 -> RSZ A B = RS true (- A) B.
Proof. by destruct A. Qed.

Lemma Zdigits2_mul_pow (m k : Z) :
  0 < m -> 0 <= k -> Zdigits2 (m * 2 ^ k) = Zdigits2 m + k.
Proof.
  intros Hm Hk. pose proof (Zdigits2_div_shift m 1 k ltac:(lia) ltac:(lia) Hk) as H.
  by rewrite !Z.div_1_r in H.
Qed.

Lemma valid_canonical (s : bool) (m : positive) (e : Z) :
  valid_binary (S754_finite s m e) = true ->
  fexp prec emax (Zdigits2 (Z.pos m) + e) = e /\ -1074 <= e <= 971 /\
  Z.pos m < 2 ^ 53.
Proof.
  intros Hv. destruct (valid_finite s m e Hv) as (Hm & He & _).
  unfold SpecFloat.valid_binary, bounded, canonical_mantissa in Hv.
  apply andb_prop in Hv as [Hc%Z.eqb_eq _]. done.
Qed.

(** A binary64 number is the rounding of its own value. *)
Lemma RS_representable (s : bool) (m : positive) (e : Z) :
  valid_binary (S754_finite s m e) = true ->
  RS s (Z.pos m * 2 ^ (e - e0)) 1 = S754_finite s m e.
Proof.
  intros Hv. destruct (valid_canonical s m e Hv) as (Hc & He & Hm).
  assert (0 <= e - e0) as Hk by (unfold e0; lia).
  assert (0 < 2 ^ (e - e0)) as Hpk by (apply Z.pow_pos_nonneg; lia).
  unfold RS. rewrite Z.div_1_r, Zdigits2_mul_pow by lia.
  replace (Zdigits2 (Z.pos m) + (e - e0) + e0) with (Zdigits2 (Z.pos m) + e) by lia.
  rewrite Hc, Z.mul_1_l, RNE_exact by done.
  unfold pack. destruct (Z.eqb_spec (Z.pos m) (2 ^ 53)); [lia|].
  destruct (Z.leb_spec e 971); [done|lia].
Qed.

Lemma RSZ_representable (f : spec_float) :
  valid_binary f = true -> finite_or_zero f = true ->
  SFleb (RSZ (Vz f) 1) f = true /\ SFleb f (RSZ (Vz f) 1) = true /\
  (forall s m e, f = S754_finite s m e -> RSZ (Vz f) 1 = f).
Proof.
  intros Hv Hf. destruct f as [s| | |s m e]; try done.
  assert (RSZ (Vz (S754_finite s m e)) 1 = S754_finite s m e) as ->.
  { assert (0 < Z.pos m * 2 ^ (e - e0)) by (apply Z.mul_pos_pos; [lia|apply Z.pow_pos_nonneg;
      destruct (valid_canonical s m e Hv) as (_ & ? & _); unfold e0; lia]).
    destruct s; cbn [Vz cond_Zopp].
    - rewrite RSZ_neg, Z.opp_involutive by lia. by apply RS_representable.
    - rewrite RSZ_pos by lia. by apply RS_representable. }
  assert (SFleb (S754_finite s m e) (S754_finite s m e) = true) as Hrefl.
  { unfold SFleb, SFcompare. rewrite Z.compare_refl.
    change (Pos.compare_cont Eq m m) with (m ?= m)%positive.
    rewrite Pos.compare_refl. by destruct s. }
  by repeat split.
Qed.

(** ** [binary_round] and [binary_normalize] *)

Lemma shl_align_fst (m : positive) (e ez : Z) :
  ez <= e ->
  Z.pos (shl_align m e ez).1 = Z.pos m * 2 ^ (e - ez) /\ (shl_align m e ez).2 = ez.
Proof.
  intros Hle. unfold shl_align.
  destruct (ez - e) as [|d|d] eqn:Hd; try lia; cbn [fst snd].
  - replace (e - ez) with 0 by lia. split; lia.
  - split; [|done]. replace (e - ez) with (Z.pos d) by lia.
    change (Pos.iter xO m d) with (shift_pos d m).
    rewrite shift_pos_correct, Zpower_pos_is_exp_pos || rewrite shift_pos_correct.
    rewrite Z.pow_pos_fold. ring.
Qed.

Lemma represents_exact (m : Z) : 0 <= m -> represents m loc_Exact m 1.
Proof.
  intros Hm. repeat split; try lia.
  - by rewrite Z.div_1_r.
  - by rewrite Z.mod_1_r.
Qed.

Lemma binary_round_RS (s : bool) (m : positive) (e : Z) :
  e0 <= e -> binary_round prec emax s m e = RS s (Z.pos m * 2 ^ (e - e0)) 1.
Proof.
  intros He. unfold binary_round.
  set (E := fexp prec emax (Z.pos (digits2_pos m) + e)).
  destruct (Z.le_gt_cases E e) as [Hle|Hgt].
  - destruct (shl_align_fst m e E Hle) as [Hfst Hsnd].
    destruct (shl_align m e E) as [mz ez]. cbn [fst snd] in *. subst ez.
    assert (-1074 <= E) as HE by (unfold E; rewrite fexp_eq; lia).
    assert (0 < 2 ^ (e - E)) by (apply Z.pow_pos_nonneg; lia).
    rewrite (binary_round_aux_RS s (Z.pos mz) E loc_Exact (Z.pos mz) 1).
    + f_equal. rewrite Hfst, <- Z.mul_assoc, <- Z.pow_add_r by (unfold e0; lia).
      do 2 f_equal. lia.
    + by apply represents_exact.
    + done.
    + rewrite Hfst, Zdigits2_mul_pow by lia.
      replace (Zdigits2 (Z.pos m) + (e - E) + E) with (Z.pos (digits2_pos m) + e)
        by (cbn [Zdigits2]; lia).
      fold E. lia.
    + unfold e0. lia.
  - assert (shl_align m e E = (m, e)) as ->.
    { unfold shl_align. destruct (E - e) eqn:Hd; try done. lia. }
    apply binary_round_aux_RS; try done.
    + by apply represents_exact.
    + fold E. cbn [Zdigits2]. fold E. lia.
Qed.

Lemma binary_normalize_RSZ (M e : Z) :
  e0 <= e -> binary_normalize prec emax M e false = RSZ (M * 2 ^ (e - e0)) 1.
Proof.
  intros He. assert (0 < 2 ^ (e - e0)) as Hp by (apply Z.pow_pos_nonneg; lia).
  unfold binary_normalize. destruct M as [|m|m].
  - done.
  - rewrite RSZ_pos by lia. by apply binary_round_RS.
  - rewrite RSZ_neg by lia. rewrite binary_round_RS by done. f_equal. lia.
Qed.

(** ** The operations on finite numbers *)

Lemma Vz_shl_align (s : bool) (m : positive) (e ez : Z) :
  ez <= e -> e0 <= ez ->
  cond_Zopp s (Z.pos (shl_align m e ez).1) * 2 ^ (ez - e0) = Vz (S754_finite s m e).
Proof.
  intros Hle He. destruct (shl_align_fst m e ez Hle) as [-> _]. cbn [Vz].
  replace (e - e0) with (e - ez + (ez - e0)) by lia.
  rewrite Z.pow_add_r by lia. destruct s; cbn [cond_Zopp]; ring.
Qed.

Lemma SFadd_finite (sx : bool) (mx : positive) (ex : Z) (sy : bool) (my : positive)
  (ey : Z) :
  e0 <= ex -> e0 <= ey ->
  SFadd prec emax (S754_finite sx mx ex) (S754_finite sy my ey)
  = RSZ (Vz (S754_finite sx mx ex) + Vz (S754_finite sy my ey)) 1.
Proof.
  intros Hx Hy. unfold SFadd. rewrite binary_normalize_RSZ by lia.
  rewrite Z.mul_add_distr_r, !Vz_shl_align by lia. done.
Qed.

Lemma SFsub_finite (sx : bool) (mx : positive) (ex : Z) (sy : bool) (my : positive)
  (ey : Z) :
  e0 <= ex -> e0 <= ey ->
  SFsub prec emax (S754_finite sx mx ex) (S754_finite sy my ey)
  = RSZ (Vz (S754_finite sx mx ex) - Vz (S754_finite sy my ey)) 1.
Proof.
  intros Hx Hy. unfold SFsub. rewrite binary_normalize_RSZ by lia.
  rewrite Z.mul_sub_distr_r, !Vz_shl_align by lia. done.
Qed.

(** The product with a positive normal number [c = mc * 2^ec]. *)
Lemma SFmul_finite (s : bool) (m : positive) (e : Z) (mc : positive) (ec : Z) :
  2 ^ 52 <= Z.pos mc -> e0 <= e + ec ->
  SFmul prec emax (S754_finite s m e) (S754_finite false mc ec)
  = RS s (Z.pos m * Z.pos mc * 2 ^ (e + ec - e0)) 1.
Proof.
  intros Hmc He. unfold SFmul. rewrite xorb_false_r.
  rewrite (binary_round_aux_RS s _ _ _ (Z.pos (m * mc)) 1); try done.
  - by apply represents_exact.
  - rewrite fexp_eq.
    assert (53 <= Zdigits2 (Z.pos (m * mc))); [|lia].
    change 53 with (Zdigits2 (2 ^ 52)). apply Zdigits2_le; [done|].
    rewrite Pos2Z.inj_mul. nia.
Qed.

(** ** The order of binary64 numbers is the order of their values *)

Lemma Vz_bound (f : spec_float) : valid_binary f = true -> - top < Vz f < top.
Proof.
  assert (0 < top) as Htop by done.
  destruct f as [s|s| |s m e]; cbn [Vz]; try lia.
  intros (_ & He & Hm)%valid_canonical.
  assert (0 < 2 ^ (e - e0)) as Hp by (apply Z.pow_pos_nonneg; unfold e0; lia).
  assert (2 ^ (e - e0) <= 2 ^ (971 - e0)) as Hpe by (apply Z.pow_le_mono_r; lia).
  assert (top = 2 ^ 53 * 2 ^ (971 - e0)) as -> by done.
  destruct s; cbn [cond_Zopp]; nia.
Qed.

Lemma Vz_sign (s : bool) (m : positive) (e : Z) :
  e0 <= e ->
  if s then Vz (S754_finite s m e) < 0 else 0 < Vz (S754_finite s m e).
Proof.
  intros He. assert (0 < 2 ^ (e - e0)) by (apply Z.pow_pos_nonneg; lia).
  destruct s; cbn [Vz cond_Zopp]; nia.
Qed.

Lemma SFleb_refl (f : spec_float) : not_nan f = true -> SFleb f f = true.
Proof.
  destruct f as [[]|[]| |[] m e]; try done; intros _; unfold SFleb, SFcompare;
    rewrite Z.compare_refl; change (Pos.compare_cont Eq m m) with (m ?= m)%positive;
    by rewrite Pos.compare_refl.
Qed.

Lemma SFleb_antisym_Vz (x y : spec_float) :
  finite_or_zero x = true -> finite_or_zero y = true ->
  SFleb x y = true -> SFleb y x = true -> Vz x = Vz y.
Proof.
  intros Hx Hy. unfold SFleb. rewrite (SFcompare_antisym x y).
  destruct x as [sx| | |sx mx ex], y as [sy| | |sy my ey]; try done.
  - by destruct sy.
  - by destruct sx.
  - unfold SFcompare.
    destruct sx, sy; try done;
      destruct (Z.compare_spec ex ey); try done;
      destruct (pos_compare_cont_spec mx my); try done; by subst.
Qed.

Lemma SFleb_Vz (x y : spec_float) :
  valid_binary x = true -> valid_binary y = true ->
  finite_or_zero x = true -> finite_or_zero y = true ->
  SFleb x y = true <-> Vz x <= Vz y.
Proof.
  intros Hvx Hvy Hx Hy.
  assert (forall x y, valid_binary x = true -> valid_binary y = true ->
            finite_or_zero x = true -> finite_or_zero y = true ->
            Vz x <= Vz y -> SFleb x y = true) as Hle.
  { clear. intros x y Hvx Hvy Hx Hy Hle.
    pose proof (RSZ_mono (Vz x) (Vz y) 1 ltac:(lia) ltac:(lia) ltac:(lia) Hle) as Hm.
    destruct (RSZ_representable x Hvx Hx) as (_ & _ & Hrx).
    destruct (RSZ_representable y Hvy Hy) as (_ & _ & Hry).
    destruct x as [sx| | |sx mx ex], y as [sy| | |sy my ey]; try done.
    - destruct (valid_canonical sy my ey Hvy) as (_ & He & _).
      pose proof (Vz_sign sy my ey ltac:(unfold e0; lia)) as Hs.
      destruct sy; [|by destruct sx]. change (Vz (S754_zero sx)) with 0 in Hle. lia.
    - destruct (valid_canonical sx mx ex Hvx) as (_ & He & _).
      pose proof (Vz_sign sx mx ex ltac:(unfold e0; lia)) as Hs.
      destruct sx; [by destruct sy|]. change (Vz (S754_zero sy)) with 0 in Hle. lia.
    - by rewrite (Hrx _ _ _ eq_refl), (Hry _ _ _ eq_refl) in Hm. }
  split; [|by apply Hle].
  intros Hxy. destruct (Z.le_gt_cases (Vz x) (Vz y)) as [|Hgt]; [done|].
  assert (SFleb y x = true) as Hyx by (apply Hle; try done; lia).
  pose proof (SFleb_antisym_Vz x y Hx Hy Hxy Hyx). lia.
Qed.

Lemma SFleb_Vx (x y : spec_float) :
  valid_binary x = true -> valid_binary y = true ->
  not_nan x = true -> not_nan y = true ->
  SFleb x y = true <-> Vx x <= Vx y.
Proof.
  intros Hvx Hvy Hx Hy.
  pose proof (Vz_bound x Hvx) as Bx. pose proof (Vz_bound y Hvy) as By.
  assert (0 < top) as Htop by done.
  destruct (finite_or_zero x) eqn:Fx, (finite_or_zero y) eqn:Fy.
  - replace (Vx x) with (Vz x) by (by destruct x as [|[]| |]).
    replace (Vx y) with (Vz y) by (by destruct y as [|[]| |]).
    by apply SFleb_Vz.
  - replace (Vx x) with (Vz x) by (by destruct x as [|[]| |]).
    destruct y as [|[]| |]; try done; cbn [Vx].
    + split; [|lia]. by destruct x as [[]|[]| |[] ? ?].
    + split; [lia|]. by destruct x as [[]|[]| |[] ? ?].
  - replace (Vx y) with (Vz y) by (by destruct y as [|[]| |]).
    destruct x as [|[]| |]; try done; cbn [Vx].
    + split; [lia|]. by destruct y as [[]|[]| |[] ? ?].
    + split; [|lia]. by destruct y as [[]|[]| |[] ? ?].
  - destruct x as [|[]| |], y as [|[]| |]; try done; cbn [Vx]; split; try done; lia.
Qed.

Lemma SFltb_Vx (x y : spec_float) :
  valid_binary x = true -> valid_binary y = true ->
  not_nan x = true -> not_nan y = true ->
  SFltb x y = true <-> Vx x < Vx y.
Proof.
  intros Hvx Hvy Hx Hy.
  assert (SFltb x y = negb (SFleb y x)) as ->.
  { unfold SFltb, SFleb. rewrite (SFcompare_antisym x y).
    destruct x as [[]|[]| |[] mx ex], y as [[]|[]| |[] my ey]; try done;
      unfold SFcompare; destruct (ex ?= ey); try done;
      by destruct (Pos.compare_cont Eq mx my). }
  rewrite negb_true_iff, <- not_true_iff_false, (SFleb_Vx y x) by done. lia.
Qed.

Lemma SFleb_trans (x y z : spec_float) :
  valid_binary x = true -> valid_binary y = true -> valid_binary z = true ->
  SFleb x y = true -> SFleb y z = true -> SFleb x z = true.
Proof.
  intros Hvx Hvy Hvz Hxy Hyz.
  assert (not_nan x = true /\ not_nan y = true /\ not_nan z = true) as (Hx & Hy & Hz).
  { destruct x as [[]|[]| |[] ? ?], y as [[]|[]| |[] ? ?], z as [[]|[]| |[] ? ?]; done. }
  rewrite SFleb_Vx in * by done. lia.
Qed.

(** ** The rounded results are binary64 numbers *)

Lemma pack_valid (s : bool) (m E : Z) : good m E -> valid_binary (pack s m E) = true.
Proof.
  intros (HE & [Hlo Hhi] & Hsub). unfold pack.
  destruct m as [|p|p]; [done| |lia].
  destruct (Z.eqb_spec (Z.pos p) (2 ^ 53)) as [Heq|Hne].
  - destruct (Z.leb_spec (E + 1) 971); [|done].
    unfold SpecFloat.valid_binary, bounded, canonical_mantissa.
    change (Z.pos (digits2_pos (2 ^ 52))) with 53. rewrite fexp_eq.
    apply andb_true_intro. split; [apply Z.eqb_eq; lia|apply Z.leb_le; done].
  - destruct (Z.leb_spec E 971); [|done].
    unfold SpecFloat.valid_binary, bounded, canonical_mantissa.
    change (Z.pos (digits2_pos p)) with (Zdigits2 (Z.pos p)). rewrite fexp_eq.
    pose proof (Zdigits2_bounds (Z.pos p) ltac:(lia)) as [Hdlo Hdhi].
    pose proof (Zdigits2_pos (Z.pos p) ltac:(lia)) as Hd.
    assert (Zdigits2 (Z.pos p) <= 53) as Hd53.
    { destruct (Z.le_gt_cases (Zdigits2 (Z.pos p)) 53); [done|].
      assert (2 ^ 53 <= 2 ^ (Zdigits2 (Z.pos p) - 1)) by (apply Z.pow_le_mono_r; lia).
      lia. }
    apply andb_true_intro. split; [apply Z.eqb_eq|apply Z.leb_le; done].
    destruct (Z.lt_ge_cases (Z.pos p) (2 ^ 52)) as [Hs|Hn]; [lia|].
    assert (Zdigits2 (Z.pos p) = 53); [|lia].
    apply Zdigits2_unique; [|lia]. change (53 - 1) with 52. lia.
Qed.

Lemma RS_valid (s : bool) (A B : Z) :
  0 < B -> B <= A -> valid_binary (RS s A B) = true.
Proof. intros HB HA. by apply pack_valid, RS_good. Qed.

Lemma pack_not_nan (s : bool) (m E : Z) : 0 <= m -> not_nan (pack s m E) = true.
Proof.
  intros Hm. unfold pack. destruct m as [|p|p]; [done| |lia].
  by destruct (Z.pos p =? 2 ^ 53), (E + 1 <=? 971), (E <=? 971).
Qed.

Lemma RS_not_nan (s : bool) (A B : Z) : 0 < B -> B <= A -> not_nan (RS s A B) = true.
Proof.
  intros HB HA. destruct (RS_good A B HB HA) as (_ & [Hm _] & _).
  by apply pack_not_nan.
Qed.

Lemma RSZ_valid (A B : Z) :
  0 < B -> (A = 0 \/ B <= Z.abs A) ->
  valid_binary (RSZ A B) = true /\ not_nan (RSZ A B) = true.
Proof.
  intros HB HA. unfold RSZ. destruct A as [|p|p]; [done| |].
  - split; [apply RS_valid|apply RS_not_nan]; lia.
  - split; [apply RS_valid|apply RS_not_nan]; lia.
Qed.

(** ** Primitive floats through their values *)

Lemma not_nan_is_nan (x : float) : not_nan (Prim2SF x) = negb (is_nan x).
Proof. rewrite is_nan_spec. by destruct (Prim2SF x). Qed.

Lemma finite_or_zero_is_finite (x : float) : finite_or_zero (Prim2SF x) = is_finite x.
Proof. rewrite is_finite_spec. by destruct (Prim2SF x). Qed.

Lemma is_finite_not_nan (x : float) : is_finite x = true -> is_nan x = false.
Proof. rewrite is_finite_spec, is_nan_spec. by destruct (Prim2SF x). Qed.

Lemma leb_not_nan (x y : float) :
  (x <=? y)%float = true -> is_nan x = false /\ is_nan y = false.
Proof.
  rewrite FloatAxioms.leb_spec, !is_nan_spec. unfold SFleb.
  by destruct (Prim2SF x) as [[]|[]| |[] ? ?], (Prim2SF y) as [[]|[]| |[] ? ?].
Qed.

Lemma leb_val (x y : float) :
  is_nan x = false -> is_nan y = false ->
  (x <=? y)%float = true <-> val x <= val y.
Proof.
  intros Hx Hy. rewrite FloatAxioms.leb_spec. apply SFleb_Vx.
  - apply Prim2SF_valid.
  - apply Prim2SF_valid.
  - by rewrite not_nan_is_nan, Hx.
  - by rewrite not_nan_is_nan, Hy.
Qed.

Lemma ltb_val (x y : float) :
  is_nan x = false -> is_nan y = false ->
  (x <? y)%float = true <-> val x < val y.
Proof.
  intros Hx Hy. rewrite FloatAxioms.ltb_spec. apply SFltb_Vx.
  - apply Prim2SF_valid.
  - apply Prim2SF_valid.
  - by rewrite not_nan_is_nan, Hx.
  - by rewrite not_nan_is_nan, Hy.
Qed.

Lemma val_bound (x : float) : - top <= val x <= top.
Proof.
  unfold val. pose proof (Vz_bound _ (Prim2SF_valid x)) as H.
  destruct (Prim2SF x) as [|[]| |]; cbn [Vx Vz] in *; lia.
Qed.

Lemma valid_e0 (s : bool) (m : positive) (e : Z) :
  valid_binary (S754_finite s m e) = true -> e0 <= e.
Proof. intros (_ & He & _)%valid_canonical. unfold e0. lia. Qed.

(** *** [15 - t] *)

Lemma Prim2SF_sub_finite (x t : float) (s : bool) (m : positive) (e : Z) :
  Prim2SF x = S754_finite s m e -> is_finite t = true ->
  Prim2SF (x - t) = RSZ (Vz (Prim2SF x) - Vz (Prim2SF t)) 1.
Proof.
  intros Hx Ht. rewrite sub_spec. rewrite <- finite_or_zero_is_finite in Ht.
  pose proof (Prim2SF_valid x) as Hvx. pose proof (Prim2SF_valid t) as Hvt.
  rewrite Hx in *.
  destruct (Prim2SF t) as [st| | |st mt et]; try done.
  - change (Vz (S754_zero st)) with 0. rewrite Z.sub_0_r.
    destruct (RSZ_representable _ Hvx eq_refl) as (_ & _ & Hr).
    by rewrite (Hr _ _ _ eq_refl).
  - apply SFsub_finite; by eapply valid_e0.
Qed.

Lemma sub_not_nan (x t : float) (s : bool) (m : positive) (e : Z) :
  Prim2SF x = S754_finite s m e -> is_finite t = true -> is_nan (x - t) = false.
Proof.
  intros Hx Ht. apply negb_true_iff. rewrite <- not_nan_is_nan.
  rewrite (Prim2SF_sub_finite x t s m e Hx Ht). apply RSZ_valid; lia.
Qed.

(** [x - t] falls as [t] grows. *)
Lemma sub_antitone (x t t' : float) (s : bool) (m : positive) (e : Z) :
  Prim2SF x = S754_finite s m e ->
  is_finite t = true -> is_finite t' = true -> (t <=? t')%float = true ->
  (x - t' <=? x - t)%float = true.
Proof.
  intros Hx Ht Ht' Hle. rewrite FloatAxioms.leb_spec.
  rewrite (Prim2SF_sub_finite x t s m e Hx Ht), (Prim2SF_sub_finite x t' s m e Hx Ht').
  apply RSZ_mono; try lia.
  rewrite FloatAxioms.leb_spec in Hle.
  apply SFleb_Vz in Hle; try apply Prim2SF_valid;
    try by rewrite finite_or_zero_is_finite.
  lia.
Qed.

(** *** [Math.max(0, y)] *)

Lemma Math_max_0 (y : float) :
  is_nan y = false -> Js.Math_max 0 y = if (0 <? y)%float then y else 0%float.
Proof.
  intros Hy. unfold Js.Math_max. rewrite Hy.
  change (is_nan 0 || false) with false. cbn match.
  destruct (0 <? y)%float; [done|]. by destruct (y <? 0)%float.
Qed.

Lemma val_0 : val 0 = 0.
Proof. reflexivity. Qed.

Lemma Math_max_0_mono (y y' : float) :
  (y <=? y')%float = true ->
  (Js.Math_max 0 y <=? Js.Math_max 0 y')%float = true /\
  (0 <=? Js.Math_max 0 y)%float = true.
Proof.
  intros Hle. destruct (leb_not_nan _ _ Hle) as [Hy Hy'].
  rewrite !Math_max_0 by done.
  apply (leb_val _ _ Hy Hy') in Hle.
  assert (is_nan 0 = false) as H0 by done.
  destruct (0 <? y)%float eqn:Hpos, (0 <? y')%float eqn:Hpos';
    try apply (ltb_val _ _ H0 Hy) in Hpos;
    try apply (ltb_val _ _ H0 Hy') in Hpos';
    try (apply not_true_iff_false in Hpos; rewrite (ltb_val _ _ H0 Hy) in Hpos);
    try (apply not_true_iff_false in Hpos'; rewrite (ltb_val _ _ H0 Hy') in Hpos');
    rewrite ?val_0 in *;
    rewrite ?(leb_val _ _ Hy Hy'), ?(leb_val _ _ H0 Hy), ?(leb_val _ _ H0 Hy'),
      ?(leb_val _ _ Hy H0), ?(leb_val _ _ H0 H0), ?val_0; lia.
Qed.

(** *** Rounding as a function on values *)

Lemma RSZ_Vx_mono (A1 A2 B : Z) :
  0 < B -> (A1 = 0 \/ B <= Z.abs A1) -> (A2 = 0 \/ B <= Z.abs A2) -> A1 <= A2 ->
  Vx (RSZ A1 B) <= Vx (RSZ A2 B).
Proof.
  intros HB H1 H2 Hle.
  destruct (RSZ_valid A1 B HB H1) as [Hv1 Hn1].
  destruct (RSZ_valid A2 B HB H2) as [Hv2 Hn2].
  apply SFleb_Vx; try done. by apply RSZ_mono.
Qed.

Lemma RSZ_Vx_representable (f : spec_float) :
  valid_binary f = true -> finite_or_zero f = true -> Vx (RSZ (Vz f) 1) = Vx f.
Proof.
  intros Hv Hf. destruct f as [s| | |s m e]; try done.
  destruct (RSZ_representable _ Hv Hf) as (_ & _ & Hr).
  by rewrite (Hr _ _ _ eq_refl).
Qed.

Lemma val_finite (x : float) : is_finite x = true -> val x = Vz (Prim2SF x).
Proof.
  rewrite <- finite_or_zero_is_finite. unfold val. by destruct (Prim2SF x).
Qed.

Lemma val_infinite (x : float) :
  is_nan x = false -> is_finite x = false ->
  Prim2SF x = S754_infinity (val x <? 0).
Proof.
  rewrite <- finite_or_zero_is_finite, is_nan_spec. unfold val.
  by destruct (Prim2SF x) as [|[]| |].
Qed.

Lemma val_lt_top (x : float) : is_finite x = true -> - top < val x < top.
Proof.
  intros Hx. rewrite val_finite by done. apply Vz_bound, Prim2SF_valid.
Qed.

(** *** [p + y] *)

Lemma add_finite_val (p y : float) :
  is_finite p = true -> is_finite y = true ->
  is_nan (p + y) = false /\ val (p + y) = Vx (RSZ (val p + val y) 1).
Proof.
  intros Hp Hy. rewrite (val_finite p Hp), (val_finite y Hy).
  rewrite <- (negb_true_iff (is_nan _)), <- not_nan_is_nan. unfold val.
  rewrite add_spec.
  pose proof (Prim2SF_valid p) as Hvp. pose proof (Prim2SF_valid y) as Hvy.
  rewrite <- finite_or_zero_is_finite in Hp, Hy.
  destruct (Prim2SF p) as [sp| | |sp mp ep] eqn:EP,
    (Prim2SF y) as [sy| | |sy my ey] eqn:EY; try done.
  - split; [by destruct sp, sy|by destruct sp, sy].
  - change (Vz (S754_zero sp)) with 0. rewrite Z.add_0_l.
    rewrite RSZ_Vx_representable by done. done.
  - change (Vz (S754_zero sy)) with 0. rewrite Z.add_0_r.
    rewrite RSZ_Vx_representable by done. done.
  - rewrite SFadd_finite by (by eapply valid_e0).
    split; [|done]. apply RSZ_valid; lia.
Qed.

Lemma add_infinite (p y : float) :
  is_finite p = true -> is_nan y = false -> is_finite y = false ->
  Prim2SF (p + y) = Prim2SF y.
Proof.
  intros Hp Hn Hy. rewrite add_spec.
  rewrite <- finite_or_zero_is_finite in Hp, Hy. rewrite is_nan_spec in Hn.
  by destruct (Prim2SF p) as [|[]| |], (Prim2SF y) as [|[]| |].
Qed.

Lemma is_finite_Prim2SF (x y : float) : Prim2SF x = Prim2SF y -> is_finite x = is_finite y.
Proof. intros H. by rewrite !is_finite_spec, H. Qed.

Lemma is_nan_Prim2SF (x y : float) : Prim2SF x = Prim2SF y -> is_nan x = is_nan y.
Proof. intros H. by rewrite !is_nan_spec, H. Qed.

Lemma val_Prim2SF (x y : float) : Prim2SF x = Prim2SF y -> val x = val y.
Proof. intros H. unfold val. by rewrite H. Qed.

(** [p + y] grows with [y]. *)
Lemma add_mono (p y y' : float) :
  is_finite p = true -> (y <=? y')%float = true ->
  (p + y <=? p + y')%float = true.
Proof.
  intros Hp Hle. destruct (leb_not_nan _ _ Hle) as [Hy Hy'].
  apply (leb_val _ _ Hy Hy') in Hle.
  pose proof (val_lt_top p Hp) as Bp.
  destruct (is_finite y) eqn:Fy, (is_finite y') eqn:Fy'.
  - destruct (add_finite_val p y Hp Fy) as [N1 V1].
    destruct (add_finite_val p y' Hp Fy') as [N2 V2].
    apply leb_val; try done. rewrite V1, V2. apply RSZ_Vx_mono; lia.
  - pose proof (add_infinite p y' Hp Hy' Fy') as E'.
    destruct (add_finite_val p y Hp Fy) as [N1 V1].
    pose proof (val_lt_top y Fy) as By.
    pose proof (val_infinite y' Hy' Fy') as I'.
    assert (val y' = top) as T'.
    { unfold val in *. rewrite I' in *. destruct (Vx _ <? 0) eqn:?; cbn [Vx] in *; lia. }
    apply leb_val; [done|by rewrite (is_nan_Prim2SF _ _ E')|].
    rewrite (val_Prim2SF _ _ E'), T'. apply val_bound.
  - pose proof (add_infinite p y Hp Hy Fy) as E.
    destruct (add_finite_val p y' Hp Fy') as [N2 V2].
    pose proof (val_lt_top y' Fy') as By'.
    pose proof (val_infinite y Hy Fy) as I.
    assert (val y = - top) as T.
    { unfold val in *. rewrite I in *. destruct (Vx _ <? 0) eqn:?; cbn [Vx] in *; lia. }
    apply leb_val; [by rewrite (is_nan_Prim2SF _ _ E)|done|].
    rewrite (val_Prim2SF _ _ E), T. apply val_bound.
  - pose proof (add_infinite p y Hp Hy Fy) as E.
    pose proof (add_infinite p y' Hp Hy' Fy') as E'.
    apply leb_val; [by rewrite (is_nan_Prim2SF _ _ E)|by rewrite (is_nan_Prim2SF _ _ E')|].
    by rewrite (val_Prim2SF _ _ E), (val_Prim2SF _ _ E').
Qed.

(** Adding a number that is not negative does not make [p] smaller. *)
Lemma add_nonneg_ge (p y : float) :
  is_finite p = true -> (0 <=? y)%float = true -> (p <=? p + y)%float = true.
Proof.
  intros Hp Hy. pose proof (add_mono p 0 y Hp Hy) as H.
  destruct (leb_not_nan _ _ H) as [N0 N1].
  pose proof (is_finite_not_nan p Hp) as Np.
  apply (leb_val _ _ N0 N1) in H. apply leb_val; try done.
  destruct (add_finite_val p 0 Hp eq_refl) as [_ V0].
  rewrite V0, val_0, Z.add_0_r in H. rewrite (val_finite p Hp) in H.
  rewrite RSZ_Vx_representable in H;
    [|apply Prim2SF_valid|by rewrite finite_or_zero_is_finite].
  exact H.
Qed.

(** *** [d * c] for a positive normal constant [c] *)

Lemma pow2_split (e ec : Z) :
  -1074 <= e -> -1074 <= ec ->
  2 ^ (e - e0) = 2 ^ (e + 1074) * 2 ^ 1126 /\
  2 ^ (e + ec - e0) = 2 ^ (e + 1074) * (2 ^ (ec + 1074) * 2 ^ 52).
Proof.
  intros He Hec. unfold e0. rewrite <- !Z.pow_add_r by lia.
  split; f_equal; lia.
Qed.

Lemma SFmul_mono (D D' : spec_float) (mc : positive) (ec : Z) :
  valid_binary D = true -> valid_binary D' = true ->
  valid_binary (S754_finite false mc ec) = true -> 2 ^ 52 <= Z.pos mc ->
  SFleb (S754_zero false) D = true -> SFleb D D' = true ->
  SFleb (SFmul prec emax D (S754_finite false mc ec))
    (SFmul prec emax D' (S754_finite false mc ec)) = true /\
  SFleb (S754_zero false) (SFmul prec emax D (S754_finite false mc ec)) = true.
Proof.
  intros Hv Hv' Hvc Hmc H0 Hle.
  destruct (valid_canonical _ _ _ Hvc) as (_ & Hec & _).
  assert (forall s m e, valid_binary (S754_finite s m e) = true ->
            SFmul prec emax (S754_finite s m e) (S754_finite false mc ec)
            = RS s (Z.pos m * Z.pos mc * 2 ^ (e + ec - e0)) 1 /\
            1 <= Z.pos m * Z.pos mc * 2 ^ (e + ec - e0)) as Hmul.
  { intros s m e (_ & He & _)%valid_canonical. split.
    - apply SFmul_finite; [done|unfold e0; lia].
    - assert (0 < 2 ^ (e + ec - e0)) by (apply Z.pow_pos_nonneg; unfold e0; lia).
      nia. }
  destruct D as [s|[]| |[] m e]; try done;
    destruct D' as [s'|[]| |[] m' e']; try done.
  - destruct (Hmul _ _ _ Hv') as [-> Hge]. split; [|by destruct s].
    apply zero_le_nonneg, RS_nonneg; lia.
  - destruct (Hmul _ _ _ Hv) as [-> Hge]. split.
    + assert (SFmul prec emax (S754_infinity false) (S754_finite false mc ec)
              = S754_infinity false) as -> by done.
      apply SFleb_Vx; [by apply RS_valid|done|by apply RS_not_nan|done|].
      pose proof (Vz_bound _ (RS_valid false _ 1 ltac:(lia) Hge)) as B.
      pose proof (RS_not_nan false _ 1 ltac:(lia) Hge) as N.
      destruct (RS false _ 1) as [|[]| |]; cbn [Vx Vz] in *; try done; lia.
    + apply zero_le_nonneg, RS_nonneg; lia.
  - destruct (Hmul _ _ _ Hv) as [-> Hge]. destruct (Hmul _ _ _ Hv') as [-> Hge'].
    split; [|apply zero_le_nonneg, RS_nonneg; lia].
    apply RS_mono; try lia.
    apply SFleb_Vz in Hle; try done. cbn [Vz cond_Zopp] in Hle.
    destruct (valid_canonical _ _ _ Hv) as (_ & He & _).
    destruct (valid_canonical _ _ _ Hv') as (_ & He' & _).
    destruct (pow2_split e ec) as [E1 E2]; try lia.
    destruct (pow2_split e' ec) as [E1' E2']; try lia.
    rewrite E1, E1' in Hle. rewrite E2, E2'.
    assert (0 < 2 ^ (ec + 1074) * 2 ^ 52) as Hk
      by (apply Z.mul_pos_pos; apply Z.pow_pos_nonneg; lia).
    assert (0 < 2 ^ 1126) as Hq by done.
    assert (0 < 2 ^ (e + 1074)) by (apply Z.pow_pos_nonneg; lia).
    assert (0 < 2 ^ (e' + 1074)) by (apply Z.pow_pos_nonneg; lia).
    generalize dependent (2 ^ 1126). generalize dependent (2 ^ (ec + 1074) * 2 ^ 52).
    generalize dependent (2 ^ (e + 1074)). generalize dependent (2 ^ (e' + 1074)).
    intros. rewrite !Z.mul_1_r. nia.
Qed.

Lemma mul_mono (c d d' : float) (mc : positive) (ec : Z) :
  Prim2SF c = S754_finite false mc ec -> 2 ^ 52 <= Z.pos mc ->
  (0 <=? d)%float = true -> (d <=? d')%float = true ->
  (d * c <=? d' * c)%float = true /\ (0 <=? d * c)%float = true.
Proof.
  intros Hc Hmc H0 Hle. rewrite !FloatAxioms.leb_spec, !mul_spec, Hc in *.
  apply SFmul_mono; try done; try apply Prim2SF_valid.
  rewrite <- Hc. apply Prim2SF_valid.
Qed.

(** *** Reading back the digits of [toFixed(2)] *)

Lemma div_eucl_div_mod (a b : Z) : Z.div_eucl a b = (a `div` b, a `mod` b).
Proof. unfold Z.div, Z.modulo. by destruct (Z.div_eucl a b). Qed.

Lemma new_location_100 (r : Z) : new_location 100 r = loc_of r 100.
Proof.
  unfold new_location, new_location_even, loc_of. cbn [Z.even].
  by destruct r.
Qed.

Lemma SFdiv_100 (s : bool) (n : positive) :
  SFdiv prec emax (S754_finite s n 0) (S754_finite false 100 0)
  = RS s (Z.pos n * 2 ^ (- e0)) 100.
Proof.
  unfold SFdiv, SFdiv_core_binary. rewrite xorb_false_r.
  change (Zdigits2 100) with 7. rewrite fexp_eq.
  pose proof (Zdigits2_bounds (Z.pos n) ltac:(lia)) as [Hlo Hhi].
  pose proof (Zdigits2_pos (Z.pos n) ltac:(lia)) as Hd.
  set (d1 := Zdigits2 (Z.pos n)) in *.
  set (e' := Z.min (Z.max (d1 + 0 - (7 + 0) - 53) (-1074)) (0 - 0)).
  assert (e' = Z.min (d1 - 60) 0) as He' by lia.
  set (m' := match 0 - 0 - e' with
             | 0 => Z.pos n
             | Z.pos _ => Z.shiftl (Z.pos n) (0 - 0 - e')
             | Z.neg _ => 0
             end).
  assert (m' = Z.pos n * 2 ^ (- e')) as Hm'.
  { unfold m'. replace (0 - 0 - e') with (- e') by lia.
    destruct (- e') as [|k|k] eqn:Hk; [lia| |lia].
    rewrite Z.shiftl_mul_pow2 by lia. done. }
  assert (2 ^ 59 <= m') as Hbig.
  { rewrite Hm'. destruct (Z.le_gt_cases 60 d1) as [Hge|Hlt].
    - replace (- e') with 0 by lia. rewrite Z.mul_1_r.
      assert (2 ^ 59 <= 2 ^ (d1 - 1)) by (apply Z.pow_le_mono_r; lia). lia.
    - replace (- e') with (60 - d1) by lia.
      assert (2 ^ 59 = 2 ^ (d1 - 1) * 2 ^ (60 - d1)) as ->
        by (rewrite <- Z.pow_add_r by lia; f_equal; lia).
      apply Z.mul_le_mono_nonneg_r; [apply Z.pow_nonneg|]; lia. }
  rewrite div_eucl_div_mod, new_location_100.
  assert (2 ^ 52 <= m' `div` 100) as Hq.
  { apply Z.div_le_lower_bound; lia. }
  rewrite (binary_round_aux_RS s _ _ _ m' 100).
  - f_equal. rewrite Hm', <- Z.mul_assoc, <- Z.pow_add_r by (unfold e0; lia).
    do 2 f_equal. lia.
  - unfold represents. repeat split; lia.
  - lia.
  - rewrite fexp_eq.
    assert (53 <= Zdigits2 (m' `div` 100)).
    { destruct (Z.le_gt_cases 53 (Zdigits2 (m' `div` 100))) as [?|Hlt]; [done|].
      pose proof (Zdigits2_bounds (m' `div` 100) ltac:(lia)) as [_ Hhi'].
      assert (2 ^ Zdigits2 (m' `div` 100) <= 2 ^ 52) by (apply Z.pow_le_mono_r; lia).
      lia. }
    lia.
  - unfold e0. lia.
Qed.

Lemma Prim2SF_decimal2 (s : bool) (n : positive) :
  Prim2SF (Js.decimal2 s n) = RS s (Z.pos n * units) 100.
Proof.
  unfold Js.decimal2, SF64div. rewrite SFdiv_100.
  apply Prim2SF_SF2Prim, RS_valid; [lia|].
  assert (100 <= 2 ^ (- e0)) by done. unfold units. nia.
Qed.

Lemma RS_scale (s : bool) (A B c : Z) :
  0 < B -> 0 < c -> RS s (A * c) (B * c) = RS s A B.
Proof.
  intros HB Hc. unfold RS. rewrite Z.div_mul_cancel_r by lia.
  set (E := fexp prec emax (Zdigits2 (A `div` B) + e0)).
  replace (B * c * 2 ^ (E - e0)) with (B * 2 ^ (E - e0) * c) by lia.
  assert (0 <= E - e0) as Hk by (unfold E; rewrite fexp_eq; unfold e0; lia).
  rewrite RNE_scale; [done| |done].
  apply Z.mul_pos_pos; [done|by apply Z.pow_pos_nonneg].
Qed.

Lemma RSZ_scale (A B c : Z) : 0 < B -> 0 < c -> RSZ (A * c) (B * c) = RSZ A B.
Proof.
  intros HB Hc. destruct A as [|p|p]; [done| |].
  - rewrite !RSZ_pos by lia. by apply RS_scale.
  - rewrite !RSZ_neg by lia. rewrite <- Z.mul_opp_l. by apply RS_scale.
Qed.

(** [toFixed_n] in units. *)
Lemma toFixed_n_units (m : positive) (e : Z) :
  -1074 <= e ->
  Js.toFixed_n m e = (200 * (Z.pos m * 2 ^ (e - e0)) + units) `div` (2 * units).
Proof.
  intros He. unfold Js.toFixed_n, units.
  assert (0 < 2 ^ (- e0)) as HU by done.
  destruct (Z.leb_spec 0 e) as [Hpos|Hneg].
  - assert (2 ^ (e - e0) = 2 ^ e * 2 ^ (- e0)) as ->
      by (rewrite <- Z.pow_add_r by (unfold e0; lia); f_equal; lia).
    apply Z.div_unique with (r := 2 ^ (- e0)); lia.
  - assert (2 ^ (- e0) = 2 ^ (- e) * 2 ^ (e - e0)) as ->
      by (rewrite <- Z.pow_add_r by (unfold e0; lia); f_equal; unfold e0; lia).
    assert (0 < 2 ^ (e - e0)) as Hk by (apply Z.pow_pos_nonneg; unfold e0; lia).
    replace (- e + 1) with (Z.succ (- e)) by lia. rewrite Z.pow_succ_r by lia.
    replace (200 * (Z.pos m * 2 ^ (e - e0)) + 2 ^ (- e) * 2 ^ (e - e0))
      with ((2 * (100 * Z.pos m) + 2 ^ (- e)) * 2 ^ (e - e0)) by lia.
    replace (2 * (2 ^ (- e) * 2 ^ (e - e0))) with (2 * 2 ^ (- e) * 2 ^ (e - e0)) by lia.
    rewrite Z.div_mul_cancel_r; [done| |lia].
    assert (0 < 2 ^ (- e)) by (apply Z.pow_pos_nonneg; lia). lia.
Qed.

Lemma units_pos : 100 <= units.
Proof. done. Qed.

Lemma toFixed_units_mono (V V' : Z) : V <= V' -> toFixed_units V <= toFixed_units V'.
Proof.
  intros Hle. unfold toFixed_units. pose proof units_pos as HU.
  assert (forall W, 0 <= W -> 0 <= (200 * W + units) `div` (2 * units)) as Hnn
    by (intros; apply Z.div_pos; lia).
  assert (forall W W', 0 <= W <= W' ->
            (200 * W + units) `div` (2 * units) <= (200 * W' + units) `div` (2 * units))
    as Hmono by (intros; apply Z.div_le_mono; lia).
  pose proof (Hnn (Z.abs V) ltac:(lia)) as HV.
  pose proof (Hnn (Z.abs V') ltac:(lia)) as HV'.
  destruct (Z.sgn_spec V) as [[? ->]|[[? ->]|[? ->]]],
    (Z.sgn_spec V') as [[? ->]|[[? ->]|[? ->]]]; try lia; try nia.
  - specialize (Hmono (Z.abs V) (Z.abs V') ltac:(lia)). nia.
  - specialize (Hmono (Z.abs V') (Z.abs V) ltac:(lia)). nia.
Qed.

Lemma toFixed_units_size (V : Z) :
  toFixed_units V = 0 \/ 100 <= Z.abs (toFixed_units V).
Proof.
  unfold toFixed_units. pose proof units_pos as HU.
  assert (0 <= (200 * Z.abs V + units) `div` (2 * units)) as Hnn
    by (apply Z.div_pos; lia).
  set (q := (200 * Z.abs V + units) `div` (2 * units)) in *.
  destruct (Z.eq_dec q 0) as [->|Hq]; [left; lia|].
  destruct (Z.sgn_spec V) as [[? ->]|[[? ->]|[? ->]]]; [right|by left|right].
  - rewrite Z.abs_eq; nia.
  - rewrite Z.abs_neq; nia.
Qed.

Lemma toFixed_units_whole (k : Z) : toFixed_units (k * units) = 100 * (k * units).
Proof.
  unfold toFixed_units. pose proof units_pos as HU.
  assert ((200 * Z.abs (k * units) + units) `div` (2 * units) = 100 * Z.abs k) as ->.
  { symmetry. apply Z.div_unique with (r := units); [lia|].
    rewrite Z.abs_mul, (Z.abs_eq units) by lia. lia. }
  rewrite Z.sgn_mul, (Z.sgn_pos units) by lia.
  destruct k; cbn [Z.sgn Z.abs]; lia.
Qed.

Lemma ge_1e21_exp (m : positive) (e : Z) :
  Z.pos m < 2 ^ 53 -> Js.ge_1e21 m e = true -> 0 < e.
Proof.
  intros Hm Hge. destruct (Z.lt_trichotomy e 0) as [Hneg|[->|Hpos]]; [| |done].
  - by rewrite (ge_1e21_small m e Hneg Hm) in Hge.
  - unfold Js.ge_1e21 in Hge. cbn in Hge. apply Z.leb_le in Hge.
    assert (2 ^ 53 < 10 ^ 21) by done. lia.
Qed.

(** [parseFloat(x.toFixed(2))] of a finite number, as a value. *)
Lemma toFixed2_val (x : float) :
  is_finite x = true ->
  is_nan (Js.toFixed2 x) = false /\
  val (Js.toFixed2 x) = Vx (RSZ (toFixed_units (val x)) 100).
Proof.
  intros Hx. rewrite (val_finite x Hx). pose proof (is_finite_not_nan x Hx) as Hn.
  unfold Js.toFixed2. pose proof (Prim2SF_valid x) as Hv.
  rewrite <- finite_or_zero_is_finite in Hx.
  destruct (Prim2SF x) as [s| | |s m e] eqn:EX; try done.
  destruct (valid_canonical _ _ _ Hv) as (_ & He & Hm).
  assert (0 < 2 ^ (e - e0)) as Hk by (apply Z.pow_pos_nonneg; unfold e0; lia).
  destruct (Js.ge_1e21 m e) eqn:Hge.
  - pose proof (ge_1e21_exp m e Hm Hge) as Hpos. split; [done|].
    assert (Vz (S754_finite s m e) = cond_Zopp s (Z.pos m * 2 ^ e) * units) as HV.
    { cbn [Vz]. unfold units.
      assert (2 ^ (e - e0) = 2 ^ e * 2 ^ (- e0)) as ->
        by (rewrite <- Z.pow_add_r by (unfold e0; lia); f_equal; lia).
      destruct s; cbn [cond_Zopp]; lia. }
    rewrite HV, toFixed_units_whole, <- HV.
    replace (100 * Vz (S754_finite s m e)) with (Vz (S754_finite s m e) * 100) by lia.
    rewrite (RSZ_scale _ 1 100) by lia.
    rewrite RSZ_Vx_representable by done. unfold val. by rewrite EX.
  - rewrite toFixed_n_units by lia. unfold toFixed_units.
    assert (Z.abs (Vz (S754_finite s m e)) = Z.pos m * 2 ^ (e - e0)) as ->.
    { cbn [Vz]. destruct s; cbn [cond_Zopp]; lia. }
    assert (0 <= (200 * (Z.pos m * 2 ^ (e - e0)) + units) `div` (2 * units)) as Hq.
    { pose proof units_pos. apply Z.div_pos; lia. }
    pose proof (Vz_sign s m e ltac:(unfold e0; lia)) as Hs.
    destruct ((200 * (Z.pos m * 2 ^ (e - e0)) + units) `div` (2 * units))
      as [|n|n]; [| |lia].
    + rewrite Z.mul_0_r. by destruct s.
    + assert (100 <= Z.pos n * units) as Hbig by (pose proof units_pos; nia).
      rewrite is_nan_spec. unfold val. rewrite Prim2SF_decimal2.
      pose proof (RS_not_nan s (Z.pos n * units) 100 ltac:(lia) Hbig) as Hnn.
      split; [by destruct (RS s _ 100)|].
      destruct s.
      * rewrite Z.sgn_neg by done. rewrite RSZ_neg by lia.
        do 2 f_equal; lia.
      * rewrite Z.sgn_pos by done. rewrite RSZ_pos by lia.
        do 2 f_equal; lia.
Qed.

Lemma toFixed2_infinite (x : float) : is_finite x = false -> Js.toFixed2 x = x.
Proof.
  intros Hx. unfold Js.toFixed2. rewrite <- finite_or_zero_is_finite in Hx.
  destruct (Prim2SF x) eqn:EX; try done.
  apply Prim2SF_inj. by rewrite EX.
Qed.

(** [parseFloat(x.toFixed(2))] grows with [x]. *)
Lemma toFixed2_mono (u u' : float) :
  (u <=? u')%float = true -> (Js.toFixed2 u <=? Js.toFixed2 u')%float = true.
Proof.
  intros Hle. destruct (leb_not_nan _ _ Hle) as [Hu Hu'].
  pose proof Hle as Hval. apply (leb_val _ _ Hu Hu') in Hval.
  destruct (is_finite u) eqn:Fu, (is_finite u') eqn:Fu'.
  - destruct (toFixed2_val u Fu) as [N1 V1]. destruct (toFixed2_val u' Fu') as [N2 V2].
    apply leb_val; try done. rewrite V1, V2.
    apply RSZ_Vx_mono; [lia| | |by apply toFixed_units_mono];
      apply toFixed_units_size.
  - rewrite (toFixed2_infinite u' Fu').
    destruct (toFixed2_val u Fu) as [N1 V1].
    pose proof (val_lt_top u Fu) as Bu.
    pose proof (val_infinite u' Hu' Fu') as I'.
    assert (val u' = top) as T'.
    { unfold val in *. rewrite I' in *. destruct (Vx _ <? 0) eqn:?; cbn [Vx] in *; lia. }
    apply leb_val; try done. rewrite T'. apply val_bound.
  - rewrite (toFixed2_infinite u Fu).
    destruct (toFixed2_val u' Fu') as [N2 V2].
    pose proof (val_lt_top u' Fu') as Bu'.
    pose proof (val_infinite u Hu Fu) as I.
    assert (val u = - top) as T.
    { unfold val in *. rewrite I in *. destruct (Vx _ <? 0) eqn:?; cbn [Vx] in *; lia. }
    apply leb_val; try done. rewrite T. apply val_bound.
  - by rewrite (toFixed2_infinite u Fu), (toFixed2_infinite u' Fu').
Qed.

(** *** [predictHorizon] *)

Lemma sub_infinite (x t : float) :
  is_finite x = true -> is_nan t = false -> is_finite t = false ->
  Prim2SF (x - t) = S754_infinity (negb (val t <? 0)).
Proof.
  intros Hx Hn Ht. rewrite sub_spec. unfold val.
  rewrite <- finite_or_zero_is_finite in Hx, Ht. rewrite is_nan_spec in Hn.
  by destruct (Prim2SF x) as [|[]| |], (Prim2SF t) as [|[]| |].
Qed.

Lemma val_top_cases (x : float) :
  is_nan x = false -> is_finite x = false -> val x = top \/ val x = - top.
Proof.
  intros Hn Hf. pose proof (val_infinite x Hn Hf) as I. unfold val in *.
  rewrite I. destruct (Vx _ <? 0); cbn [Vx]; lia.
Qed.

(** [x - t] falls as [t] grows, infinite [t] included. *)
Lemma sub_antitone_any (x t t' : float) (s : bool) (m : positive) (e : Z) :
  Prim2SF x = S754_finite s m e -> (t <=? t')%float = true ->
  (x - t' <=? x - t)%float = true.
Proof.
  intros Hx Hle. destruct (leb_not_nan _ _ Hle) as [Hn Hn'].
  assert (is_finite x = true) as Fx by (by rewrite is_finite_spec, Hx).
  assert (0 < top) as Htop by done.
  destruct (is_finite t) eqn:Ft, (is_finite t') eqn:Ft'.
  - by eapply sub_antitone.
  - pose proof (sub_infinite x t' Fx Hn' Ft') as E'.
    apply (leb_val _ _ Hn Hn') in Hle. pose proof (val_lt_top t Ft) as B.
    destruct (val_top_cases t' Hn' Ft') as [T|T]; [|lia].
    rewrite T in E'. cbn in E'.
    pose proof (sub_not_nan x t s m e Hx Ft) as N.
    apply leb_val; [by rewrite is_nan_spec, E'|done|].
    unfold val at 1. rewrite E'. cbn [Vx]. apply val_bound.
  - pose proof (sub_infinite x t Fx Hn Ft) as E.
    apply (leb_val _ _ Hn Hn') in Hle. pose proof (val_lt_top t' Ft') as B.
    destruct (val_top_cases t Hn Ft) as [T|T]; [lia|].
    rewrite T in E. cbn in E.
    pose proof (sub_not_nan x t' s m e Hx Ft') as N.
    apply leb_val; [done|by rewrite is_nan_spec, E|].
    unfold val at 2. rewrite E. cbn [Vx]. apply val_bound.
  - pose proof (sub_infinite x t Fx Hn Ft) as E.
    pose proof (sub_infinite x t' Fx Hn' Ft') as E'.
    apply (leb_val _ _ Hn Hn') in Hle.
    rewrite FloatAxioms.leb_spec, E, E'.
    destruct (val_top_cases t Hn Ft) as [T|T], (val_top_cases t' Hn' Ft') as [T'|T'];
      rewrite T, T'; try done. lia.
Qed.

Lemma leb_refl_not_nan (x : float) : is_nan x = false -> (x <=? x)%float = true.
Proof. intros Hn. apply leb_val; try done. Qed.

(** The surcharge [Math.max(0, 15 - t) * 0.35] is never negative and
    falls as [t] grows. *)
Lemma surcharge_antitone (t t' : float) :
  (t <=? t')%float = true ->
  (Js.Math_max 0 (15 - t') * 0.35 <=? Js.Math_max 0 (15 - t) * 0.35)%float = true /\
  (0 <=? Js.Math_max 0 (15 - t') * 0.35)%float = true.
Proof.
  intros Hle.
  pose proof (sub_antitone_any 15 t t' _ _ _ eq_refl Hle) as Hsub.
  destruct (Math_max_0_mono _ _ Hsub) as [Hmax Hpos].
  by apply (mul_mono 0.35 _ _ _ _ eq_refl).
Qed.

Lemma leb_trans (x y z : float) :
  (x <=? y)%float = true -> (y <=? z)%float = true -> (x <=? z)%float = true.
Proof.
  intros Hxy Hyz. destruct (leb_not_nan _ _ Hxy) as [Nx Ny].
  destruct (leb_not_nan _ _ Hyz) as [_ Nz].
  apply (leb_val _ _ Nx Ny) in Hxy. apply (leb_val _ _ Ny Nz) in Hyz.
  apply leb_val; try done. lia.
Qed.

(** X1. For a finite price and a temperature that is not NaN,
    [predictHorizon] is at least the price rounded to two decimals: the
    heating surcharge is never negative, and neither the sum nor the
    rounding to two decimals turns the order around. *)
Theorem predictHorizon_at_least_price (p t : float) :
  is_finite p = true -> is_nan t = false ->
  (Js.toFixed2 p <=? predictHorizon p t)%float = true.
Proof.
  intros Hp Ht. unfold predictHorizon.
  destruct (surcharge_antitone t t (leb_refl_not_nan t Ht)) as [_ Hpos].
  apply toFixed2_mono. by apply add_nonneg_ge.
Qed.

(** X3. For a finite price, [predictHorizon] does not grow with the
    temperature: [t <= t'] gives
    [predictHorizon p t' <= predictHorizon p t], on the binary64 numbers
    the code computes with, infinite temperatures included. *)
Theorem predictHorizon_antitone (p t t' : float) :
  is_finite p = true -> (t <=? t')%float = true ->
  (predictHorizon p t' <=? predictHorizon p t)%float = true.
Proof.
  intros Hp Hle. unfold predictHorizon.
  destruct (surcharge_antitone t t' Hle) as [Hmono _].
  apply toFixed2_mono. by apply add_mono.
Qed.

Lemma toFixed2_add_zero (p : float) : Js.toFixed2 (p + 0) = Js.toFixed2 p.
Proof.
  assert (Prim2SF (p + 0) = Prim2SF p \/
          (exists s s', Prim2SF (p + 0) = S754_zero s /\ Prim2SF p = S754_zero s'))
    as [E|(s & s' & E & E')].
  { rewrite add_spec. change (Prim2SF 0) with (S754_zero false).
    destruct (Prim2SF p) as [s|s| |s m e]; [right|left|left|left]; try done.
    exists false, s. by destruct s. }
  - by rewrite (Prim2SF_inj _ _ E).
  - unfold Js.toFixed2. by rewrite E, E'.
Qed.

(** X2. From 15 degrees on there is no surcharge: [predictHorizon] is
    the price rounded to two decimals, whatever the price. *)
Theorem predictHorizon_warm (p t : float) :
  (15 <=? t)%float = true -> predictHorizon p t = Js.toFixed2 p.
Proof.
  intros Hle. unfold predictHorizon.
  pose proof (sub_antitone_any 15 15 t _ _ _ eq_refl Hle) as Hsub.
  change (15 - 15)%float with 0%float in Hsub.
  destruct (leb_not_nan _ _ Hsub) as [Hn _].
  rewrite Math_max_0 by done.
  assert ((0 <? 15 - t)%float = false) as ->.
  { assert (is_nan 0 = false) as H0 by done.
    apply not_true_iff_false. rewrite (ltb_val 0 _ H0 Hn).
    apply (leb_val _ _ Hn H0) in Hsub. rewrite val_0 in *. lia. }
  change (0 * 0.35)%float with 0%float. apply toFixed2_add_zero.
Qed.

Lemma predictHorizon_at_least_price_demo :
  (Js.toFixed2 50 <=? predictHorizon 50 5)%float = true.
Proof. apply (predictHorizon_at_least_price 50 5); reflexivity. Defined.

Lemma predictHorizon_warm_demo : predictHorizon 50 15 = Js.toFixed2 50.
Proof. apply (predictHorizon_warm 50 15). reflexivity. Defined.

Lemma predictHorizon_antitone_demo :
  (predictHorizon 50 15 <=? predictHorizon 50 5)%float = true.
Proof. apply (predictHorizon_antitone 50 5 15); reflexivity. Defined.

(** C10. For a finite price and finite temperatures, [predictHorizon] is
    at least the price rounded to two decimals; it is that rounded price
    from 15 degrees on; and it does not grow with the temperature:
    [t <= t'] gives [predictHorizon p t' <= predictHorizon p t]. *)
Theorem predictHorizon_finite (p t t' : float) :
  is_finite p = true -> is_finite t = true -> is_finite t' = true ->
  (Js.toFixed2 p <=? predictHorizon p t)%float = true /\
  ((15 <=? t)%float = true -> predictHorizon p t = Js.toFixed2 p) /\
  ((t <=? t')%float = true ->
   (predictHorizon p t' <=? predictHorizon p t)%float = true).
Proof.
  intros Hp Ht Ht'.
  assert (is_nan t = false) as Hn.
  { rewrite is_finite_spec in Ht. rewrite is_nan_spec. by destruct (Prim2SF t). }
  split; [|split].
  - unfold predictHorizon.
    destruct (surcharge_antitone t t (leb_refl_not_nan t Hn)) as [_ Hpos].
    apply toFixed2_mono. by apply add_nonneg_ge.
  - intros Hle. unfold predictHorizon.
    pose proof (sub_antitone_any 15 15 t _ _ _ eq_refl Hle) as Hsub.
    change (15 - 15)%float with 0%float in Hsub.
    destruct (leb_not_nan _ _ Hsub) as [Hd _].
    rewrite Math_max_0 by done.
    assert ((0 <? 15 - t)%float = false) as ->.
    { assert (is_nan 0 = false) as H0 by done.
      apply not_true_iff_false. rewrite (ltb_val 0 _ H0 Hd).
      apply (leb_val _ _ Hd H0) in Hsub. rewrite val_0 in *. lia. }
    change (0 * 0.35)%float with 0%float. apply toFixed2_add_zero.
  - intros Hle. unfold predictHorizon.
    destruct (surcharge_antitone t t' Hle) as [Hmono _].
    apply toFixed2_mono. by apply add_mono.
Qed.

Lemma predictHorizon_finite_demo :
  (Js.toFixed2 50 <=? predictHorizon 50 5)%float = true /\
  predictHorizon 50 15 = Js.toFixed2 50 /\
  (predictHorizon 50 15 <=? predictHorizon 50 5)%float = true.
Proof.
  destruct (predictHorizon_finite 50 5 15 eq_refl eq_refl eq_refl) as (Hleast & _ & Hfalls).
  destruct (predictHorizon_finite 50 15 15 eq_refl eq_refl eq_refl) as (_ & Hwarm & _).
  split; [exact Hleast|]. split; [by apply Hwarm|by apply Hfalls].
Defined.

(** The surcharge at 5 degrees is [10 * 0.35]. *)
Example predictHorizon_50_5 : predictHorizon 50 5 = 53.5%float.
Proof. reflexivity. Qed.

(** * Signs of the metrics *)

(** ** What is never below zero

    [x < 0] is false: [x] is NaN, a zero, or positive. *)

Lemma binary_round_aux_sign (m e : Z) (l : location) :
  SFltb (binary_round_aux prec emax false m e l) (S754_zero false) = false.
Proof.
  unfold binary_round_aux.
  destruct (shr_fexp prec emax m e l) as [mrs' e'].
  destruct (shr_fexp prec emax _ e' loc_Exact) as [mrs'' e''].
  destruct (shr_m mrs'') as [|p|p]; [done| |done].
  by destruct (e'' <=? emax - prec).
Qed.

Lemma ltb_zero_spec (x : float) :
  (x <? 0)%float = SFltb (Prim2SF x) (S754_zero false).
Proof. by rewrite FloatAxioms.ltb_spec. Qed.

Lemma abs_not_negative (x : float) : (abs x <? 0)%float = false.
Proof.
  rewrite ltb_zero_spec, abs_spec. by destruct (Prim2SF x) as [[]|[]| |[] m e].
Qed.

Lemma square_not_negative (x : float) : (x * x <? 0)%float = false.
Proof.
  rewrite ltb_zero_spec, mul_spec.
  destruct (Prim2SF x) as [[]|[]| |[] m e]; try done;
    unfold SF64mul, SFmul; cbn [xorb]; apply binary_round_aux_sign.
Qed.

Lemma add_not_negative (x y : float) :
  (x <? 0)%float = false -> (y <? 0)%float = false -> (x + y <? 0)%float = false.
Proof.
  rewrite !ltb_zero_spec, add_spec.
  destruct (Prim2SF x) as [[]|[]| |[] mx ex]; try done;
    destruct (Prim2SF y) as [[]|[]| |[] my ey]; try done.
  intros _ _. unfold SF64add, SFadd, binary_normalize. cbn [cond_Zopp].
  destruct (shl_align mx ex _) as [mx' ex'], (shl_align my ey _) as [my' ey'].
  cbn [fst]. change (Z.pos mx' + Z.pos my') with (Z.pos (mx' + my')).
  cbn match. unfold binary_round.
  destruct (shl_align _ _ _) as [mz ez]. apply binary_round_aux_sign.
Qed.

(** The quotient by a divisor that is positive or NaN; a divisor [-0]
    would turn the sign. *)
Lemma div_not_negative (x y : float) :
  (x <? 0)%float = false -> (y <? 0)%float = false -> (y =? 0)%float = false ->
  (x / y <? 0)%float = false.
Proof.
  rewrite !ltb_zero_spec, FloatAxioms.eqb_spec, div_spec.
  change (Prim2SF 0) with (S754_zero false).
  destruct (Prim2SF x) as [[]|[]| |[] mx ex]; try done;
    destruct (Prim2SF y) as [[]|[]| |[] my ey]; try done.
  intros _ _ _. unfold SF64div, SFdiv. cbn [xorb].
  destruct (SFdiv_core_binary _ _ _ _ _ _) as [[mz ez] lz].
  apply binary_round_aux_sign.
Qed.

Lemma sqrt_not_negative (x : float) : (sqrt x <? 0)%float = false.
Proof.
  rewrite ltb_zero_spec, sqrt_spec.
  destruct (Prim2SF x) as [[]|[]| |[] m e]; try done.
  unfold SF64sqrt, SFsqrt.
  destruct (SFsqrt_core_binary _ _ _ _) as [[mz ez] lz].
  apply binary_round_aux_sign.
Qed.

Lemma sum_not_negative (l : list float) (acc : float) :
  (acc <? 0)%float = false -> Forall (fun v => (v <? 0)%float = false) l ->
  (fold_left (fun a v => a + v)%float l acc <? 0)%float = false.
Proof.
  intros Hacc H. revert acc Hacc.
  induction H as [|v l Hv _ IH]; intros acc Hacc; [done|].
  cbn. apply IH. by apply add_not_negative.
Qed.

(** ** Array lengths *)

Lemma Prim2SF_of_nat (n : nat) :
  Prim2SF (Js.of_nat n) = RSZ (Z.of_nat n * units) 1.
Proof.
  unfold Js.of_nat. rewrite binary_normalize_RSZ by done.
  assert (Z.of_nat n * units = 0 \/ 1 <= Z.abs (Z.of_nat n * units)) as Hsize.
  { pose proof units_pos. destruct n; [left; lia|right; nia]. }
  apply Prim2SF_SF2Prim. by apply RSZ_valid.
Qed.

(** A length of at least one is a number of at least [1]. *)
Lemma of_nat_ge_1 (n : nat) : (0 < n)%nat -> (1 <=? Js.of_nat n)%float = true.
Proof.
  intros Hn. rewrite FloatAxioms.leb_spec, Prim2SF_of_nat.
  assert (Prim2SF 1 = RSZ (1 * units) 1) as ->.
  { symmetry.
    destruct (RSZ_representable (Prim2SF 1) (Prim2SF_valid 1) eq_refl) as (_ & _ & Hr).
    exact (Hr _ _ _ eq_refl). }
  pose proof units_pos. apply RSZ_mono; [lia|right; nia|right; nia|nia].
Qed.

Lemma of_nat_pos (n : nat) : (0 < n)%nat -> (0 <? Js.of_nat n)%float = true.
Proof.
  intros Hn. pose proof (of_nat_ge_1 n Hn) as H.
  destruct (leb_not_nan _ _ H) as [N1 Nn].
  apply (leb_val _ _ N1 Nn) in H. apply ltb_val; try done.
  assert (0 < val 1) by done. rewrite val_0. lia.
Qed.

Lemma pos_not_negative (v : float) : (0 <? v)%float = true -> (v <? 0)%float = false.
Proof.
  rewrite !FloatAxioms.ltb_spec. change (Prim2SF 0) with (S754_zero false).
  by destruct (Prim2SF v) as [[]|[]| |[] m e].
Qed.

(** ** Order against a constant, NaN aside *)

Lemma not_ltb_cases (x y : float) :
  (x <? y)%float = false <->
  is_nan x = true \/ is_nan y = true \/ (y <=? x)%float = true.
Proof.
  destruct (is_nan x) eqn:Nx; [|destruct (is_nan y) eqn:Ny].
  - split; [by left|intros _].
    rewrite FloatAxioms.ltb_spec. rewrite is_nan_spec in Nx.
    by destruct (Prim2SF x).
  - split; [by right; left|intros _].
    rewrite FloatAxioms.ltb_spec. rewrite is_nan_spec in Ny.
    by destruct (Prim2SF x), (Prim2SF y).
  - rewrite <- not_true_iff_false, (ltb_val _ _ Nx Ny), (leb_val _ _ Ny Nx).
    split; [intros H; right; right; lia|].
    intros [H|[H|H]]; [done|done|lia].
Qed.

Lemma toFixed2_is_nan (x : float) : is_nan x = true -> Js.toFixed2 x = nan.
Proof.
  intros H. unfold Js.toFixed2. rewrite is_nan_spec in H.
  by destruct (Prim2SF x).
Qed.

(** Rounding to two decimals does not cross a number that is its own
    rounding. *)
Lemma toFixed2_not_below (c x : float) :
  Js.toFixed2 c = c -> (x <? c)%float = false -> (Js.toFixed2 x <? c)%float = false.
Proof.
  intros Hc. rewrite !not_ltb_cases. intros [H|[H|H]].
  - left. by rewrite (toFixed2_is_nan x H).
  - by right; left.
  - right; right. rewrite <- Hc at 1. by apply toFixed2_mono.
Qed.

Lemma toFixed2_not_above (c x : float) :
  Js.toFixed2 c = c -> (c <? x)%float = false -> (c <? Js.toFixed2 x)%float = false.
Proof.
  intros Hc. rewrite !not_ltb_cases. intros [H|[H|H]].
  - by left.
  - right; left. by rewrite (toFixed2_is_nan x H).
  - right; right. rewrite <- Hc. by apply toFixed2_mono.
Qed.

(** [1 - q] is not above [1] when [q] is not negative. *)
Lemma one_minus_not_above (q : float) :
  (q <? 0)%float = false -> (1 <? 1 - q)%float = false.
Proof.
  rewrite !not_ltb_cases. intros [H|[H|H]]; [|done|].
  - right; left. rewrite is_nan_spec in *. rewrite sub_spec.
    by destruct (Prim2SF q).
  - right; right. change 1%float with (1 - 0)%float at 2.
    by apply (sub_antitone_any 1 0 q _ _ _ eq_refl).
Qed.

(** ** The metrics *)

Lemma computeFoldMetrics_cons (slice : list PriceData) :
  let valid := List.filter hasActual slice in
  valid <> [] ->
  computeFoldMetrics slice
  = {| mae := (sumAbsoluteError valid / Js.of_nat (length valid))%float;
       rmse := sqrt (sumSquaredError valid / Js.of_nat (length valid));
       r2 := if (sumTotalVariance valid =? 0)%float then 0%float
             else (1 - sumSquaredError valid / sumTotalVariance valid)%float |}.
Proof.
  intros valid Hne. unfold computeFoldMetrics. fold valid.
  rewrite (errorSums_sums valid Hne). by destruct valid.
Qed.

Lemma sum_map_not_negative {A : Type} (f : A -> float) (l : list A) :
  (forall a, (f a <? 0)%float = false) -> (sum (map f l) <? 0)%float = false.
Proof.
  intros Hf. unfold sum. apply sum_not_negative; [done|].
  apply Forall_map, Forall_forall. intros a _. apply Hf.
Qed.

Lemma length_pos {A : Type} (l : list A) : l <> [] -> (0 < length l)%nat.
Proof. destruct l; [done|]. cbn. lia. Qed.

(** No metric of [computeFoldMetrics] is on the wrong side: MAE and RMSE
    are never negative, R² is never above [1]. *)
Lemma computeFoldMetrics_signs (slice : list PriceData) :
  (mae (computeFoldMetrics slice) <? 0)%float = false /\
  (rmse (computeFoldMetrics slice) <? 0)%float = false /\
  (1 <? r2 (computeFoldMetrics slice))%float = false.
Proof.
  destruct (List.filter hasActual slice) as [|p l] eqn:Hvalid.
  - unfold computeFoldMetrics. by rewrite Hvalid.
  - rewrite computeFoldMetrics_cons by (by rewrite Hvalid).
    rewrite Hvalid. set (valid := p :: l). cbn [mae rmse r2].
    pose proof (of_nat_pos (length valid) ltac:(cbn; lia)) as Hn.
    assert ((sumSquaredError valid <? 0)%float = false) as Hsq.
    { apply sum_map_not_negative. intros a. apply square_not_negative. }
    assert ((sumTotalVariance valid <? 0)%float = false) as Htv.
    { apply sum_map_not_negative. intros a. apply square_not_negative. }
    split; [|split].
    + apply div_not_negative; [|by apply pos_not_negative|by apply pos_neq_zero].
      apply sum_map_not_negative. intros a. apply abs_not_negative.
    + apply sqrt_not_negative.
    + destruct (sumTotalVariance valid =? 0)%float eqn:Hz; [done|].
      apply one_minus_not_above. by apply div_not_negative.
Qed.

(** X4. Whatever the points, the metrics [computeAggregateMetrics] reports
    are never on the wrong side: [mae < 0], [rmse < 0] and [r2 > 1] are all
    false (each metric is then a number on the right side, or NaN). *)
Theorem computeAggregateMetrics_signs (data : list PriceData) :
  (mae (computeAggregateMetrics data) <? 0)%float = false /\
  (rmse (computeAggregateMetrics data) <? 0)%float = false /\
  (1 <? r2 (computeAggregateMetrics data))%float = false.
Proof.
  unfold computeAggregateMetrics. cbn [mae rmse r2].
  destruct (computeFoldMetrics_signs (List.filter isHistorical data)) as (H1 & H2 & H3).
  split; [|split].
  - by apply (toFixed2_not_below 0).
  - by apply (toFixed2_not_below 0).
  - by apply (toFixed2_not_above 1).
Qed.

(** X5. The MAE and the RMSE of every fold [performTimeSeriesCV] returns
    are never negative. *)
Theorem performTimeSeriesCV_signs (data : list PriceData) :
  Forall (fun r => (cv_mae r <? 0)%float = false /\ (cv_rmse r <? 0)%float = false)
    (performTimeSeriesCV data).
Proof.
  unfold performTimeSeriesCV.
  destruct (length (List.filter isHistorical data) <? 12)%nat; [constructor|].
  destruct (length (List.filter isHistorical data) / (4 + 1) <? 2)%nat; [constructor|].
  apply Forall_map, Forall_forall. intros i _. unfold cvFold. cbn [cv_mae cv_rmse].
  match goal with
  | |- context [computeFoldMetrics ?s] =>
      destruct (computeFoldMetrics_signs s) as (H1 & H2 & _)
  end.
  split; by apply (toFixed2_not_below 0).
Qed.

Lemma filter_hasActual_isHistorical (data : list PriceData) :
  List.filter hasActual (List.filter isHistorical data) = List.filter isHistorical data.
Proof.
  induction data as [|p data IH]; [done|]. cbn.
  destruct (isHistorical p) eqn:Hp; [|done]. cbn.
  unfold isHistorical in Hp. apply andb_prop in Hp as [-> _]. by rewrite IH.
Qed.

Lemma sumAbsoluteError_exact (valid : list PriceData) :
  Forall (fun point => is_finite (actualOf point) = true /\
                       predictedPrice point = actualOf point) valid ->
  sumAbsoluteError valid = 0%float.
Proof.
  intros H. unfold sumAbsoluteError, sum. apply sum_zeros_from; [reflexivity|].
  apply Forall_map. eapply Forall_impl; [exact H|].
  intros point [Hfin ->]. cbn. by rewrite sub_diag_finite.
Qed.

(** X6. When every scored historical point is predicted exactly (its
    [predictedPrice] is its finite [actualPrice]), [computeAggregateMetrics]
    reports an MAE and an RMSE of [0]. *)
Theorem computeAggregateMetrics_exact (data : list PriceData) :
  Forall (fun point => is_finite (actualOf point) = true /\
                       predictedPrice point = actualOf point)
    (List.filter isHistorical data) ->
  mae (computeAggregateMetrics data) = 0%float /\
  rmse (computeAggregateMetrics data) = 0%float.
Proof.
  intros Hexact. unfold computeAggregateMetrics. cbn [mae rmse].
  destruct (List.filter isHistorical data) as [|p l] eqn:Hhist.
  - by split.
  - rewrite computeFoldMetrics_cons;
      rewrite <- Hhist, filter_hasActual_isHistorical, Hhist; [|done].
    cbn [mae rmse].
    rewrite (sumAbsoluteError_exact _ Hexact), (sumSquaredError_exact _ Hexact).
    pose proof (of_nat_pos (length (p :: l)) ltac:(cbn; lia)) as Hn.
    by rewrite (zero_div_pos _ Hn).
Qed.

Lemma computeAggregateMetrics_exact_demo :
  mae (computeAggregateMetrics exactSeries) = 0%float /\
  rmse (computeAggregateMetrics exactSeries) = 0%float.
Proof.
  apply (computeAggregateMetrics_exact exactSeries). by repeat constructor.
Defined.

(** X21. The rounding of the reported metrics never reverses a comparison:
    when a raw metric of [computeFoldMetrics] on the historical points of
    one series is at most that of another, so is the metric
    [computeAggregateMetrics] reports, for MAE, RMSE and R² alike. *)
Theorem computeAggregateMetrics_order (data data' : list PriceData) :
  let raw := computeFoldMetrics (List.filter isHistorical data) in
  let raw' := computeFoldMetrics (List.filter isHistorical data') in
  ((mae raw <=? mae raw')%float = true ->
   (mae (computeAggregateMetrics data) <=? mae (computeAggregateMetrics data'))%float
   = true) /\
  ((rmse raw <=? rmse raw')%float = true ->
   (rmse (computeAggregateMetrics data) <=? rmse (computeAggregateMetrics data'))%float
   = true) /\
  ((r2 raw <=? r2 raw')%float = true ->
   (r2 (computeAggregateMetrics data) <=? r2 (computeAggregateMetrics data'))%float
   = true).
Proof.
  intros raw raw'. unfold computeAggregateMetrics. cbn [mae rmse r2].
  repeat split; apply toFixed2_mono.
Qed.

(** ** R² *)

Lemma computeAggregateMetrics_cons (data : list PriceData) :
  let historical := List.filter isHistorical data in
  historical <> [] ->
  computeAggregateMetrics data
  = {| mae := Js.toFixed2 (sumAbsoluteError historical / Js.of_nat (length historical));
       rmse := Js.toFixed2
                 (sqrt (sumSquaredError historical / Js.of_nat (length historical)));
       r2 := Js.toFixed2
               (if (sumTotalVariance historical =? 0)%float then 0%float
                else (1 - sumSquaredError historical / sumTotalVariance historical)%float) |}.
Proof.
  intros historical Hne. unfold computeAggregateMetrics. fold historical.
  rewrite computeFoldMetrics_cons;
    unfold historical; rewrite filter_hasActual_isHistorical; done.
Qed.

(** With every prediction equal to its finite actual price and a variance
    above zero, the R² of the formula is [1]. *)
Lemma r2_exact (valid : list PriceData) :
  Forall (fun point => is_finite (actualOf point) = true /\
                       predictedPrice point = actualOf point) valid ->
  (0 <? sumTotalVariance valid)%float = true ->
  (if (sumTotalVariance valid =? 0)%float then 0%float
   else (1 - sumSquaredError valid / sumTotalVariance valid)%float) = 1%float.
Proof.
  intros Hexact Hvar.
  rewrite (pos_neq_zero _ Hvar), (sumSquaredError_exact _ Hexact).
  by rewrite (zero_div_pos _ Hvar).
Qed.

Lemma positive_variance_ne (valid : list PriceData) :
  (0 <? sumTotalVariance valid)%float = true -> valid <> [].
Proof. intros Hvar ->. discriminate Hvar. Qed.

(** C7, as the code has it.  [computeFoldMetrics] takes the points of a
    slice that have an actual price: its R² is
    [1 - ΣSquaredError / ΣTotalVariance], the variance taken against the
    mean of those actual prices, and [0] when that variance is [0]; with
    no such point MAE, RMSE and R² are [0].  [computeAggregateMetrics]
    reports the same three metrics of the historical points, each rounded
    to two decimals, so its R² is the rounded value of the formula.  When
    every prediction equals its finite actual price and the variance is
    above zero, R² is [1] from both. *)
Theorem computeAggregateMetrics_r2 (slice data : list PriceData) :
  let valid := List.filter hasActual slice in
  let historical := List.filter isHistorical data in
  (valid = [] -> computeFoldMetrics slice = {| mae := 0; rmse := 0; r2 := 0 |}) /\
  (valid <> [] ->
   mae (computeFoldMetrics slice)
   = (sumAbsoluteError valid / Js.of_nat (length valid))%float /\
   rmse (computeFoldMetrics slice)
   = sqrt (sumSquaredError valid / Js.of_nat (length valid)) /\
   r2 (computeFoldMetrics slice)
   = if (sumTotalVariance valid =? 0)%float then 0%float
     else (1 - sumSquaredError valid / sumTotalVariance valid)%float) /\
  (Forall (fun point => is_finite (actualOf point) = true /\
                        predictedPrice point = actualOf point) valid ->
   (0 <? sumTotalVariance valid)%float = true ->
   r2 (computeFoldMetrics slice) = 1%float) /\
  (historical = [] ->
   computeAggregateMetrics data = {| mae := 0; rmse := 0; r2 := 0 |}) /\
  (historical <> [] ->
   mae (computeAggregateMetrics data)
   = Js.toFixed2 (sumAbsoluteError historical / Js.of_nat (length historical)) /\
   rmse (computeAggregateMetrics data)
   = Js.toFixed2 (sqrt (sumSquaredError historical / Js.of_nat (length historical))) /\
   r2 (computeAggregateMetrics data)
   = Js.toFixed2
       (if (sumTotalVariance historical =? 0)%float then 0%float
        else (1 - sumSquaredError historical / sumTotalVariance historical)%float)) /\
  ((sumTotalVariance historical =? 0)%float = true ->
   r2 (computeAggregateMetrics data) = 0%float) /\
  (Forall (fun point => is_finite (actualOf point) = true /\
                        predictedPrice point = actualOf point) historical ->
   (0 <? sumTotalVariance historical)%float = true ->
   r2 (computeAggregateMetrics data) = 1%float).
Proof.
  intros valid historical.
  split; [|split; [|split; [|split; [|split; [|split]]]]].
  - intros Hnil. unfold computeFoldMetrics. fold valid. by rewrite Hnil.
  - intros Hne. by rewrite (computeFoldMetrics_cons slice Hne).
  - intros Hexact Hvar.
    rewrite (computeFoldMetrics_cons slice (positive_variance_ne _ Hvar)).
    by apply r2_exact.
  - intros Hnil. unfold computeAggregateMetrics, computeFoldMetrics.
    rewrite filter_hasActual_isHistorical. unfold historical in Hnil. by rewrite Hnil.
  - intros Hne. by rewrite (computeAggregateMetrics_cons data Hne).
  - intros Hzero. unfold historical in Hzero. clear historical.
    destruct (List.filter isHistorical data) as [|p l] eqn:Hhist.
    + unfold computeAggregateMetrics, computeFoldMetrics.
      by rewrite filter_hasActual_isHistorical, Hhist.
    + rewrite computeAggregateMetrics_cons by (by rewrite Hhist).
      rewrite Hhist. cbn [r2]. by rewrite Hzero.
  - intros Hexact Hvar.
    rewrite (computeAggregateMetrics_cons data (positive_variance_ne _ Hvar)).
    cbn [r2]. fold historical. by rewrite r2_exact.
Qed.

Lemma computeAggregateMetrics_r2_demo :
  r2 (computeFoldMetrics exactSeries) = 1%float /\
  r2 (computeAggregateMetrics exactSeries) = 1%float /\
  r2 (computeFoldMetrics roundedSeries) = 0.945%float /\
  r2 (computeAggregateMetrics roundedSeries) = Js.toFixed2 0.945.
Proof.
  destruct (computeAggregateMetrics_r2 exactSeries exactSeries)
    as (_ & _ & Hfold & _ & _ & _ & Hall).
  destruct (computeAggregateMetrics_r2 roundedSeries roundedSeries)
    as (_ & Hraw & _ & _ & Hrounded & _).
  split; [|split; [|split]].
  - apply Hfold; [by repeat constructor|reflexivity].
  - apply Hall; [by repeat constructor|reflexivity].
  - apply Hraw. discriminate.
  - apply Hrounded. discriminate.
Defined.

(** C7 as stated fails in two places.  The R² that
    [computeAggregateMetrics] reports is rounded: [0.94] where the formula
    gives [0.945]. And exact predictions do not give [1] at an infinite
    price: the variance is NaN, which is not [0], and so is R². *)
Lemma computeAggregateMetrics_r2_rounded :
  let historical := List.filter isHistorical roundedSeries in
  (sumTotalVariance historical =? 0)%float = false /\
  (1 - sumSquaredError historical / sumTotalVariance historical)%float = 0.945%float /\
  r2 (computeAggregateMetrics roundedSeries) = 0.94%float /\
  r2 (computeAggregateMetrics roundedSeries)
  <> (1 - sumSquaredError historical / sumTotalVariance historical)%float /\
  Forall (fun point => predictedPrice point = actualOf point)
    (List.filter hasActual infiniteSeries) /\
  (sumTotalVariance (List.filter hasActual infiniteSeries) =? 0)%float = false /\
  is_nan (r2 (computeFoldMetrics infiniteSeries)) = true /\
  r2 (computeFoldMetrics infiniteSeries) <> 1%float.
Proof.
  repeat split; try reflexivity.
  - intros H. apply (f_equal Prim2SF) in H. vm_compute in H. discriminate H.
  - by repeat constructor.
  - intros H. apply (f_equal Prim2SF) in H. vm_compute in H. discriminate H.
Qed.

(** * The engine, from outside *)

Section EngineUse.
Variable Date_parse : string -> option Z.

(** X7. [toHourIso] never raises.  It returns the empty string exactly
    when the input is no valid date, and otherwise the ISO string of the
    top of the UTC hour the date falls in: a whole number of hours, at most
    the date and less than an hour before it, and itself a valid time
    value. *)
Theorem toHourIso_floor (dateInput : string) :
  match Date_of_string Date_parse dateInput with
  | None => toHourIso Date_parse dateInput = Ok (RawString "")
  | Some t =>
      exists h, toHourIso Date_parse dateInput = Ok (IsoString h) /\
                h `mod` msPerHour = 0 /\ h <= t < h + msPerHour /\
                Z.abs h <= maxTimeValue
  end.
Proof.
  rewrite toHourIso_Ok. unfold hourKey, hourOf.
  destruct (Date_of_string Date_parse dateInput) as [t|] eqn:Hd; [|done].
  cbn. exists (msPerHour * (t `div` msPerHour)). split; [done|].
  apply Date_of_string_Some in Hd.
  pose proof (hour_floor_in_range t Hd) as Hr.
  assert (0 < msPerHour) as Hpos by done.
  pose proof (Z.div_mod t msPerHour ltac:(lia)) as Hdm.
  pose proof (Z.mod_pos_bound t msPerHour Hpos) as Hm.
  repeat split; try lia.
  rewrite Z.mul_comm. apply Z.mod_mul. lia.
Qed.

(** X8. [generatePriceFromWeather] returns, with one record per sample,
    exactly when every sample is predictable: its time is a valid date and
    24 hours before the top of its hour is still a time value.  On any
    other list it raises a RangeError, whatever the spot prices and the
    model. *)
Theorem generatePriceFromWeather_returns (weatherData : list FmiDataPoint)
  (spotPrices : list SpotPricePoint) (modelType : string) :
  (Forall (predictable Date_parse) weatherData ->
   exists out,
     generatePriceFromWeather Date_parse weatherData spotPrices modelType = Ok out /\
     length out = length weatherData) /\
  (~ Forall (predictable Date_parse) weatherData ->
   generatePriceFromWeather Date_parse weatherData spotPrices modelType
   = Throw RangeError).
Proof.
  assert (Permutation (sortedWeatherOf Date_parse weatherData) weatherData) as Hperm
    by apply Array_sort_Permutation.
  split.
  - intros Hall.
    destruct (proj2 (generatePriceFromWeather_Ok_iff Date_parse weatherData
                       spotPrices modelType)) as [out Hout].
    { by rewrite Hperm. }
    exists out. split; [done|].
    apply generatePriceFromWeather_records in Hout.
    apply Forall2_length in Hout. rewrite <- Hout. by rewrite Hperm.
  - intros Hno. apply not_Forall_Exists in Hno; [|intros obs; apply predictable_dec].
    apply Exists_exists in Hno as (obs & Hin & Hobs).
    apply (generatePriceFromWeather_Throw Date_parse _ _ _ obs); [|done].
    by rewrite Hperm.
Qed.

(** Samples in the order of their times. *)
Local Abbreviation earlier :=
  (fun a b : FmiDataPoint =>
     forall x y, timeValue Date_parse a = Some x -> timeValue Date_parse b = Some y ->
                 x <= y).





(** X10. A model name that is none of the three names of [modelWeights]
    and no property inherited from [Object.prototype] selects the
    Gradient Boosting weights: the engine returns what it returns for
    ['Gradient Boosting']. *)
Theorem generatePriceFromWeather_unknown_model (weatherData : list FmiDataPoint)
  (spotPrices : list SpotPricePoint) (modelType : string) :
  modelType ∉ ["Linear Regression"; "Random Forest"; "Gradient Boosting"]%string ->
  modelType ∉ Object_prototype_keys ->
  generatePriceFromWeather Date_parse weatherData spotPrices modelType
  = generatePriceFromWeather Date_parse weatherData spotPrices "Gradient Boosting".
Proof.
  intros Hown Hproto. apply generatePriceFromWeather_fallback.
  by apply modelWeights_None.
Qed.

(** [marketPriceMap]: under each hour, the price of the last entry the
    loop kept for it. *)
Lemma marketPriceMap_last (spotPrices : list SpotPricePoint) :
  (forall h, fold_left (marketPriceInsert Date_parse) spotPrices ∅ !! IsoString h
             = price <$> last (List.filter (spotInHour Date_parse h) spotPrices)) /\
  (forall s, fold_left (marketPriceInsert Date_parse) spotPrices ∅ !! RawString s = None).
Proof.
  induction spotPrices as [|sp l [IHh IHs]] using rev_ind; [done|].
  rewrite fold_left_app. cbn [fold_left]. unfold marketPriceInsert at 1 3.
  rewrite hourKey_truthy. unfold hourKey.
  split.
  - intros h. rewrite List.filter_app. cbn [List.filter]. unfold spotInHour at 2.
    destruct (hourOf Date_parse (spot_timestamp sp)) as [h'|] eqn:Hh; cbn [andb].
    + destruct (Js.Number_isFinite (price sp)) eqn:Hfin.
      * destruct (decide (h' = h)) as [->|Hne].
        -- rewrite lookup_insert_eq, bool_decide_eq_true_2 by done.
           cbn [andb]. by rewrite last_snoc.
        -- rewrite lookup_insert_ne by congruence.
           rewrite bool_decide_eq_false_2 by congruence.
           cbn [andb]. rewrite app_nil_r. apply IHh.
      * rewrite andb_false_r, app_nil_r. apply IHh.
    + rewrite bool_decide_eq_false_2 by done. cbn [andb]. rewrite app_nil_r. apply IHh.
  - intros s.
    destruct (hourOf Date_parse (spot_timestamp sp)) as [h'|] eqn:Hh; cbn [andb];
      [|apply IHs].
    destruct (Js.Number_isFinite (price sp)); [|apply IHs].
    rewrite lookup_insert_ne by done. apply IHs.
Qed.

(** X11. When several spot entries fall in the same UTC hour, the last one
    with a finite price counts: the [actualPrice] of an observed sample is
    the price of the last such entry of its hour, rounded to two decimals,
    and [undefined] when there is none or the sample is a forecast. *)
Theorem actualPrice_last_entry (weatherData : list FmiDataPoint)
  (spotPrices : list SpotPricePoint) (modelType : string) (out : list PriceData) :
  generatePriceFromWeather Date_parse weatherData spotPrices modelType = Ok out ->
  Forall2
    (fun obs r =>
       exists h, hourOf Date_parse (time obs) = Some h /\
         actualPrice r
         = if isForecast obs then None
           else (fun point => Js.toFixed2 (price point))
                  <$> last (List.filter (spotInHour Date_parse h) spotPrices))
    (sortedWeatherOf Date_parse weatherData) out.
Proof.
  intros Hout. apply generatePriceFromWeather_records in Hout.
  eapply Forall2_impl; [exact Hout|].
  intros obs r (h & raw & Hh & _ & Hactual & _). exists h. split; [done|].
  rewrite Hactual. destruct (isForecast obs); [done|].
  destruct (marketPriceMap_last spotPrices) as [-> _].
  by destruct (last _).
Qed.

End EngineUse.


Lemma generatePriceFromWeather_unknown_model_demo :
  generatePriceFromWeather IsoParse.parse demoWeather demoSpots "XGBoost"
  = generatePriceFromWeather IsoParse.parse demoWeather demoSpots "Gradient Boosting".
Proof.
  apply (generatePriceFromWeather_unknown_model IsoParse.parse demoWeather demoSpots
           "XGBoost").
  - apply (bool_decide_unpack _). vm_compute. exact I.
  - apply (bool_decide_unpack _). vm_compute. exact I.
Defined.

Lemma actualPrice_last_entry_demo :
  Forall2
    (fun obs r =>
       exists h, hourOf IsoParse.parse (time obs) = Some h /\
         actualPrice r
         = if isForecast obs then None
           else (fun point => Js.toFixed2 (price point))
                  <$> last (List.filter (spotInHour IsoParse.parse h) demoSpots))
    (sortedWeatherOf IsoParse.parse demoWeather) demoOutput.
Proof.
  apply (actualPrice_last_entry IsoParse.parse demoWeather demoSpots
           "Gradient Boosting" demoOutput).
  reflexivity.
Defined.

(** Of two entries in the same hour the later one is the actual price. *)
Example actualPrice_repeated_spots :
  map actualPrice
    <$> generatePriceFromWeather IsoParse.parse zeroPriceWeather repeatedSpots
          "Gradient Boosting"
  = Ok [Some 44%float].
Proof. reflexivity. Qed.

(** * The fitted parts of the engine *)

Section Profile.
Variable Date_parse : string -> option Z.

Lemma groupStep_lookup (pairs : list HistoricalPair)
  (grouped : gmap (option Z) (list float)) (h : Z) :
  default [] (fold_left (groupStep Date_parse) pairs grouped !! Some h)
  = default [] (grouped !! Some h)
    ++ map hp_price (List.filter (pairInHour Date_parse h) pairs).
Proof.
  revert grouped. induction pairs as [|p pairs IH]; intros grouped.
  - by rewrite app_nil_r.
  - cbn [fold_left List.filter]. rewrite IH. unfold groupStep.
    destruct (pairInHour Date_parse h p) eqn:Hp; unfold pairInHour in Hp.
    + apply bool_decide_eq_true in Hp. rewrite Hp, lookup_insert_eq.
      cbn. by rewrite <- app_assoc.
    + apply bool_decide_eq_false in Hp. by rewrite lookup_insert_ne.
Qed.

Lemma profile_lookup (f : Z -> float) (hours : list Z) (profile : gmap Z float)
  (h : Z) :
  fold_left (fun profile hour => <[hour := f hour]> profile) hours profile !! h
  = if bool_decide (h ∈ hours) then Some (f h) else profile !! h.
Proof.
  revert profile. induction hours as [|k hours IH]; intros profile; [done|].
  cbn [fold_left]. rewrite IH.
  destruct (decide (h ∈ hours)) as [Hin|Hnin].
  - rewrite !bool_decide_eq_true_2; [done|by right|done].
  - rewrite (bool_decide_eq_false_2 _ Hnin).
    destruct (decide (h = k)) as [->|Hne].
    + rewrite lookup_insert_eq, bool_decide_eq_true_2; [done|by left].
    + rewrite lookup_insert_ne, bool_decide_eq_false_2; [done| |done].
      rewrite elem_of_cons. tauto.
Qed.

Lemma elem_of_hours (h : Z) : h ∈ map Z.of_nat (seq 0 24) <-> 0 <= h < 24.
Proof.
  rewrite list_elem_of_fmap. split.
  - intros (n & -> & Hn). apply elem_of_seq in Hn. lia.
  - intros Hh. exists (Z.to_nat h). split; [lia|]. apply elem_of_seq. lia.
Qed.

(** X12. [buildHourlyProfile] has an entry for each hour 0..23 of the day
    and no other: the mean of the prices of the pairs whose timestamp falls
    in that UTC hour, taken in the order of the list, which is [0] for an
    hour without pairs. *)
Theorem buildHourlyProfile_lookup (pairs : list HistoricalPair) (h : Z) :
  buildHourlyProfile Date_parse pairs !! h
  = if bool_decide (0 <= h < 24)
    then Some (mean (map hp_price (List.filter (pairInHour Date_parse h) pairs)))
    else None.
Proof.
  unfold buildHourlyProfile. rewrite profile_lookup.
  pose proof (elem_of_hours h) as Hin.
  destruct (decide (0 <= h < 24)) as [Hh|Hh].
  - rewrite !bool_decide_eq_true_2 by tauto.
    rewrite groupStep_lookup. by rewrite lookup_empty.
  - rewrite !bool_decide_eq_false_2 by tauto. apply lookup_empty.
Qed.

End Profile.

(** ** [estimateTemperatureBeta] *)

Lemma Math_min_val (a x : float) :
  is_nan a = false -> is_nan x = false ->
  is_nan (Js.Math_min a x) = false /\
  val (Js.Math_min a x) = Z.min (val a) (val x).
Proof.
  intros Ha Hx. unfold Js.Math_min. rewrite Ha, Hx. cbn [orb].
  destruct (a <? x)%float eqn:H1.
  - apply (ltb_val _ _ Ha Hx) in H1. split; [done|lia].
  - apply not_true_iff_false in H1. rewrite (ltb_val _ _ Ha Hx) in H1.
    destruct (x <? a)%float eqn:H2.
    + apply (ltb_val _ _ Hx Ha) in H2. split; [done|lia].
    + apply not_true_iff_false in H2. rewrite (ltb_val _ _ Hx Ha) in H2.
      destruct (get_sign a); split; try done; lia.
Qed.

Lemma Math_max_val (a x : float) :
  is_nan a = false -> is_nan x = false ->
  is_nan (Js.Math_max a x) = false /\
  val (Js.Math_max a x) = Z.max (val a) (val x).
Proof.
  intros Ha Hx. unfold Js.Math_max. rewrite Ha, Hx. cbn [orb].
  destruct (a <? x)%float eqn:H1.
  - apply (ltb_val _ _ Ha Hx) in H1. split; [done|lia].
  - apply not_true_iff_false in H1. rewrite (ltb_val _ _ Ha Hx) in H1.
    destruct (x <? a)%float eqn:H2.
    + apply (ltb_val _ _ Hx Ha) in H2. split; [done|lia].
    + apply not_true_iff_false in H2. rewrite (ltb_val _ _ Hx Ha) in H2.
      destruct (get_sign a); split; try done; lia.
Qed.

(** [Math.max(lo, Math.min(hi, x))] for [lo <= hi]: NaN stays NaN, any
    other number lands in [lo, hi]. *)
Lemma clamp_range (lo hi x : float) :
  (lo <=? hi)%float = true ->
  let c := Js.Math_max lo (Js.Math_min hi x) in
  if is_nan x then c = nan
  else ((lo <=? c)%float && (c <=? hi)%float) = true.
Proof.
  intros Hle c. destruct (leb_not_nan _ _ Hle) as [Nlo Nhi].
  apply (leb_val _ _ Nlo Nhi) in Hle.
  destruct (is_nan x) eqn:Hx.
  - unfold c. by rewrite (Math_min_nan _ _ Hx), (Math_max_nan _ nan).
  - destruct (Math_min_val hi x Nhi Hx) as [N1 V1].
    destruct (Math_max_val lo _ Nlo N1) as [N2 V2]. fold c in N2, V2.
    apply andb_true_intro. split; apply leb_val; try done; lia.
Qed.

(** X13. Whatever the pairs, [estimateTemperatureBeta] returns NaN or a
    number of [-2.5, 6]. *)
Theorem estimateTemperatureBeta_range (pairs : list HistoricalPair) (comfort : float) :
  is_nan (estimateTemperatureBeta pairs comfort) = true \/
  ((-2.5 <=? estimateTemperatureBeta pairs comfort)%float
   && (estimateTemperatureBeta pairs comfort <=? 6)%float) = true.
Proof.
  unfold estimateTemperatureBeta.
  destruct (length pairs <? 2)%nat; [by right|].
  destruct (fold_left _ _ _) as [covariance variance].
  destruct (variance =? 0)%float; [by right|].
  pose proof (clamp_range (-2.5) 6 (covariance / variance) eq_refl) as H.
  cbv zeta in H. destruct (is_nan (covariance / variance)).
  - left. by rewrite H.
  - by right.
Qed.

(** From the comfort temperature on there is no heating demand. *)
Lemma heatingDemand_warm (t : float) :
  (15 <=? t)%float = true -> heatingDemand 15 t = 0%float.
Proof.
  intros Hle. unfold heatingDemand.
  pose proof (sub_antitone_any 15 15 t _ _ _ eq_refl Hle) as Hsub.
  change (15 - 15)%float with 0%float in Hsub.
  destruct (leb_not_nan _ _ Hsub) as [Hn _].
  rewrite Math_max_0 by done.
  assert (is_nan 0 = false) as H0 by done.
  assert ((0 <? 15 - t)%float = false) as ->; [|done].
  apply not_true_iff_false. rewrite (ltb_val 0 _ H0 Hn).
  apply (leb_val _ _ Hn H0) in Hsub. rewrite val_0 in *. lia.
Qed.

Lemma betaStep_no_demand (priceMean : float) (l : list (float * float))
  (covariance : float) :
  Forall (fun dp => dp.1 = 0%float) l ->
  (fold_left (betaStep 0 priceMean) l (covariance, 0%float)).2 = 0%float.
Proof.
  intros H. revert covariance.
  induction H as [|[d p] l Hd _ IH]; intros covariance; [done|].
  cbn in Hd. subst d. cbn [fold_left]. unfold betaStep at 2. cbn [fst snd].
  change (0 + (0 - 0) * (0 - 0))%float with 0%float. apply IH.
Qed.

Lemma mean_zeros (l : list float) : Forall (fun v => v = 0%float) l -> mean l = 0%float.
Proof.
  intros H. destruct l as [|v l]; [done|]. unfold mean, sum.
  rewrite (sum_zeros_from _ _ eq_refl H).
  apply zero_div_pos, of_nat_pos. cbn. lia.
Qed.

(** X14. When no historical temperature is below the comfort temperature
    of 15 degrees, there is no heating demand to regress on and
    [estimateTemperatureBeta] returns [0]. *)
Theorem estimateTemperatureBeta_warm (pairs : list HistoricalPair) :
  Forall (fun point => (comfortTemp <=? hp_temperature point)%float = true) pairs ->
  estimateTemperatureBeta pairs comfortTemp = 0%float.
Proof.
  intros Hwarm. unfold estimateTemperatureBeta.
  destruct (length pairs <? 2)%nat; [done|].
  assert (Forall (fun v => v = 0%float)
            (map (fun point => heatingDemand comfortTemp (hp_temperature point)) pairs))
    as Hzero.
  { apply Forall_map. eapply Forall_impl; [exact Hwarm|].
    intros point. apply heatingDemand_warm. }
  rewrite (mean_zeros _ Hzero).
  pose proof (betaStep_no_demand (mean (map hp_price pairs))
                (combine (map (fun point => heatingDemand comfortTemp (hp_temperature point))
                            pairs) (map hp_price pairs)) 0) as Hvar.
  destruct (fold_left _ _ _) as [covariance variance]. cbn [snd] in Hvar.
  rewrite Hvar; [done|].
  clear Hvar. revert Hzero. generalize (map hp_price pairs).
  generalize (map (fun point => heatingDemand comfortTemp (hp_temperature point)) pairs).
  intros ds. induction ds as [|d ds IH]; intros ps Hz; [constructor|].
  destruct ps as [|p ps]; [constructor|].
  apply Forall_cons in Hz as [Hd Hz]. constructor; [done|]. by apply IH.
Qed.

Lemma estimateTemperatureBeta_warm_demo :
  estimateTemperatureBeta
    [{| hp_timestamp := IsoString 1704067200000; hp_temperature := 18; hp_price := 40 |};
     {| hp_timestamp := IsoString 1704070800000; hp_temperature := 21; hp_price := 55 |}]
    comfortTemp
  = 0%float.
Proof. apply estimateTemperatureBeta_warm. by repeat constructor. Defined.

(** ** The engine without spot prices *)

Lemma finite_le_MAX_VALUE (t : float) :
  is_finite t = true ->
  (- MAX_VALUE <=? t)%float = true /\ (t <=? MAX_VALUE)%float = true.
Proof.
  intros Ht. pose proof (is_finite_not_nan t Ht) as Hn.
  assert (is_nan MAX_VALUE = false) as N1 by done.
  assert (is_nan (- MAX_VALUE) = false) as N2 by done.
  assert (- val MAX_VALUE <= val t <= val MAX_VALUE) as Hb.
  { rewrite (val_finite t Ht). pose proof (Prim2SF_valid t) as Hv.
    rewrite <- finite_or_zero_is_finite in Ht.
    assert (val MAX_VALUE = (2 ^ 53 - 1) * 2 ^ (971 - e0)) as ->
      by (vm_compute; reflexivity).
    assert (0 < 2 ^ (971 - e0)) as HK by (vm_compute; reflexivity).
    assert (0 < 2 ^ 53 - 1) as H53 by (vm_compute; reflexivity).
    destruct (Prim2SF t) as [s| | |s m e]; try done.
    destruct (valid_canonical _ _ _ Hv) as (_ & He & Hm).
    assert (0 < 2 ^ (e - e0)) as Hp by (apply Z.pow_pos_nonneg; unfold e0; lia).
    assert (2 ^ (e - e0) <= 2 ^ (971 - e0)) as Hpe by (apply Z.pow_le_mono_r; lia).
    cbn [Vz]. destruct s; cbn [cond_Zopp]; nia. }
  assert (val (- MAX_VALUE) = - val MAX_VALUE) as Hneg by (vm_compute; reflexivity).
  split.
  - apply leb_val; [exact N2|exact Hn|]. rewrite Hneg. apply Hb.
  - apply leb_val; [exact Hn|exact N1|]. apply Hb.
Qed.

Lemma between_finite (lo hi x : float) :
  is_finite lo = true -> is_finite hi = true ->
  (lo <=? x)%float = true -> (x <=? hi)%float = true -> is_finite x = true.
Proof.
  intros Flo Fhi Hlo Hhi.
  destruct (leb_not_nan _ _ Hlo) as [Nlo Nx]. destruct (leb_not_nan _ _ Hhi) as [_ Nhi].
  apply (leb_val _ _ Nlo Nx) in Hlo. apply (leb_val _ _ Nx Nhi) in Hhi.
  pose proof (val_lt_top lo Flo). pose proof (val_lt_top hi Fhi).
  destruct (is_finite x) eqn:Fx; [done|].
  destruct (val_top_cases x Nx Fx); lia.
Qed.

(** The heating demand of a finite temperature is finite. *)
Lemma heatingDemand_finite (t : float) :
  is_finite t = true -> is_finite (heatingDemand comfortTemp t) = true.
Proof.
  intros Ht. destruct (finite_le_MAX_VALUE t Ht) as [Hlo Hhi].
  pose proof (sub_antitone_any 15 _ _ _ _ _ eq_refl Hlo) as H1.
  pose proof (sub_antitone_any 15 _ _ _ _ _ eq_refl Hhi) as H2.
  assert (is_finite (15 - t) = true) as Hy.
  { apply (between_finite (15 - MAX_VALUE) (15 - - MAX_VALUE)); done. }
  unfold heatingDemand, comfortTemp.
  rewrite Math_max_0 by (by apply is_finite_not_nan).
  by destruct (0 <? 15 - t)%float.
Qed.

Lemma sub_zero_finite (d : float) : is_finite d = true -> is_finite (d - 0) = true.
Proof.
  rewrite !is_finite_spec, sub_spec. change (Prim2SF 0) with (S754_zero false).
  by destruct (Prim2SF d) as [[]|[]| |[] m e].
Qed.

Lemma add_zero_mul (x c : float) :
  is_finite x = true -> (x =? 0)%float = false -> is_finite c = true ->
  (x + 0 * c)%float = x.
Proof.
  intros Hx Hz Hc. apply Prim2SF_inj. rewrite add_spec, mul_spec.
  rewrite is_finite_spec in Hx, Hc. rewrite FloatAxioms.eqb_spec in Hz.
  change (Prim2SF 0) with (S754_zero false) in *.
  by destruct (Prim2SF x) as [[]|[]| |[] m e], (Prim2SF c) as [[]|[]| |[] mc ec].
Qed.

Lemma selectWeights_own (modelType : string) :
  modelType ∉ Object_prototype_keys ->
  selectWeights modelType ∈ [LinearRegression; RandomForest; GradientBoosting].
Proof.
  intros Hproto. unfold selectWeights, modelWeights.
  repeat (destruct (decide _); [set_solver|]). set_solver.
Qed.

(** With every lag and mean at [30] and no temperature slope, each of the
    three rows of weights predicts [30]. *)
Lemma predicted_flat (env : Fitted) (centeredDemand : float) :
  weights env ∈ [LinearRegression; RandomForest; GradientBoosting] ->
  globalMean env = 30%float -> tempBeta env = 0%float ->
  is_finite centeredDemand = true ->
  clampPrice (predictedRawOf env 30 30 30 centeredDemand) = 30%float.
Proof.
  intros Hw Hg Hb Hc. unfold predictedRawOf. rewrite Hg, Hb.
  repeat (apply elem_of_cons in Hw as [->|Hw]); [| | |by apply elem_of_nil in Hw].
  - cbn [w_lag1 w_lag24 w_hour w_mean w_temp LinearRegression].
    change (0.9 * 0)%float with 0%float.
    rewrite add_zero_mul; [|vm_compute; reflexivity..|exact Hc].
    vm_compute. reflexivity.
  - cbn [w_lag1 w_lag24 w_hour w_mean w_temp RandomForest].
    change (1.05 * 0)%float with 0%float.
    rewrite add_zero_mul; [|vm_compute; reflexivity..|exact Hc].
    vm_compute. reflexivity.
  - cbn [w_lag1 w_lag24 w_hour w_mean w_temp GradientBoosting].
    change (1.15 * 0)%float with 0%float.
    rewrite add_zero_mul; [|vm_compute; reflexivity..|exact Hc].
    vm_compute. reflexivity.
Qed.

Section ColdStart.
Variable Date_parse : string -> option Z.

Lemma mapM_state_inv {S A B : Type} (f : S -> A -> result (S * B))
  (Inv : S -> Prop) (g : A -> B) (l : list A) :
  Forall (fun a => forall s, Inv s -> exists s', f s a = Ok (s', g a) /\ Inv s') l ->
  forall s, Inv s -> mapM_state f s l = Ok (map g l).
Proof.
  induction 1 as [|a l Ha _ IH]; intros s Hs; [done|].
  cbn. destruct (Ha s Hs) as (s' & -> & Hs'). cbn. by rewrite (IH s' Hs').
Qed.

(** One pass of the callback on a predictable sample, written out. *)
Lemma predictPoint_eq (env : Fitted) (st : LagState) (obs : FmiDataPoint) (h : Z) :
  hourOf Date_parse (time obs) = Some h -> - maxTimeValue <= h - 24 * msPerHour ->
  let predicted :=
    clampPrice
      (predictedRawOf env
         (default (prevPrice st) (lagHistory st !! IsoString (h - msPerHour)))
         (default (globalMean env) (lagHistory st !! IsoString (h - 24 * msPerHour)))
         (hourMeanOf env (Some ((h `div` msPerHour) `mod` 24)))
         (heatingDemand comfortTemp (fmi_temperature obs) - avgDemand env)) in
  let actual :=
    if negb (isForecast obs) then Js.toFixed2 <$> marketPriceMap env !! IsoString h
    else None in
  predictPoint Date_parse env st obs
  = Ok ({| lagHistory := <[IsoString h := default predicted actual]> (lagHistory st);
           prevPrice := default predicted actual |},
        {| timestamp := IsoString h;
           actualPrice := actual;
           predictedPrice := predicted;
           temperature := fmi_temperature obs;
           isFuture := isForecast obs |}).
Proof.
  intros Hh Hlow. unfold predictPoint. rewrite toHourIso_Ok. unfold hourKey.
  rewrite Hh. pose proof (hourOf_in_range _ _ _ Hh) as Hclip.
  pose proof Hclip as [_ Habs]%TimeClip_Some.
  assert (0 < msPerHour) as Hms by done.
  cbn. rewrite Hclip. cbn. rewrite !TimeClip_in_range by lia. reflexivity.
Qed.

(** The state of the loop when every realized price so far is [30]. *)
Local Abbreviation flat st :=
  (prevPrice st = 30%float /\
   forall k v, lagHistory st !! k = Some v -> v = 30%float).

Lemma predictPoint_flat (env : Fitted) (st : LagState) (obs : FmiDataPoint) :
  marketPriceMap env = ∅ -> globalMean env = 30%float ->
  (forall hour, 0 <= hour < 24 -> hourlyProfile env !! hour = Some 0%float) ->
  avgDemand env = 0%float -> tempBeta env = 0%float ->
  weights env ∈ [LinearRegression; RandomForest; GradientBoosting] ->
  predictable Date_parse obs -> is_finite (fmi_temperature obs) = true ->
  flat st ->
  exists st', predictPoint Date_parse env st obs = Ok (st', flatRecord Date_parse obs) /\
              flat st'.
Proof.
  intros Hmap Hmean Hprofile Havg Hbeta Hw Hobs Hfin [Hprev Hlag].
  assert (forall k d, d = 30%float -> default d (lagHistory st !! k) = 30%float) as Hdef.
  { intros k d ->. destruct (lagHistory st !! k) as [v|] eqn:Hk; [|done].
    cbn. by apply Hlag in Hk. }
  unfold predictable in Hobs. unfold flatRecord, hourKey.
  destruct (hourOf Date_parse (time obs)) as [h|] eqn:Hh; [|done].
  rewrite (predictPoint_eq env st obs h Hh Hobs). cbv zeta.
  assert (0 < msPerHour) as Hms by done.
  rewrite (Hdef _ _ Hprev), (Hdef _ _ Hmean).
  assert (hourMeanOf env (Some ((h `div` msPerHour) `mod` 24)) = 30%float) as ->.
  { unfold hourMeanOf. cbn. rewrite Hprofile by (apply Z.mod_pos_bound; lia).
    cbn. done. }
  rewrite Havg.
  rewrite predicted_flat;
    [|done..|by apply sub_zero_finite, heatingDemand_finite].
  rewrite Hmap, lookup_empty.
  assert ((if negb (isForecast obs) then Js.toFixed2 <$> @None float else None) = None)
    as -> by (by destruct (isForecast obs)).
  cbn [default]. eexists. split; [reflexivity|]. cbn. split; [done|].
  intros k v. destruct (decide (k = IsoString h)) as [->|Hne].
  - rewrite lookup_insert_eq. by intros [= <-].
  - rewrite lookup_insert_ne by done. apply Hlag.
Qed.

Lemma fit_no_spot_prices (weatherData : list FmiDataPoint) (modelType : string) :
  fit Date_parse weatherData [] modelType
  = Ok {| marketPriceMap := ∅;
          globalMean := 30;
          hourlyProfile := buildHourlyProfile Date_parse [];
          avgDemand := 0;
          tempBeta := 0;
          weights := selectWeights modelType |}.
Proof.
  unfold fit. rewrite buildMarketPriceMap_Ok. cbn [fold_left].
  change (Ok ∅ ≫= ?f) with (f (∅ : gmap jsstring float)). cbv beta.
  rewrite buildHistoricalPairs_Ok.
  assert (forall l, omap (historicalEntryOf Date_parse ∅) l = []) as ->.
  { induction l as [|obs l IH]; [done|]. cbn. unfold historicalEntryOf at 1.
    by rewrite lookup_empty. }
  reflexivity.
Qed.

Lemma buildHourlyProfile_nil (hour : Z) :
  0 <= hour < 24 -> buildHourlyProfile Date_parse [] !! hour = Some 0%float.
Proof.
  intros Hh. unfold buildHourlyProfile. rewrite profile_lookup.
  rewrite bool_decide_eq_true_2 by (by apply elem_of_hours). done.
Qed.

(** X15. Without spot prices (the default argument), a model name that is
    no property inherited from [Object.prototype], and samples that are
    predictable and have finite temperatures, every record of
    [generatePriceFromWeather] has no [actualPrice] and the
    [predictedPrice] 30, whatever the temperatures are: there is nothing
    to fit, the temperature slope is [0], and each row of weights sends the
    default mean of 30 to 30. *)
Theorem generatePriceFromWeather_no_spot_prices (weatherData : list FmiDataPoint)
  (modelType : string) :
  modelType ∉ Object_prototype_keys ->
  Forall (predictable Date_parse) weatherData ->
  Forall (fun obs => is_finite (fmi_temperature obs) = true) weatherData ->
  generatePriceFromWeather Date_parse weatherData [] modelType
  = Ok (map (flatRecord Date_parse) (sortedWeatherOf Date_parse weatherData)).
Proof.
  intros Hmodel Hpred Hfin. unfold generatePriceFromWeather.
  rewrite fit_no_spot_prices.
  change (Ok ?env ≫= ?f) with (f env). cbv beta.
  apply (mapM_state_inv _ (fun st => flat st)); [|by split].
  assert (Permutation (sortedWeatherOf Date_parse weatherData) weatherData) as Hperm
    by apply Array_sort_Permutation.
  rewrite Hperm. apply Forall_forall. intros obs Hin st Hst.
  apply predictPoint_flat; try done.
  - apply buildHourlyProfile_nil.
  - by apply selectWeights_own.
  - by eapply Forall_forall in Hpred.
  - by eapply Forall_forall in Hfin.
Qed.

End ColdStart.

Lemma generatePriceFromWeather_no_spot_prices_demo :
  generatePriceFromWeather IsoParse.parse demoWeather [] "Random Forest"
  = Ok (map (flatRecord IsoParse.parse) (sortedWeatherOf IsoParse.parse demoWeather)).
Proof.
  apply (generatePriceFromWeather_no_spot_prices IsoParse.parse demoWeather
           "Random Forest").
  - apply (bool_decide_unpack _). vm_compute. exact I.
  - repeat constructor; vm_compute; discriminate.
  - by repeat constructor.
Defined.

(** ** What the engine reads of its arguments *)

Section Reads.
Variable Date_parse : string -> option Z.

(** X16. The records of [generatePriceFromWeather] are the samples in
    sorted order, one for one: each record carries the temperature of its
    sample and has [isFuture] exactly when the sample is a forecast, so no
    sample is dropped, repeated or merged. *)
Theorem generatePriceFromWeather_fields (weatherData : list FmiDataPoint)
  (spotPrices : list SpotPricePoint) (modelType : string) (out : list PriceData) :
  generatePriceFromWeather Date_parse weatherData spotPrices modelType = Ok out ->
  map temperature out = map fmi_temperature (sortedWeatherOf Date_parse weatherData) /\
  map isFuture out = map isForecast (sortedWeatherOf Date_parse weatherData) /\
  Permutation (map temperature out) (map fmi_temperature weatherData).
Proof.
  intros Hout. apply generatePriceFromWeather_records in Hout.
  assert (map temperature out
          = map fmi_temperature (sortedWeatherOf Date_parse weatherData) /\
          map isFuture out = map isForecast (sortedWeatherOf Date_parse weatherData))
    as [Ht Hf].
  { induction Hout as [|obs r l out' (h & raw & _ & _ & _ & _ & Ht & Hf) _ [IHt IHf]];
      [done|].
    cbn. by rewrite Ht, Hf, IHt, IHf. }
  split; [done|]. split; [done|].
  rewrite Ht. apply Permutation_map, Array_sort_Permutation.
Qed.

(** The engine reads its spot prices through [marketPriceMap] only. *)
Lemma generatePriceFromWeather_marketPriceMap (weatherData : list FmiDataPoint)
  (spotPrices spotPrices' : list SpotPricePoint) (modelType : string) :
  fold_left (marketPriceInsert Date_parse) spotPrices ∅
  = fold_left (marketPriceInsert Date_parse) spotPrices' ∅ ->
  generatePriceFromWeather Date_parse weatherData spotPrices modelType
  = generatePriceFromWeather Date_parse weatherData spotPrices' modelType.
Proof.
  intros Hmap. unfold generatePriceFromWeather, fit.
  by rewrite !buildMarketPriceMap_Ok, Hmap.
Qed.

Lemma marketPriceMap_ext (spotPrices spotPrices' : list SpotPricePoint) :
  (forall h, price <$> last (List.filter (spotInHour Date_parse h) spotPrices)
             = price <$> last (List.filter (spotInHour Date_parse h) spotPrices')) ->
  fold_left (marketPriceInsert Date_parse) spotPrices ∅
  = fold_left (marketPriceInsert Date_parse) spotPrices' ∅.
Proof.
  intros Hlast. apply map_eq. intros [h|s].
  - destruct (marketPriceMap_last Date_parse spotPrices) as [-> _].
    destruct (marketPriceMap_last Date_parse spotPrices') as [-> _]. apply Hlast.
  - destruct (marketPriceMap_last Date_parse spotPrices) as [_ ->].
    by destruct (marketPriceMap_last Date_parse spotPrices') as [_ ->].
Qed.

(** X17. Spot entries that [marketPriceMap] does not keep do not count:
    leaving out every entry whose timestamp is no valid date or whose
    price is not finite changes nothing in what the engine returns. *)
Theorem generatePriceFromWeather_ignores_invalid_spots
  (weatherData : list FmiDataPoint) (spotPrices : list SpotPricePoint)
  (modelType : string) :
  generatePriceFromWeather Date_parse weatherData
    (List.filter (fun point => bool_decide (is_Some (hourOf Date_parse (spot_timestamp point)))
                               && Js.Number_isFinite (price point)) spotPrices)
    modelType
  = generatePriceFromWeather Date_parse weatherData spotPrices modelType.
Proof.
  apply generatePriceFromWeather_marketPriceMap, marketPriceMap_ext. intros h.
  do 2 f_equal. induction spotPrices as [|sp l IH]; [done|].
  cbn [List.filter].
  destruct (spotInHour Date_parse h sp) eqn:Hin.
  - assert (bool_decide (is_Some (hourOf Date_parse (spot_timestamp sp)))
            && Js.Number_isFinite (price sp) = true) as ->.
    { unfold spotInHour in Hin. apply andb_prop in Hin as [Hh ->].
      apply bool_decide_eq_true in Hh. rewrite Hh.
      by rewrite bool_decide_eq_true_2 by (by eexists). }
    cbn [List.filter]. by rewrite Hin, IH.
  - destruct (_ && _); [|done]. cbn [List.filter]. by rewrite Hin.
Qed.

(** X18. The order of the spot entries counts only within an hour: when
    no two entries with a finite price fall in the same UTC hour, the
    engine returns the same on every permutation of the spot prices. *)
Theorem generatePriceFromWeather_spot_order (weatherData : list FmiDataPoint)
  (spotPrices spotPrices' : list SpotPricePoint) (modelType : string) :
  Permutation spotPrices spotPrices' ->
  (forall h, length (List.filter (spotInHour Date_parse h) spotPrices) <= 1)%nat ->
  generatePriceFromWeather Date_parse weatherData spotPrices' modelType
  = generatePriceFromWeather Date_parse weatherData spotPrices modelType.
Proof.
  intros Hperm Hone.
  apply generatePriceFromWeather_marketPriceMap, marketPriceMap_ext. intros h.
  assert (Permutation (List.filter (spotInHour Date_parse h) spotPrices')
            (List.filter (spotInHour Date_parse h) spotPrices)) as Hp.
  { symmetry. clear Hone. induction Hperm as [|x l l' _ IH|x y l|l l' l'' _ IH _ IH'].
    - done.
    - cbn. destruct (spotInHour Date_parse h x); [by constructor|done].
    - cbn. destruct (spotInHour Date_parse h x), (spotInHour Date_parse h y);
        try done. apply perm_swap.
    - by etrans. }
  specialize (Hone h).
  destruct (List.filter (spotInHour Date_parse h) spotPrices) as [|x [|y l]].
  - by apply Permutation_nil_r in Hp as ->.
  - by apply Permutation_singleton_r in Hp as ->.
  - cbn in Hone. lia.
Qed.

End Reads.

Lemma generatePriceFromWeather_fields_demo :
  map temperature demoOutput
  = map fmi_temperature (sortedWeatherOf IsoParse.parse demoWeather) /\
  map isFuture demoOutput = map isForecast (sortedWeatherOf IsoParse.parse demoWeather) /\
  Permutation (map temperature demoOutput) (map fmi_temperature demoWeather).
Proof.
  apply (generatePriceFromWeather_fields IsoParse.parse demoWeather demoSpots
           "Gradient Boosting" demoOutput).
  reflexivity.
Defined.

Lemma generatePriceFromWeather_spot_order_demo :
  generatePriceFromWeather IsoParse.parse demoWeather (rev demoSpots) "Random Forest"
  = generatePriceFromWeather IsoParse.parse demoWeather demoSpots "Random Forest".
Proof.
  apply (generatePriceFromWeather_spot_order IsoParse.parse demoWeather demoSpots
           (rev demoSpots) "Random Forest").
  - apply Permutation_rev.
  - intros h. unfold demoSpots. cbn [List.filter]. unfold spotInHour. cbn [spot_timestamp spotAt].
    change (hourOf IsoParse.parse "2024-01-01T00:00:00.000Z") with (Some 1704067200000).
    change (hourOf IsoParse.parse "2024-01-01T01:00:00.000Z") with (Some 1704070800000).
    destruct (decide (h = 1704067200000)) as [->|H0];
      [|destruct (decide (h = 1704070800000)) as [->|H1]].
    + vm_compute. lia.
    + vm_compute. lia.
    + rewrite !bool_decide_eq_false_2 by congruence. cbn. lia.
Defined.

(** * The spot-price timeline *)

(** ** A stable sort on keys *)

Section SortKeys.
Context {A : Type} (key : A -> option Z) (cmp : A -> A -> comparison).
Hypothesis cmp_key :
  forall a b x y, key a = Some x -> key b = Some y -> cmp a b = (x ?= y).

Local Abbreviation key_le :=
  (fun a b : A => forall x y, key a = Some x -> key b = Some y -> x <= y).

Lemma sort_insert_key_sorted (a : A) (l : list A) :
  is_Some (key a) -> Forall (fun b => is_Some (key b)) l ->
  StronglySorted key_le l -> StronglySorted key_le (sort_insert cmp a l).
Proof.
  intros [x Ha] Hvalid Hsorted.
  induction Hsorted as [|b l Hsorted IH Hb]; cbn.
  - repeat constructor.
  - apply Forall_cons in Hvalid as [[y Hyb] Hvalid].
    rewrite (cmp_key a b x y Ha Hyb).
    destruct (Z.compare_spec x y) as [Hxy|Hxy|Hxy].
    + constructor; [by constructor|]. constructor.
      * intros x' y'. rewrite Ha, Hyb. intros [= <-] [= <-]. lia.
      * eapply Forall_impl; [exact Hb|]. intros c Hc x' z.
        rewrite Ha. intros [= <-] Hz. specialize (Hc y z Hyb Hz). lia.
    + constructor; [by constructor|]. constructor.
      * intros x' y'. rewrite Ha, Hyb. intros [= <-] [= <-]. lia.
      * eapply Forall_impl; [exact Hb|]. intros c Hc x' z.
        rewrite Ha. intros [= <-] Hz. specialize (Hc y z Hyb Hz). lia.
    + constructor; [by apply IH|].
      eapply Permutation_Forall; [symmetry; apply sort_insert_Permutation|].
      constructor; [|done].
      intros y' x'. rewrite Ha, Hyb. intros [= <-] [= <-]. lia.
Qed.

Lemma Array_sort_key_sorted (l : list A) :
  Forall (fun b => is_Some (key b)) l -> StronglySorted key_le (Array_sort cmp l).
Proof.
  induction 1 as [|a l Ha Hl IH]; [constructor|].
  rewrite Array_sort_cons. apply sort_insert_key_sorted; [done| |done].
  eapply Permutation_Forall; [symmetry; apply Array_sort_Permutation|done].
Qed.

(** The sort is stable: the elements of one key stay in their order. *)
Lemma filter_sort_insert (h : Z) (a : A) (l : list A) :
  is_Some (key a) -> Forall (fun b => is_Some (key b)) l ->
  List.filter (fun b => bool_decide (key b = Some h)) (sort_insert cmp a l)
  = List.filter (fun b => bool_decide (key b = Some h)) (a :: l).
Proof.
  intros [x Ha] Hvalid. induction Hvalid as [|b l [y Hyb] _ IH]; [done|].
  cbn [sort_insert]. rewrite (cmp_key a b x y Ha Hyb).
  destruct (Z.compare_spec x y) as [Hxy|Hxy|Hxy]; [done|done|].
  cbn [List.filter] in *. rewrite IH.
  destruct (decide (x = h)) as [->|Hx].
  - rewrite (bool_decide_eq_false_2 (key b = Some h)); [done|].
    rewrite Hyb. intros [= ->]. lia.
  - rewrite (bool_decide_eq_false_2 (key a = Some h)); [done|].
    rewrite Ha. congruence.
Qed.

Lemma filter_Array_sort (h : Z) (l : list A) :
  Forall (fun b => is_Some (key b)) l ->
  List.filter (fun b => bool_decide (key b = Some h)) (Array_sort cmp l)
  = List.filter (fun b => bool_decide (key b = Some h)) l.
Proof.
  induction 1 as [|a l Ha Hl IH]; [done|].
  rewrite Array_sort_cons, filter_sort_insert; [|done|].
  - cbn [List.filter]. by rewrite IH.
  - eapply Permutation_Forall; [symmetry; apply Array_sort_Permutation|done].
Qed.

End SortKeys.

(** ** [fetchFinlandSpotPriceTimeline] *)

Section Timeline.
Variable Date_parse : string -> option Z.
Variable Date_text : Z -> string.
Variable StringToNumber : string -> float.

Local Abbreviation spotKey :=
  (fun point : SpotPricePoint =>
     getTime (Date_of_string Date_parse (spot_timestamp point))).

(** What the [map] callback keeps of an entry, read as [rawSpot] reads
    it. *)
Local Abbreviation keptOf now :=
  (fun raw : SpotPricePoint =>
     match hourOf Date_parse (spot_timestamp raw) with
     | Some h =>
         if Js.Number_isFinite (price raw)
         then Some {| spot_timestamp := Date_text h;
                      price := price raw;
                      spot_isFuture := isAfter Date_parse now (Date_text h) |}
         else None
     | None => None
     end).

Lemma rawSpot_timestamp (entry : LatestPrice) (raw : SpotPricePoint) :
  rawSpot StringToNumber entry = Ok raw -> spot_timestamp raw = startDate entry.
Proof.
  unfold rawSpot. destruct (Number StringToNumber (lp_price entry)); [|done].
  by intros [= <-].
Qed.

Lemma spotPointOf_Ok (now : Z) (entry : LatestPrice) (raw : SpotPricePoint) :
  rawSpot StringToNumber entry = Ok raw ->
  spotPointOf Date_parse Date_text StringToNumber now entry = Ok (keptOf now raw).
Proof.
  unfold rawSpot, spotPointOf. rewrite toHourIso_Ok. cbn.
  destruct (Number StringToNumber (lp_price entry)) as [x|]; [|done].
  intros [= <-]. cbn. unfold hourKey.
  destruct (hourOf Date_parse (startDate entry)) as [h|]; cbn; [|done].
  by destruct (Js.Number_isFinite x).
Qed.

(** The callback raises what [Number] raises, and nothing else. *)
Lemma spotPointOf_Throw (now : Z) (entry : LatestPrice) (e : exn) :
  rawSpot StringToNumber entry = Throw e ->
  spotPointOf Date_parse Date_text StringToNumber now entry = Throw e.
Proof.
  unfold rawSpot, spotPointOf. rewrite toHourIso_Ok. cbn.
  destruct (Number StringToNumber (lp_price entry)); cbn.
  - intros H. discriminate H.
  - by intros [= ->].
Qed.

Lemma mapM_spotPointOf (now : Z) (prices : list LatestPrice) :
  mapM (spotPointOf Date_parse Date_text StringToNumber now) prices
  = map (keptOf now) <$> mapM (rawSpot StringToNumber) prices.
Proof.
  induction prices as [|entry prices IH]; [done|]. cbn.
  destruct (rawSpot StringToNumber entry) as [raw|e] eqn:Hraw.
  - rewrite (spotPointOf_Ok now entry raw Hraw). cbn. rewrite IH.
    by destruct (mapM (rawSpot StringToNumber) prices).
  - by rewrite (spotPointOf_Throw now entry e Hraw).
Qed.

Lemma mapM_rawSpot_timestamps (prices : list LatestPrice) (raw : list SpotPricePoint) :
  mapM (rawSpot StringToNumber) prices = Ok raw ->
  map spot_timestamp raw = map startDate prices.
Proof.
  revert raw. induction prices as [|entry prices IH]; intros raw.
  - by intros [= <-].
  - cbn. destruct (rawSpot StringToNumber entry) as [r|] eqn:Hr; [|done]. cbn.
    destruct (mapM (rawSpot StringToNumber) prices) as [rs|]; [|done]. cbn.
    intros [= <-]. cbn. by rewrite (rawSpot_timestamp _ _ Hr), (IH rs).
Qed.

Lemma fetchFinlandSpotPriceTimeline_Payload (prices : list LatestPrice)
  (raw : list SpotPricePoint) (now : Z) :
  mapM (rawSpot StringToNumber) prices = Ok raw ->
  fetchFinlandSpotPriceTimeline Date_parse Date_text StringToNumber
    (Payload (Some prices)) now
  = Array_sort (byTimestamp Date_parse) (omap (keptOf now) raw).
Proof.
  intros Hraw. unfold fetchFinlandSpotPriceTimeline.
  change (default [] (Some prices)) with prices.
  rewrite mapM_spotPointOf, Hraw. cbn. f_equal.
  clear Hraw. induction raw as [|r raw IH]; [done|].
  cbn. rewrite IH.
  by destruct (hourOf Date_parse (spot_timestamp r)), (Js.Number_isFinite (price r)).
Qed.

(** An entry on which [Number] raises leaves no point at all. *)
Lemma fetchFinlandSpotPriceTimeline_Throw (prices : list LatestPrice) (e : exn)
  (now : Z) :
  mapM (rawSpot StringToNumber) prices = Throw e ->
  fetchFinlandSpotPriceTimeline Date_parse Date_text StringToNumber
    (Payload (Some prices)) now = [].
Proof.
  intros Hraw. unfold fetchFinlandSpotPriceTimeline.
  change (default [] (Some prices)) with prices.
  by rewrite mapM_spotPointOf, Hraw.
Qed.

Lemma byTimestamp_key (a b : SpotPricePoint) (x y : Z) :
  spotKey a = Some x -> spotKey b = Some y -> byTimestamp Date_parse a b = (x ?= y).
Proof. unfold byTimestamp. by intros -> ->. Qed.

Lemma hourOf_text (s : string) (h : Z) :
  hourOf Date_parse s = Some h -> reads_back Date_parse Date_text h ->
  Date_of_string Date_parse (Date_text h) = Some h /\
  hourOf Date_parse (Date_text h) = Some h /\ h `mod` msPerHour = 0.
Proof.
  intros Hh He. unfold reads_back in He.
  pose proof (hourOf_in_range _ _ _ Hh) as Hclip.
  assert (Date_of_string Date_parse (Date_text h) = Some h) as Hdate.
  { unfold Date_of_string. rewrite He. done. }
  assert (h `mod` msPerHour = 0) as Hmod.
  { unfold hourOf in Hh.
    destruct (Date_of_string Date_parse s) as [t|]; [|done].
    injection Hh as <-. rewrite Z.mul_comm. by apply Z.mod_mul. }
  split; [done|]. split; [|done].
  unfold hourOf. rewrite Hdate. cbn. f_equal.
  apply Z.mod_divide in Hmod as [k ->]; [|done].
  by rewrite Z.div_mul, Z.mul_comm.
Qed.

(** The hours of the entries read back, and so do those of what
    [rawSpot] makes of them. *)
Lemma reads_back_raw (prices : list LatestPrice) (raw : list SpotPricePoint) :
  mapM (rawSpot StringToNumber) prices = Ok raw ->
  Forall (fun entry => forall h, hourOf Date_parse (startDate entry) = Some h ->
                                 reads_back Date_parse Date_text h) prices ->
  Forall (fun r => forall h, hourOf Date_parse (spot_timestamp r) = Some h ->
                             reads_back Date_parse Date_text h) raw.
Proof.
  revert raw. induction prices as [|entry prices IH]; intros raw.
  - intros [= <-] _. constructor.
  - cbn. destruct (rawSpot StringToNumber entry) as [r|] eqn:Hr; [|done]. cbn.
    destruct (mapM (rawSpot StringToNumber) prices) as [rs|]; [|done]. cbn.
    intros [= <-] Hback. apply Forall_cons in Hback as [Hentry Hback].
    constructor; [|by apply IH].
    by rewrite (rawSpot_timestamp _ _ Hr).
Qed.

(** The points kept of entries whose hours read back. *)
Lemma kept_points (now : Z) (raw : list SpotPricePoint) :
  Forall (fun r => forall h, hourOf Date_parse (spot_timestamp r) = Some h ->
                             reads_back Date_parse Date_text h) raw ->
  Forall (fun point =>
            exists h, spot_timestamp point = Date_text h /\ spotKey point = Some h /\
                      hourOf Date_parse (spot_timestamp point) = Some h /\
                      h `mod` msPerHour = 0 /\
                      is_finite (price point) = true /\
                      spot_isFuture point = bool_decide (now < h))
    (omap (keptOf now) raw).
Proof.
  induction 1 as [|e l He _ IH]; [constructor|].
  cbn. destruct (hourOf Date_parse (spot_timestamp e)) as [h|] eqn:Hh; [|done].
  destruct (Js.Number_isFinite (price e)) eqn:Hfin; [|done].
  constructor; [|done]. exists h. cbn [spot_timestamp price spot_isFuture].
  destruct (hourOf_text _ _ Hh (He h eq_refl)) as (Hdate & Hhour & Hmod).
  split; [done|]. split; [by unfold getTime; rewrite Hdate|].
  split; [done|]. split; [done|]. split; [done|].
  unfold isAfter, getTime. by rewrite Hdate.
Qed.

Lemma sorted_points (now : Z) (out : list SpotPricePoint) :
  Forall (fun point =>
            exists h, spot_timestamp point = Date_text h /\ spotKey point = Some h /\
                      hourOf Date_parse (spot_timestamp point) = Some h /\
                      h `mod` msPerHour = 0 /\
                      is_finite (price point) = true /\
                      spot_isFuture point = bool_decide (now < h)) out ->
  StronglySorted
    (fun a b => forall x y, spotKey a = Some x -> spotKey b = Some y -> x <= y) out ->
  exists hs,
    Forall2 (fun point h => spotKey point = Some h) out hs /\
    map spot_timestamp out = map Date_text hs /\
    StronglySorted Z.le hs /\
    Forall (fun h => h `mod` msPerHour = 0) hs /\
    map spot_isFuture out = map (fun h => bool_decide (now < h)) hs /\
    Forall (fun point => is_finite (price point) = true) out.
Proof.
  induction 1 as [|point out (h & Hts & Hk & _ & Hmod & Hfin & Hfut) _ IH];
    intros Hsorted.
  - exists []. repeat split; constructor.
  - apply StronglySorted_inv in Hsorted as [Hsorted Hhd].
    destruct (IH Hsorted) as (hs & Hkeys & Hmap & Hs & Hm & Hf & Hp).
    exists (h :: hs). cbn [map]. rewrite Hts, Hmap, Hfut, Hf.
    split; [by constructor|]. split; [done|]. split; [|by repeat constructor].
    constructor; [done|].
    eapply Forall2_Forall_r; [exact Hkeys|].
    eapply Forall_impl; [exact Hhd|]. intros b Hb h' Hh'. by apply Hb.
Qed.

(** X19. A failed request and a payload without [prices] give no point.
    Of a payload, when [Date.parse] reads back the timestamps the service
    writes, the points returned are in ascending order of their times;
    each timestamp is the ISO text of the start of a UTC hour; every price
    is finite; and [isFuture] says whether that hour starts after [now]. *)
Theorem fetchFinlandSpotPriceTimeline_sorted (prices : list LatestPrice) (now : Z) :
  Forall (fun entry => forall h, hourOf Date_parse (startDate entry) = Some h ->
                                 reads_back Date_parse Date_text h) prices ->
  fetchFinlandSpotPriceTimeline Date_parse Date_text StringToNumber FetchFailed now = [] /\
  fetchFinlandSpotPriceTimeline Date_parse Date_text StringToNumber (Payload None) now
  = [] /\
  exists hs,
    map spot_timestamp
      (fetchFinlandSpotPriceTimeline Date_parse Date_text StringToNumber
         (Payload (Some prices)) now)
    = map Date_text hs /\
    StronglySorted Z.le hs /\
    Forall (fun h => h `mod` msPerHour = 0) hs /\
    map spot_isFuture
      (fetchFinlandSpotPriceTimeline Date_parse Date_text StringToNumber
         (Payload (Some prices)) now)
    = map (fun h => bool_decide (now < h)) hs /\
    Forall (fun point => is_finite (price point) = true)
      (fetchFinlandSpotPriceTimeline Date_parse Date_text StringToNumber
         (Payload (Some prices)) now).
Proof.
  intros Hback. split; [done|]. split; [done|].
  destruct (mapM (rawSpot StringToNumber) prices) as [raw|e] eqn:Hraw.
  - rewrite (fetchFinlandSpotPriceTimeline_Payload prices raw now Hraw).
    pose proof (kept_points now raw (reads_back_raw prices raw Hraw Hback)) as Hkept.
    destruct (sorted_points now
                (Array_sort (byTimestamp Date_parse) (omap (keptOf now) raw)))
      as (hs & _ & H); [| |by exists hs].
    + eapply Permutation_Forall; [symmetry; apply Array_sort_Permutation|done].
    + apply (Array_sort_key_sorted spotKey); [apply byTimestamp_key|].
      eapply Forall_impl; [exact Hkept|]. intros point (h & _ & Hk & _). by exists h.
  - rewrite (fetchFinlandSpotPriceTimeline_Throw prices e now Hraw).
    exists []. repeat split; constructor.
Qed.

Lemma filter_ext_Forall {A : Type} (f g : A -> bool) (l : list A) :
  Forall (fun a => f a = g a) l -> List.filter f l = List.filter g l.
Proof.
  induction 1 as [|a l Ha _ IH]; [done|]. cbn. by rewrite Ha, IH.
Qed.

(** X20. What the service changes is nothing the engine uses, the
    coercion of the price aside.  When [Number] raises on no price and
    [Date.parse] reads back the timestamps the service writes,
    [generatePriceFromWeather] returns the same on the points of
    [fetchFinlandSpotPriceTimeline] as on the entries themselves, each
    with its [startDate] and with [Number(price)] for its price: the
    price itself where it is a number. *)
Theorem generatePriceFromWeather_timeline (weatherData : list FmiDataPoint)
  (prices : list LatestPrice) (raw : list SpotPricePoint) (now : Z)
  (modelType : string) :
  Forall (fun entry => forall h, hourOf Date_parse (startDate entry) = Some h ->
                                 reads_back Date_parse Date_text h) prices ->
  mapM (rawSpot StringToNumber) prices = Ok raw ->
  Forall2 (fun entry r =>
             spot_timestamp r = startDate entry /\
             Number StringToNumber (lp_price entry) = Ok (price r) /\
             forall x, lp_price entry = VNumber x -> price r = x) prices raw /\
  generatePriceFromWeather Date_parse weatherData
    (fetchFinlandSpotPriceTimeline Date_parse Date_text StringToNumber
       (Payload (Some prices)) now)
    modelType
  = generatePriceFromWeather Date_parse weatherData raw modelType.
Proof.
  intros Hback Hraw. split.
  { clear Hback. revert raw Hraw.
    induction prices as [|entry prices IH]; intros raw.
    - intros [= <-]. constructor.
    - cbn. destruct (rawSpot StringToNumber entry) as [r|] eqn:Hr; cbn; [|done].
      destruct (mapM (rawSpot StringToNumber) prices) as [rs|]; cbn; [|done].
      intros [= <-]. constructor; [|by apply IH].
      unfold rawSpot in Hr.
      destruct (Number StringToNumber (lp_price entry)) as [x|] eqn:Hx; [|done].
      injection Hr as <-. cbn. split; [done|]. split; [done|].
      intros y Hy. rewrite Hy in Hx. by injection Hx. }
  apply generatePriceFromWeather_marketPriceMap, marketPriceMap_ext. intros h.
  rewrite (fetchFinlandSpotPriceTimeline_Payload prices raw now Hraw).
  pose proof (reads_back_raw prices raw Hraw Hback) as Hread.
  pose proof (kept_points now raw Hread) as Hkept.
  assert (forall l,
            Forall (fun point =>
                      exists h, spot_timestamp point = Date_text h /\
                        spotKey point = Some h /\
                        hourOf Date_parse (spot_timestamp point) = Some h /\
                        h `mod` msPerHour = 0 /\
                        is_finite (price point) = true /\
                        spot_isFuture point = bool_decide (now < h)) l ->
            List.filter (spotInHour Date_parse h) l
            = List.filter (fun point => bool_decide (spotKey point = Some h)) l) as Hkey.
  { intros l Hl. apply filter_ext_Forall. eapply Forall_impl; [exact Hl|].
    intros point (h' & _ & Hk & Hh & _ & Hfin & _). unfold spotInHour.
    unfold Js.Number_isFinite. rewrite Hfin, andb_true_r, Hh, Hk. done. }
  rewrite Hkey
    by (eapply Permutation_Forall; [symmetry; apply Array_sort_Permutation|done]).
  rewrite (filter_Array_sort spotKey); [|apply byTimestamp_key|].
  2: { eapply Forall_impl; [exact Hkept|]. intros point (h' & _ & Hk & _). by exists h'. }
  rewrite <- Hkey by done. rewrite <- !fmap_last. f_equal.
  clear Hkey Hkept Hraw Hback. induction Hread as [|e l He _ IH]; [done|].
  cbn [omap list_omap List.filter]. unfold spotInHour at 2.
  destruct (hourOf Date_parse (spot_timestamp e)) as [h'|] eqn:Hh'.
  - destruct (Js.Number_isFinite (price e)) eqn:Hfin.
    + cbn [List.filter]. unfold spotInHour at 1. cbn [spot_timestamp price].
      rewrite Hfin, !andb_true_r.
      specialize (He h' eq_refl).
      destruct (hourOf_text _ _ Hh' He) as (_ & -> & _).
      destruct (bool_decide (Some h' = Some h)); cbn; by rewrite IH.
    + rewrite andb_false_r. apply IH.
  - rewrite bool_decide_eq_false_2 by done. apply IH.
Qed.

End Timeline.
(** ** The timeline at concrete inputs *)

Example text_2024 : IsoText.text 1704067200000 = "2024-01-01T00:00:00.000Z"%string.
Proof. reflexivity. Qed.
Example text_leap : IsoText.text 1709214310250 = "2024-02-29T13:45:10.250Z"%string.
Proof. reflexivity. Qed.
Example text_epoch : IsoText.text 0 = "1970-01-01T00:00:00.000Z"%string.
Proof. reflexivity. Qed.
Example text_before : IsoText.text (-1) = "1969-12-31T23:59:59.999Z"%string.
Proof. reflexivity. Qed.
Example text_max : IsoText.text 8640000000000000 = "+275760-09-13T00:00:00.000Z"%string.
Proof. reflexivity. Qed.
Example text_min : IsoText.text (-8640000000000000) = "-271821-04-20T00:00:00.000Z"%string.
Proof. reflexivity. Qed.
Example text_parse : IsoParse.parse (IsoText.text 1709214310250) = Some 1709214310250.
Proof. reflexivity. Qed.

(** The service keeps a [null] price as [0] and a string as the number
    it writes; it drops the entry without a price and the one without a
    date. *)
Example fetchFinlandSpotPriceTimeline_demo :
  fetchFinlandSpotPriceTimeline IsoParse.parse IsoText.text NumberText.parse
    (Payload (Some latestPrices)) 1704069000000
  = [{| spot_timestamp := "2024-01-01T00:00:00.000Z"; price := 42.123;
        spot_isFuture := false |};
     {| spot_timestamp := "2024-01-01T01:00:00.000Z"; price := 50;
        spot_isFuture := true |};
     {| spot_timestamp := "2024-01-01T03:00:00.000Z"; price := 0;
        spot_isFuture := true |};
     {| spot_timestamp := "2024-01-01T04:00:00.000Z"; price := 7;
        spot_isFuture := true |}].
Proof. reflexivity. Qed.

(** One price that [Number] cannot read, and the whole timeline is
    empty. *)
Example fetchFinlandSpotPriceTimeline_broken :
  fetchFinlandSpotPriceTimeline IsoParse.parse IsoText.text NumberText.parse
    (Payload (Some brokenPrices)) 1704069000000
  = [].
Proof. reflexivity. Qed.

Lemma fetchFinlandSpotPriceTimeline_sorted_demo :
  fetchFinlandSpotPriceTimeline IsoParse.parse IsoText.text NumberText.parse
    FetchFailed 1704069000000 = [] /\
  fetchFinlandSpotPriceTimeline IsoParse.parse IsoText.text NumberText.parse
    (Payload None) 1704069000000 = [] /\
  exists hs,
    map spot_timestamp
      (fetchFinlandSpotPriceTimeline IsoParse.parse IsoText.text NumberText.parse
         (Payload (Some latestPrices)) 1704069000000)
    = map IsoText.text hs /\
    StronglySorted Z.le hs /\
    Forall (fun h => h `mod` msPerHour = 0) hs /\
    map spot_isFuture
      (fetchFinlandSpotPriceTimeline IsoParse.parse IsoText.text NumberText.parse
         (Payload (Some latestPrices)) 1704069000000)
    = map (fun h => bool_decide (1704069000000 < h)) hs /\
    Forall (fun point => is_finite (price point) = true)
      (fetchFinlandSpotPriceTimeline IsoParse.parse IsoText.text NumberText.parse
         (Payload (Some latestPrices)) 1704069000000).
Proof.
  apply (fetchFinlandSpotPriceTimeline_sorted IsoParse.parse IsoText.text
           NumberText.parse latestPrices 1704069000000).
  repeat constructor; intros h Hh; vm_compute in Hh; try discriminate Hh;
    injection Hh as <-; reflexivity.
Defined.

Lemma generatePriceFromWeather_timeline_demo :
  Forall2 (fun entry r =>
             spot_timestamp r = startDate entry /\
             Number NumberText.parse (lp_price entry) = Ok (price r) /\
             forall x, lp_price entry = VNumber x -> price r = x)
    latestPrices latestSpots /\
  generatePriceFromWeather IsoParse.parse demoWeather
    (fetchFinlandSpotPriceTimeline IsoParse.parse IsoText.text NumberText.parse
       (Payload (Some latestPrices)) 1704069000000)
    "Gradient Boosting"
  = generatePriceFromWeather IsoParse.parse demoWeather latestSpots "Gradient Boosting".
Proof.
  apply (generatePriceFromWeather_timeline IsoParse.parse IsoText.text NumberText.parse
           demoWeather latestPrices latestSpots 1704069000000 "Gradient Boosting").
  - repeat constructor; intros h Hh; vm_compute in Hh; try discriminate Hh;
      injection Hh as <-; reflexivity.
  - reflexivity.
Defined.

(** * The date format of the FMI requests *)

(** ** The calendar *)

Lemma days_from_spec (f : Z -> bool) (n : nat) (z : Z) :
  days_from f n z = true -> forall i, 0 <= i < Z.of_nat n -> f (z + i) = true.
Proof.
  revert z. induction n as [|n IH]; intros z H i Hi; [lia|].
  cbn [days_from] in H. apply andb_prop in H as [Hz Hrest].
  destruct (decide (i = 0)) as [->|Hne]; [by rewrite Z.add_0_r|].
  replace (z + i) with (z + 1 + (i - 1)) by lia. apply IH; [done|lia].
Qed.

(** Every day of the 400 years from 0000-03-01 on. *)
Lemma era_ok (z : Z) : -719468 <= z < -719468 + 146097 -> day_ok z = true.
Proof.
  intros Hz. replace z with (-719468 + (z + 719468)) by lia.
  apply (days_from_spec day_ok (Z.to_nat 146097)); [|lia].
  vm_compute. reflexivity.
Qed.

(** The calendar repeats every 400 years, which are 146097 days. *)
Lemma civilFromDays_shift (z e : Z) :
  IsoText.civilFromDays (z + 146097 * e)
  = let '(y, m, d) := IsoText.civilFromDays z in (y + 400 * e, m, d).
Proof.
  unfold IsoText.civilFromDays.
  replace (z + 146097 * e + 719468) with (z + 719468 + e * 146097) by lia.
  rewrite Z.div_add by lia.
  set (era := (z + 719468) `div` 146097).
  replace (z + 719468 + e * 146097 - (era + e) * 146097)
    with (z + 719468 - era * 146097) by lia.
  set (doe := z + 719468 - era * 146097).
  set (yoe := (doe - doe `div` 1460 + doe `div` 36524 - doe `div` 146096) `div` 365).
  set (doy := doe - (365 * yoe + yoe `div` 4 - yoe `div` 100)).
  set (mp := (5 * doy + 2) `div` 153).
  cbv zeta. destruct ((if mp <? 10 then mp + 3 else mp - 9) <=? 2); f_equal; f_equal; lia.
Qed.

Lemma daysFromCivil_shift (y m d e : Z) :
  IsoParse.daysFromCivil (y + 400 * e) m d = IsoParse.daysFromCivil y m d + 146097 * e.
Proof.
  unfold IsoParse.daysFromCivil.
  assert ((if m <=? 2 then y + 400 * e - 1 else y + 400 * e)
          = (if m <=? 2 then y - 1 else y) + e * 400) as ->
    by (destruct (m <=? 2); lia).
  set (y' := if m <=? 2 then y - 1 else y).
  rewrite Z.div_add by lia. cbv zeta.
  replace (y' + e * 400 - (y' `div` 400 + e) * 400) with (y' - y' `div` 400 * 400) by lia.
  lia.
Qed.

Lemma isLeap_shift (y e : Z) : IsoParse.isLeap (y + 400 * e) = IsoParse.isLeap y.
Proof.
  unfold IsoParse.isLeap.
  replace (y + 400 * e) with (y + (100 * e) * 4) at 1 by lia.
  replace (y + 400 * e) with (y + (4 * e) * 100) at 1 by lia.
  replace (y + 400 * e) with (y + e * 400) by lia.
  by rewrite !Z.mod_add by lia.
Qed.

Lemma daysInMonth_shift (y m e : Z) :
  IsoParse.daysInMonth (y + 400 * e) m = IsoParse.daysInMonth y m.
Proof. unfold IsoParse.daysInMonth. by rewrite isLeap_shift. Qed.

(** The civil date of a day of the years 0000 to 9999. *)
Lemma civilFromDays_ok (z : Z) :
  -719528 <= z <= 2932896 ->
  exists y m d,
    IsoText.civilFromDays z = (y, m, d) /\ IsoParse.daysFromCivil y m d = z /\
    1 <= m <= 12 /\ 1 <= d <= IsoParse.daysInMonth y m /\ 0 <= y <= 9999.
Proof.
  intros Hz. set (e := (z + 719468) `div` 146097).
  pose proof (Z.div_mod (z + 719468) 146097 ltac:(lia)) as Hdm.
  pose proof (Z.mod_pos_bound (z + 719468) 146097 ltac:(lia)) as Hm.
  fold e in Hdm.
  assert (-1 <= e <= 24) as He.
  { split.
    - apply Z.div_le_lower_bound; lia.
    - apply Z.lt_succ_r. apply Z.div_lt_upper_bound; lia. }
  set (z0 := z - 146097 * e).
  pose proof (era_ok z0 ltac:(unfold z0; lia)) as Hok.
  replace z with (z0 + 146097 * e) by (unfold z0; lia).
  rewrite civilFromDays_shift. unfold day_ok in Hok.
  destruct (IsoText.civilFromDays z0) as [[y m] d].
  repeat (apply andb_prop in Hok as [Hok ?]).
  exists (y + 400 * e), m, d. split; [done|].
  rewrite daysFromCivil_shift, daysInMonth_shift.
  assert (if z0 <=? -573432 then y <= 399 else y = 400) as Hy.
  { destruct (z0 <=? -573432); lia. }
  destruct (Z.leb_spec z0 (-573432)); unfold z0 in *; lia.
Qed.

(** ** Digits *)

Lemma string_app_assoc (a b c : string) :
  ((a +:+ b) +:+ c = a +:+ (b +:+ c))%string.
Proof.
  induction a as [|x a IH]; [done|].
  change (String x ((a +:+ b) +:+ c) = String x (a +:+ (b +:+ c)))%string.
  by f_equal.
Qed.

Lemma string_length_app (a b : string) :
  String.length (a +:+ b) = (String.length a + String.length b)%nat.
Proof.
  induction a as [|x a IH]; [done|].
  change (S (String.length (a +:+ b)) = S (String.length a + String.length b)).
  by f_equal.
Qed.

Lemma digits_acc (k : nat) (n : Z) (acc : string) :
  IsoText.digits k n acc = (IsoText.digits k n "" +:+ acc)%string.
Proof.
  revert n acc. induction k as [|k IH]; intros n acc; [done|].
  cbn [IsoText.digits]. rewrite (IH _ (String _ acc)), (IH _ (String _ "")).
  by rewrite string_app_assoc.
Qed.

Lemma digits_S (k : nat) (n : Z) :
  IsoText.digits (S k) n ""
  = (IsoText.digits k (n `div` 10) ""
     +:+ String (Ascii.ascii_of_N (Z.to_N (48 + n `mod` 10))) "")%string.
Proof. cbn [IsoText.digits]. apply digits_acc. Qed.

Lemma digit_char (d : Z) :
  0 <= d <= 9 -> IsoParse.digit (Ascii.ascii_of_N (Z.to_N (48 + d))) = Some d.
Proof.
  intros Hd.
  assert (d = 0 \/ d = 1 \/ d = 2 \/ d = 3 \/ d = 4 \/ d = 5 \/ d = 6 \/ d = 7
          \/ d = 8 \/ d = 9) as H by lia.
  by repeat (destruct H as [->|H]; [done|]); subst d.
Qed.

Lemma digit_char_no_dot (d : Z) :
  0 <= d <= 9 -> Ascii.ascii_of_N (Z.to_N (48 + d)) <> "."%char.
Proof.
  intros Hd.
  assert (d = 0 \/ d = 1 \/ d = 2 \/ d = 3 \/ d = 4 \/ d = 5 \/ d = 6 \/ d = 7
          \/ d = 8 \/ d = 9) as H by lia.
  by repeat (destruct H as [->|H]; [done|]); subst d.
Qed.

Lemma list_ascii_app (a b : string) :
  String.list_ascii_of_string (a +:+ b)
  = String.list_ascii_of_string a ++ String.list_ascii_of_string b.
Proof.
  induction a as [|c a IH]; [done|].
  change (c :: String.list_ascii_of_string (a +:+ b)
          = c :: (String.list_ascii_of_string a ++ String.list_ascii_of_string b)).
  by f_equal.
Qed.

(** Reading one more digit. *)
Lemma number_S (k : nat) (acc : Z) (l : list ascii) :
  IsoParse.number (S k) acc l
  = match IsoParse.number k acc l with
    | Some (v, c :: l') =>
        match IsoParse.digit c with
        | Some d => Some (10 * v + d, l')
        | None => None
        end
    | _ => None
    end.
Proof.
  revert acc l. induction k as [|k IH]; intros acc l.
  - cbn. destruct l as [|c l]; [done|]. by destruct (IsoParse.digit c).
  - change (IsoParse.number (S (S k)) acc l)
      with (match l with
            | c :: l' => d ← IsoParse.digit c; IsoParse.number (S k) (10 * acc + d) l'
            | [] => None
            end).
    change (IsoParse.number (S k) acc l)
      with (match l with
            | c :: l' => d ← IsoParse.digit c; IsoParse.number k (10 * acc + d) l'
            | [] => None
            end).
    destruct l as [|c l]; [done|].
    destruct (IsoParse.digit c) as [d|]; [|done]. cbn. apply IH.
Qed.

(** [number] reads back what [digits] wrote. *)
Lemma number_digits (k : nat) (n acc : Z) (rest : list ascii) :
  0 <= n < 10 ^ Z.of_nat k ->
  IsoParse.number k acc (String.list_ascii_of_string (IsoText.digits k n "") ++ rest)
  = Some (acc * 10 ^ Z.of_nat k + n, rest).
Proof.
  revert n rest. induction k as [|k IH]; intros n rest Hn.
  - cbn in *. f_equal. f_equal. lia.
  - rewrite Nat2Z.inj_succ, Z.pow_succ_r in * by lia.
    rewrite number_S, digits_S, list_ascii_app, <- app_assoc.
    pose proof (Z.div_mod n 10 ltac:(lia)) as Hdm.
    pose proof (Z.mod_pos_bound n 10 ltac:(lia)) as Hm.
    rewrite IH by (split; [apply Z.div_pos; lia|apply Z.div_lt_upper_bound; lia]).
    cbn [String.list_ascii_of_string app].
    rewrite digit_char by lia. f_equal. f_equal. lia.
Qed.

Lemma length_digits (k : nat) (n : Z) : String.length (IsoText.digits k n "") = k.
Proof.
  revert n. induction k as [|k IH]; intros n; [done|].
  rewrite digits_S, string_length_app, IH. cbn. lia.
Qed.

Lemma beforeDot_digits (k : nat) (n : Z) (rest : string) :
  beforeDot (IsoText.digits k n "" +:+ rest)
  = (IsoText.digits k n "" +:+ beforeDot rest)%string.
Proof.
  revert n rest. induction k as [|k IH]; intros n rest; [done|].
  rewrite digits_S, !string_app_assoc, IH. f_equal.
  set (c := Ascii.ascii_of_N (Z.to_N (48 + n `mod` 10))).
  change (beforeDot (String c rest) = String c (beforeDot rest)).
  cbn [beforeDot]. rewrite decide_False; [done|].
  apply digit_char_no_dot. pose proof (Z.mod_pos_bound n 10 ltac:(lia)). lia.
Qed.

(** ** [formatFmiDate] *)

(** The time of day of a time value. *)
Lemma time_of_day (t : Z) :
  let ms := t `mod` 86400000 in
  let hh := ms `div` 3600000 in
  let mi := (ms `div` 60000) `mod` 60 in
  let ss := (ms `div` 1000) `mod` 60 in
  0 <= hh <= 23 /\ 0 <= mi <= 59 /\ 0 <= ss <= 59 /\
  (t `div` 86400000) * 86400000 + hh * 3600000 + mi * 60000 + ss * 1000 + 0
  = 1000 * (t `div` 1000).
Proof.
  intros ms hh mi ss.
  pose proof (Z.div_mod t 86400000 ltac:(lia)) as Ht.
  pose proof (Z.mod_pos_bound t 86400000 ltac:(lia)) as Hms. fold ms in Ht, Hms.
  pose proof (Z.div_mod ms 1000 ltac:(lia)) as H1.
  pose proof (Z.mod_pos_bound ms 1000 ltac:(lia)) as B1.
  set (S := ms `div` 1000) in *.
  pose proof (Z.div_mod S 60 ltac:(lia)) as H2.
  pose proof (Z.mod_pos_bound S 60 ltac:(lia)) as B2. fold ss in H2, B2.
  set (M := S `div` 60) in *.
  pose proof (Z.div_mod M 60 ltac:(lia)) as H3.
  pose proof (Z.mod_pos_bound M 60 ltac:(lia)) as B3.
  set (H := M `div` 60) in *.
  assert (ms `div` 60000 = M) as HM.
  { symmetry. apply (Z.div_unique _ _ _ (1000 * ss + ms `mod` 1000)); lia. }
  assert (hh = H) as HH.
  { symmetry. apply (Z.div_unique _ _ _ (60000 * (M `mod` 60) + 1000 * ss + ms `mod` 1000)); lia. }
  assert (mi = M `mod` 60) as HMi by (unfold mi; by rewrite HM).
  assert (t `div` 1000 = (t `div` 86400000) * 86400 + S) as HT.
  { symmetry. apply (Z.div_unique _ _ _ (ms `mod` 1000)); lia. }
  rewrite HT, HH, HMi. lia.
Qed.

Lemma beforeDot_sep (c : ascii) (rest : string) :
  c <> "."%char ->
  beforeDot (String c "" +:+ rest) = (String c "" +:+ beforeDot rest)%string.
Proof.
  intros Hc. change (beforeDot (String c rest) = String c (beforeDot rest)).
  cbn [beforeDot]. by rewrite decide_False.
Qed.

Lemma beforeDot_dot (rest : string) : beforeDot ("." +:+ rest) = ""%string.
Proof. reflexivity. Qed.

Lemma string_app_nil_r (a : string) : (a +:+ "")%string = a.
Proof.
  induction a as [|c a IH]; [done|].
  change (String c (a +:+ "") = String c a). by f_equal.
Qed.

(** The text of a time value of the years 0000 to 9999, up to its dot. *)
Lemma beforeDot_text (t : Z) (y m d : Z) :
  IsoText.civilFromDays (t `div` 86400000) = (y, m, d) -> 0 <= y <= 9999 ->
  let ms := t `mod` 86400000 in
  beforeDot (IsoText.text t)
  = (IsoText.digits 4 y "" +:+ "-" +:+ IsoText.digits 2 m "" +:+ "-"
     +:+ IsoText.digits 2 d "" +:+ "T" +:+ IsoText.digits 2 (ms `div` 3600000) ""
     +:+ ":" +:+ IsoText.digits 2 ((ms `div` 60000) `mod` 60) ""
     +:+ ":" +:+ IsoText.digits 2 ((ms `div` 1000) `mod` 60) "")%string.
Proof.
  intros Hc Hy ms. unfold IsoText.text. rewrite Hc. fold ms.
  unfold IsoText.year.
  assert (((0 <=? y) && (y <=? 9999))%bool = true) as ->
    by (apply andb_true_intro; split; lia).
  rewrite ?string_app_assoc.
  repeat first [rewrite beforeDot_digits | rewrite beforeDot_sep by done].
  by rewrite beforeDot_dot, string_app_nil_r.
Qed.

Lemma daysInMonth_le (y m : Z) : IsoParse.daysInMonth y m <= 31.
Proof.
  unfold IsoParse.daysInMonth.
  destruct (m =? 2); [by destruct (IsoParse.isLeap y)|].
  by destruct (_ || _).
Qed.

Lemma expect_sep (c : ascii) (l : list ascii) :
  IsoParse.expect c (String.list_ascii_of_string (String c "") ++ l) = Some l.
Proof. cbn. by rewrite decide_True. Qed.

(** [Date.parse] on the format of the FMI requests. *)
Lemma parse_seconds (y m d hh mi ss : Z) :
  0 <= y <= 9999 -> 1 <= m <= 12 -> 1 <= d <= IsoParse.daysInMonth y m ->
  0 <= hh <= 23 -> 0 <= mi <= 59 -> 0 <= ss <= 59 ->
  IsoParse.parse
    (IsoText.digits 4 y "" +:+ "-" +:+ IsoText.digits 2 m "" +:+ "-"
     +:+ IsoText.digits 2 d "" +:+ "T" +:+ IsoText.digits 2 hh ""
     +:+ ":" +:+ IsoText.digits 2 mi "" +:+ ":" +:+ IsoText.digits 2 ss "" +:+ "Z")
  = Some (IsoParse.daysFromCivil y m d * 86400000
          + hh * 3600000 + mi * 60000 + ss * 1000 + 0).
Proof.
  intros Hy Hm Hd Hhh Hmi Hss. pose proof (daysInMonth_le y m) as Hdim.
  unfold IsoParse.parse. rewrite !list_ascii_app.
  rewrite (number_digits 4) by (cbn; lia). cbn [mbind option_bind].
  do 5 (rewrite expect_sep; cbn [mbind option_bind];
        rewrite (number_digits 2) by (cbn; lia); cbn [mbind option_bind]).
  cbn [String.list_ascii_of_string IsoParse.fraction mbind option_bind IsoParse.expect].
  rewrite decide_True by done. cbn [mbind option_bind].
  rewrite !Z.mul_0_l, !Z.add_0_l.
  assert (((1 <=? m) && (m <=? 12) && (1 <=? d) && (d <=? IsoParse.daysInMonth y m)
           && (hh <=? 23) && (mi <=? 59) && (ss <=? 59))%bool = true) as ->; [|done].
  repeat (apply andb_true_intro; split); lia.
Qed.

(** X22. [formatFmiDate] raises a RangeError on the invalid date.  For a
    date of the years 0000 to 9999 it writes the twenty characters
    [YYYY-MM-DDTHH:mm:ssZ], which [Date.parse] reads back as the date
    without its milliseconds: the second the date falls in. *)
Theorem formatFmiDate_reads_back (t : Z) :
  formatFmiDate IsoText.text None = Throw RangeError /\
  (year0 <= t <= year9999 ->
   exists s, formatFmiDate IsoText.text (Some t) = Ok s /\
             String.length s = 20%nat /\
             IsoParse.parse s = Some (1000 * (t `div` 1000))).
Proof.
  split; [done|]. intros Ht. unfold year0, year9999 in Ht.
  assert (-719528 <= t `div` 86400000 <= 2932896) as Hday.
  { split.
    - apply Z.div_le_lower_bound; lia.
    - apply Z.lt_succ_r. apply Z.div_lt_upper_bound; lia. }
  destruct (civilFromDays_ok _ Hday) as (y & m & d & Hc & Hback & Hm & Hd & Hy).
  destruct (time_of_day t) as (Hhh & Hmi & Hss & Htime).
  pose proof (daysInMonth_le y m) as Hdim.
  eexists. split; [reflexivity|].
  rewrite (beforeDot_text t y m d Hc Hy). rewrite ?string_app_assoc.
  split.
  - rewrite !string_length_app, !length_digits. reflexivity.
  - rewrite parse_seconds by done. by rewrite Hback, Htime.
Qed.

Example formatFmiDate_leap :
  formatFmiDate IsoText.text (Some 1709214310250) = Ok "2024-02-29T13:45:10Z"%string.
Proof. reflexivity. Qed.

(** Outside of the years 0000 to 9999 the year has a sign and six
    digits. *)
Example formatFmiDate_year_10000 :
  formatFmiDate IsoText.text (Some 253402300800000)
  = Ok "+010000-01-01T00:00:00Z"%string.
Proof. reflexivity. Qed.


(** * The dashboard on the metrics *)

Lemma cvFold_mae_not_negative (historical : list PriceData) (foldSize i : nat) :
  (cv_mae (cvFold historical foldSize i) <? 0)%float = false.
Proof.
  unfold cvFold. cbn [cv_mae].
  match goal with
  | |- context [computeFoldMetrics ?s] =>
      destruct (computeFoldMetrics_signs s) as (H1 & _ & _)
  end.
  by apply (toFixed2_not_below 0).
Qed.

Lemma bar_range (mae : float) :
  (mae <? 0)%float = false ->
  is_nan (Js.Math_max 30 (100 - mae * 5)) = true \/
  ((30 <=? Js.Math_max 30 (100 - mae * 5))%float
   && (Js.Math_max 30 (100 - mae * 5) <=? 100)%float) = true.
Proof.
  intros Hmae. apply not_ltb_cases in Hmae as [Hnan|[Hnan|Hle]]; [|done|].
  - left. rewrite Math_max_nan; [done|].
    rewrite is_nan_spec in *. rewrite sub_spec, mul_spec.
    by destruct (Prim2SF mae).
  - right.
    destruct (mul_mono 5 mae mae _ _ eq_refl ltac:(done) Hle) as [_ Hpos].
    { destruct (leb_not_nan _ _ Hle) as [_ Hn]. by apply leb_refl_not_nan. }
    pose proof (sub_antitone_any 100 0 (mae * 5) _ _ _ eq_refl Hpos) as Hsub.
    change (100 - 0)%float with 100%float in Hsub.
    destruct (leb_not_nan _ _ Hsub) as [Hn _].
    assert (is_nan 30 = false) as N30 by done.
    assert (is_nan 100 = false) as N100 by done.
    destruct (Math_max_val 30 _ N30 Hn) as [Nmax Vmax].
    apply (leb_val _ _ Hn N100) in Hsub.
    assert (val 30 <= val 100) as H30.
    { apply (leb_val _ _ N30 N100). reflexivity. }
    apply andb_true_intro. split; apply leb_val; try done; lia.
Qed.

(** X23. The bar the dashboard draws for a fold of [performTimeSeriesCV]
    is never narrower than 30 percent nor wider than 100: its width
    [Math.max(30, 100 - fold.mae * 5)] is a number of [30, 100], or NaN
    when the fold's MAE is NaN. *)
Theorem foldBarWidth_range (data : list PriceData) :
  Forall (fun fold =>
            is_nan (foldBarWidth fold) = true \/
            ((30 <=? foldBarWidth fold)%float && (foldBarWidth fold <=? 100)%float)
            = true)
    (performTimeSeriesCV data).
Proof.
  unfold performTimeSeriesCV.
  destruct (length (List.filter isHistorical data) <? 12)%nat; [constructor|].
  destruct (length (List.filter isHistorical data) / (4 + 1) <? 2)%nat; [constructor|].
  apply Forall_map, Forall_forall. intros i _. unfold foldBarWidth.
  apply bar_range, cvFold_mae_not_negative.
Qed.

(** ** The made-up weather *)

Lemma mapM_Ok_Forall {A B : Type} (f : A -> result B) (g : A -> B) (l : list A) :
  Forall (fun a => f a = Ok (g a)) l -> mapM f l = Ok (map g l).
Proof.
  induction 1 as [|a l Ha _ IH]; [done|]. cbn. by rewrite Ha, IH.
Qed.

Section FallbackFacts.
Variable Date_parse : string -> option Z.
Variable Date_text : Z -> string.
Variable random : nat -> float.

(** A list that is in the strict order of its times is left alone by the
    sort. *)
Lemma Array_sort_increasing (l : list FmiDataPoint) :
  StronglySorted
    (fun a b => exists x y, timeValue Date_parse a = Some x /\
                            timeValue Date_parse b = Some y /\ x < y) l ->
  Array_sort (byTime Date_parse) l = l.
Proof.
  induction 1 as [|a l Hsorted IH Hhd]; [done|].
  rewrite Array_sort_cons, IH. destruct l as [|b l]; [done|].
  apply Forall_cons in Hhd as [(x & y & Hx & Hy & Hlt) _].
  cbn [sort_insert]. rewrite (byTime_valid Date_parse a b x y Hx Hy).
  by rewrite (proj2 (Z.compare_lt_iff x y) Hlt).
Qed.

(** Sample [i], written out. *)
Local Abbreviation sampleOf now :=
  (fun i : nat =>
     {| time := Date_text (now i - (24 - Z.of_nat i) * 3600000);
        fmi_temperature := (2 + random i * 8)%float;
        isForecast := bool_decide (24 <= i)%nat |}).

(** The clock stays in the range where the engine can go a day back, and
    does not run backwards. *)
Local Abbreviation steady now :=
  ((forall i, (i < 48)%nat ->
      - maxTimeValue + 49 * msPerHour <= now i <= maxTimeValue - 23 * msPerHour) /\
   (forall i j, (i <= j < 48)%nat -> now i <= now j)).

Lemma fallbackWeather_Ok (now : nat -> Z) :
  steady now ->
  fallbackWeather Date_text random now = Ok (map (sampleOf now) (seq 0 48)).
Proof.
  intros [Hnow _]. unfold fallbackWeather. apply mapM_Ok_Forall, Forall_forall.
  intros i Hi%elem_of_seq. unfold fallbackSample, Date_of_time.
  cbn [mbind option_bind]. specialize (Hnow i ltac:(lia)).
  unfold msPerHour, maxTimeValue in Hnow.
  rewrite TimeClip_in_range by (unfold maxTimeValue; lia). done.
Qed.

Lemma increasing_map_seq (now : nat -> Z) (start len : nat) :
  (start + len <= 48)%nat -> steady now ->
  (forall i, (i < 48)%nat ->
             reads_back Date_parse Date_text (now i - (24 - Z.of_nat i) * 3600000)) ->
  StronglySorted
    (fun a b => exists x y, timeValue Date_parse a = Some x /\
                            timeValue Date_parse b = Some y /\ x < y)
    (map (sampleOf now) (seq start len)) /\
  Forall (fun a => exists x j, timeValue Date_parse a = Some x /\
                               (start <= j < 48)%nat /\
                               x = now j - (24 - Z.of_nat j) * 3600000)
    (map (sampleOf now) (seq start len)).
Proof.
  intros Hlen [Hnow Hmono] Hback. revert start Hlen.
  assert (forall i, (i < 48)%nat ->
            timeValue Date_parse (sampleOf now i)
            = Some (now i - (24 - Z.of_nat i) * 3600000)) as Htime.
  { intros i Hi. unfold timeValue, getTime, Date_of_string. cbn [time].
    rewrite (Hback i Hi). cbn. specialize (Hnow i Hi).
    unfold msPerHour, maxTimeValue in Hnow.
    apply TimeClip_in_range. unfold maxTimeValue. lia. }
  induction len as [|len IH]; intros start Hlen; [by split; constructor|].
  cbn [seq map]. destruct (IH (S start) ltac:(lia)) as [Hs Hf].
  split.
  - constructor; [done|].
    eapply Forall_impl; [exact Hf|]. intros b (y & j & Hy & Hj & ->).
    exists (now start - (24 - Z.of_nat start) * 3600000),
      (now j - (24 - Z.of_nat j) * 3600000).
    split; [apply Htime; lia|]. split; [done|].
    specialize (Hmono start j ltac:(lia)). lia.
  - constructor.
    + exists (now start - (24 - Z.of_nat start) * 3600000), start.
      split; [apply Htime; lia|]. split; [lia|done].
    + eapply Forall_impl; [exact Hf|]. intros b (y & j & Hy & Hj & ->).
      exists (now j - (24 - Z.of_nat j) * 3600000), j.
      split; [done|]. split; [lia|done].
Qed.

(** X24. The weather the dashboard makes up when FMI returns nothing
    always goes through the engine.  When the clock, read anew for each
    sample, stays at least 49 hours after the first and 23 hours before
    the last time value and does not run backwards, and [Date.parse] reads
    back the 48 timestamps written, [generatePriceFromWeather] returns 48
    records on it, whatever the random temperatures, the spot prices and
    the model: the 24 observed hours first, then the 24 forecast hours. *)
Theorem fallbackWeather_goes_through (now : nat -> Z)
  (spotPrices : list SpotPricePoint) (modelType : string) :
  (forall i, (i < 48)%nat ->
     - maxTimeValue + 49 * msPerHour <= now i <= maxTimeValue - 23 * msPerHour) ->
  (forall i j, (i <= j < 48)%nat -> now i <= now j) ->
  (forall i, (i < 48)%nat ->
             reads_back Date_parse Date_text (now i - (24 - Z.of_nat i) * 3600000)) ->
  exists weather out,
    fallbackWeather Date_text random now = Ok weather /\
    length weather = 48%nat /\
    generatePriceFromWeather Date_parse weather spotPrices modelType = Ok out /\
    map isFuture out = replicate 24 false ++ replicate 24 true.
Proof.
  intros Hnow Hmono Hback.
  destruct (increasing_map_seq now 0 48 ltac:(lia) (conj Hnow Hmono) Hback)
    as [Hsorted Htimes].
  set (weather := map (sampleOf now) (seq 0 48)) in *.
  assert (sortedWeatherOf Date_parse weather = weather) as Hsame
    by (by apply Array_sort_increasing).
  assert (Forall (predictable Date_parse) (sortedWeatherOf Date_parse weather)) as Hpred.
  { rewrite Hsame. eapply Forall_impl; [exact Htimes|].
    intros a (x & j & Hx & Hj & ->). unfold predictable.
    rewrite hourOf_timeValue, Hx. cbn.
    specialize (Hnow j ltac:(lia)).
    set (x := now j - (24 - Z.of_nat j) * 3600000).
    pose proof (Z.div_mod x msPerHour ltac:(done)) as Hdm.
    pose proof (Z.mod_pos_bound x msPerHour ltac:(done)) as Hm.
    unfold msPerHour, maxTimeValue, x in *. lia. }
  destruct (proj2 (generatePriceFromWeather_Ok_iff Date_parse weather spotPrices
                     modelType) Hpred) as [out Hout].
  exists weather, out. split; [by apply fallbackWeather_Ok|].
  split; [done|]. split; [done|].
  apply generatePriceFromWeather_records in Hout. rewrite Hsame in Hout.
  assert (map isFuture out = map isForecast weather) as ->.
  { clear Hsorted Htimes Hsame Hpred.
    induction Hout as [|obs r l out' (h & raw & _ & _ & _ & _ & _ & Hf) _ IH]; [done|].
    cbn. by rewrite Hf, IH. }
  unfold weather. by rewrite map_map.
Qed.

End FallbackFacts.

Lemma fallbackWeather_goes_through_demo :
  exists weather out,
    fallbackWeather IsoText.text (fun _ => 0.5%float)
      (fun i => 1704069000000 + Z.of_nat i) = Ok weather /\
    length weather = 48%nat /\
    generatePriceFromWeather IsoParse.parse weather demoSpots "Random Forest" = Ok out /\
    map isFuture out = replicate 24 false ++ replicate 24 true.
Proof.
  apply (fallbackWeather_goes_through IsoParse.parse IsoText.text (fun _ => 0.5%float)
           (fun i => 1704069000000 + Z.of_nat i) demoSpots "Random Forest").
  - intros i Hi. unfold maxTimeValue, msPerHour. lia.
  - intros i j Hij. lia.
  - intros i Hi.
    assert (forallb (fun i =>
                       let t := 1704069000000 + Z.of_nat i - (24 - Z.of_nat i) * 3600000 in
                       bool_decide (IsoParse.parse (IsoText.text t) = Some t))
              (seq 0 48) = true) as Hall by (vm_compute; reflexivity).
    rewrite forallb_forall in Hall.
    unfold reads_back. apply (proj1 (bool_decide_eq_true _)), (Hall i), in_seq. lia.
Defined.
